(** * HealthRadar batch scripts: header resolution, postcode
    normalisation, two-pass merge, aggregation and exit behaviour.

  Shallow embedding of the Python sources under [src/code]:
  - [Practiceinformation.py]   ([format_uk_postcode], [first_nonnull],
    [pick_col], [build_address], [run], [main]);
  - [HealthDepriviation_2019.py] ([find_column], [main]);
  - [gppatientregister.py]     ([to_int], [parse_yearmonth],
    [read_one_csv], [aggregate_all], [main]);
  - [gpcountwithage.py]        ([_read_csv],
    [_extract_year_month_from_filename], [main] up to line 150: the loop
    over the files with its numeric conversion, and the two early
    returns);
  - [income.py]                ([_normalize], [_canonical_rename],
    [main]);
  - [onspostcoedmapping.py]    ([_read_csv], [_require_cols], [main]);
  - [qof.py]                   ([main]).

  Text is modelled on the 7-bit range: on it [str.upper], [str.lower],
  [str.title], [str.isspace] and the regular-expression classes [\s],
  [\d], [\w] and [\b] agree with the definitions of [PyStr].  The upper
  half of Rocq's [ascii] type stands for characters with no case, no
  whitespace status and no digit value; Python knows characters beyond
  the 7-bit range that have one, so the theorems that rest on the case
  mapping or on the digit class are stated for texts of that range
  ([PyStr.seven_bit]).

  The frames are those of pandas 2 with its default options.
  [Practiceinformation.run] and [HealthDepriviation_2019.main] have the
  exceptions of pandas that depend on the data: a column that
  [Series.apply] infers as [float64], merge keys of different kinds, a
  selection with more columns than labels.  What is proved of the tables
  of [onspostcoedmapping.py] and [qof.py] is stated for files whose
  trimmed headers are distinct.

  A data frame is a list of labels and a list of rows, a row pairing each
  label with its cell.  The operations of pandas the scripts call are
  written out in [Frame] with the behaviour the scripts rely on: a left
  merge keeps the order of the left frame and matches missing keys with
  each other, [drop_duplicates] keeps the first row of each key,
  [astype(str)] turns a missing cell into the text ["nan"], and [groupby]
  leaves out the rows whose key is missing.  The scalar readers
  [pd.to_numeric] and [pd.to_datetime] are parameters of the aggregation
  scripts. *)

From stdpp Require Import gmap strings list sorting.
From Stdlib Require Import Ascii ZArith Lia.
From Stdlib Require DecimalString DecimalZ.

(* ===================================================================== *)
(** * Part I: definitions *)
(* ===================================================================== *)

(** ** Python values and string built-ins *)

(** What a cell of a frame, or an argument of a helper, can hold.  A frame
  read with [dtype=str] holds [Str] and [NaN] only; [PyNone] is what
  [Series.get] gives for an absent label and [Num] stands for any
  non-text scalar. *)
Inductive value :=
| Str (s : string)
| NaN
| PyNone
| Num (z : Z).

Global Instance value_eq_dec : EqDecision value.
Proof. solve_decision. Defined.

(** [isinstance(v, str)] *)
Definition is_str (v : value) : bool :=
match v with Str _ => true | _ => false end.

Module PyStr.

Definition chars : string → list ascii := String.list_ascii_of_string.
Definition text : list ascii → string := String.string_of_list_ascii.

(** [len(s)] *)
Definition len (s : string) : nat := length (chars s).

(** [c.isspace()], also the class [\s] of [re] on [str] patterns:
    TAB, LF, VT, FF, CR, FS, GS, RS, US and the space. *)
Definition isspace (c : ascii) : bool :=
  let n := N_of_ascii c in
  ((9 <=? n) && (n <=? 13) || (28 <=? n) && (n <=? 32))%N.

Definition toupper (c : ascii) : ascii :=
  let n := N_of_ascii c in
  if ((97 <=? n) && (n <=? 122))%N then ascii_of_N (n - 32) else c.

Definition tolower (c : ascii) : ascii :=
  let n := N_of_ascii c in
  if ((65 <=? n) && (n <=? 90))%N then ascii_of_N (n + 32) else c.

(** [s.upper()] and [s.lower()], for a text of the 7-bit range: beyond
    it [str] has letters that these leave alone. *)
Definition upper (s : string) : string := text (toupper <$> chars s).
Definition lower (s : string) : string := text (tolower <$> chars s).

Fixpoint lstrip_chars (l : list ascii) : list ascii :=
  match l with
  | [] => []
  | c :: l' => if isspace c then lstrip_chars l' else l
  end.

Definition rstrip_chars (l : list ascii) : list ascii :=
  reverse (lstrip_chars (reverse l)).

(** [s.strip()] *)
Definition strip (s : string) : string :=
  text (rstrip_chars (lstrip_chars (chars s))).

Definition nonspace (c : ascii) : Prop := isspace c = false.

(** [re.sub(r"\s+", "", s)]: every whitespace character goes. *)
Definition remove_whitespace (s : string) : string :=
  text (filter nonspace (chars s)).

(** [re.sub(r"\s+", " ", s)]: every maximal run of whitespace becomes
    one space.  [in_run] tells that the previous character was
    whitespace, so that the run has had its space already. *)
Fixpoint collapse_go (in_run : bool) (l : list ascii) : list ascii :=
  match l with
  | [] => []
  | c :: l' =>
      if isspace c
      then (if in_run then collapse_go true l'
            else " "%char :: collapse_go true l')
      else c :: collapse_go false l'
  end.

Definition collapse_whitespace (s : string) : string :=
  text (collapse_go false (chars s)).

(** [s.split()]: the maximal runs of non-whitespace characters.  [cur]
    is the token being read, reversed. *)
Fixpoint split_go (cur : list ascii) (l : list ascii) : list string :=
  match l with
  | [] => match cur with [] => [] | _ => [text (reverse cur)] end
  | c :: l' =>
      if isspace c
      then match cur with
           | [] => split_go [] l'
           | _ => text (reverse cur) :: split_go [] l'
           end
      else split_go (c :: cur) l'
  end.

Definition split (s : string) : list string := split_go [] (chars s).

(** Python's clamping of a slice bound [i] on a sequence of length [n]. *)
Definition slice_bound (n : nat) (i : Z) : nat :=
  if (i <? 0)%Z then Z.to_nat (Z.max 0 (Z.of_nat n + i))
  else Nat.min n (Z.to_nat i).

(** [s[:i]] and [s[i:]] *)
Definition slice_to (s : string) (i : Z) : string :=
  text (take (slice_bound (len s) i) (chars s)).
Definition slice_from (s : string) (i : Z) : string :=
  text (drop (slice_bound (len s) i) (chars s)).

(** A string with no whitespace at either end: [s.strip() == s]. *)
Definition trimmed (s : string) : Prop :=
  match chars s with
  | [] => True
  | c :: _ => isspace c = false
  end ∧
  match reverse (chars s) with
  | [] => True
  | c :: _ => isspace c = false
  end.

(** Text whose only whitespace is single spaces: what
    [re.sub(r"\s+", " ", s)] leaves. *)
Fixpoint single_spaced (l : list ascii) : Prop :=
  match l with
  | [] => True
  | c :: l' =>
      (isspace c = true →
       c = " "%char ∧
       match l' with c' :: _ => isspace c' = false | [] => True end) ∧
      single_spaced l'
  end.

(** [trimmed], on the characters. *)
Definition ends_nonspace (l : list ascii) : Prop :=
  match l with [] => True | c :: _ => isspace c = false end ∧
  match reverse l with [] => True | c :: _ => isspace c = false end.

(** The classes [[A-Za-z]] and [\d] of [re]; the latter on the 7-bit
    range, beyond which [\d] also has the decimal digits of other
    scripts. *)
Definition is_alpha (c : ascii) : bool :=
  let n := N_of_ascii c in
  ((65 <=? n) && (n <=? 90) || (97 <=? n) && (n <=? 122))%N.

Definition is_digit (c : ascii) : bool :=
  let n := N_of_ascii c in ((48 <=? n) && (n <=? 57))%N.

(** [s.title()]: a letter after a letter goes to lower case, any other
    letter to upper case. *)
Fixpoint title_go (prev_cased : bool) (l : list ascii) : list ascii :=
  match l with
  | [] => []
  | c :: l' =>
      if is_alpha c
      then (if prev_cased then tolower c else toupper c) :: title_go true l'
      else c :: title_go false l'
  end.

Definition title (s : string) : string := text (title_go false (chars s)).

(** A text of the 7-bit range: on such a text the definitions of this
    module are those of [str] and [re]. *)
Definition seven_bit (s : string) : Prop :=
  Forall (λ c, (N_of_ascii c < 128)%N) (chars s).

End PyStr.

(** [str(v)], as [Series.astype(str)] applies it to each cell. *)
Definition py_str (v : value) : string :=
  match v with
  | Str s => s
  | NaN => "nan"
  | PyNone => "None"
  | Num z => DecimalString.NilZero.string_of_int (Z.to_int z)
  end.

(** ** Frames: the fragment of pandas the scripts use *)

Module Frame.
Import PyStr.

(** A row pairs each column label with its cell, in column order. *)
Abbreviation row := (list (string * value)).

Record frame := mkFrame { columns : list string; rows : list row }.

(** [r.get(c)]: the cell under the first label [c], [None] without one. *)
Fixpoint get (c : string) (r : row) : value :=
  match r with
  | [] => PyNone
  | (k, v) :: r' => if bool_decide (k = c) then v else get c r'
  end.

(** [r[c] = v]: in place under an existing label, appended otherwise. *)
Fixpoint set (c : string) (v : value) (r : row) : row :=
  match r with
  | [] => [(c, v)]
  | (k, w) :: r' => if bool_decide (k = c) then (k, v) :: r' else (k, w) :: set c v r'
  end.

(** [df[c]] as the list of its cells. *)
Definition column (c : string) (df : frame) : list value :=
  get c <$> rows df.

(** [df[c] = df.apply(f, axis=1)], and with [f := λ r, g (get c' r)] also
    [df[c] = df[c'].apply(g)]. *)
Definition assign (c : string) (f : row → value) (df : frame) : frame :=
  {| columns := if bool_decide (c ∈ columns df) then columns df
                else columns df ++ [c];
     rows := (λ r, set c (f r) r) <$> rows df |}.

(** [df[cs]] for labels [cs] of [df]. *)
Definition select (cs : list string) (df : frame) : frame :=
  {| columns := cs;
     rows := (λ r, (λ c, (c, get c r)) <$> cs) <$> rows df |}.

(** [df.drop(columns=[c])] *)
Definition drop_column (c : string) (df : frame) : frame :=
  {| columns := filter (λ k, k ≠ c) (columns df);
     rows := filter (λ kv : string * value, kv.1 ≠ c) <$> rows df |}.

(** [df.rename(columns={old: new})] *)
Definition rename_column (old new : string) (df : frame) : frame :=
  let ren k := if bool_decide (k = old) then new else k in
  {| columns := ren <$> columns df;
     rows := (λ r : row, prod_map ren id <$> r) <$> rows df |}.

(** [df[mask]] for the row-wise predicate [keep]. *)
Definition where_ (keep : row → bool) (df : frame) : frame :=
  {| columns := columns df; rows := List.filter keep (rows df) |}.

(** [df.drop_duplicates(c)]: the first row of each value of column [c]
    stays ([keep="first"]); missing cells compare equal to each other.
    [seen] holds the values met so far. *)
Fixpoint drop_duplicates_go (c : string) (seen : list value) (rs : list row)
  : list row :=
  match rs with
  | [] => []
  | r :: rs' =>
      if bool_decide (get c r ∈ seen) then drop_duplicates_go c seen rs'
      else r :: drop_duplicates_go c (get c r :: seen) rs'
  end.

Definition drop_duplicates (c : string) (df : frame) : frame :=
  {| columns := columns df; rows := drop_duplicates_go c [] (rows df) |}.

(** The label a right-hand column gets in a merge with
    [suffixes=("", sfx)]: suffixed when the left frame has the label too. *)
Definition merged_label (left : frame) (sfx : string) (c : string) : string :=
  if bool_decide (c ∈ columns left) then c +:+ sfx else c.

(** The right-hand rows a left row [l] joins with, in their order. *)
Definition matches (right : frame) (left_on right_on : string) (l : row)
  : list row :=
  filter (λ r, get right_on r = get left_on l) (rows right).

(** [left.merge(right, how="left", left_on=.., right_on=..,
    suffixes=("", sfx))] for distinct key labels.  A left row comes out
    once per matching right row, in the order of the left frame, and once
    with missing right-hand cells when nothing matches.  Keys that are
    both missing match each other, as in pandas. *)
Definition merge_left (left right : frame) (left_on right_on sfx : string)
  : frame :=
  let lbl := merged_label left sfx in
  {| columns := columns left ++ (lbl <$> columns right);
     rows :=
       l ← rows left;
       match matches right left_on right_on l with
       | [] => [l ++ ((λ c, (lbl c, NaN)) <$> columns right)]
       | ms => (λ r : row, l ++ (prod_map lbl id <$> r)) <$> ms
       end |}.

(** [Series.str.split().str[0]]: the first whitespace-delimited token. *)
Definition first_token (v : value) : value :=
  match v with
  | Str s => match split s with t :: _ => Str t | [] => NaN end
  | _ => NaN
  end.

(** [Series.str.upper().str.replace(r"\s+", "", regex=True)] *)
Definition upper_compact (v : value) : value :=
  match v with
  | Str s => Str (remove_whitespace (upper s))
  | _ => NaN
  end.

(** [left.merge(right, how="left", left_on=on, right_on=on)]: the key
    column comes out once.  The frames share no other label. *)
Definition merge_on (left right : frame) (on : string) : frame :=
  let others := filter (λ c, c ≠ on) (columns right) in
  {| columns := columns left ++ others;
     rows :=
       l ← rows left;
       match matches right on on l with
       | [] => [l ++ ((λ c, (c, NaN)) <$> others)]
       | ms => (λ r : row, l ++ filter (λ kv : string * value, kv.1 ≠ on) r)
                 <$> ms
       end |}.

End Frame.

(** ** Header dictionaries *)

Module Headers.

(** [{key(c): c for c in cols}]: a later header replaces an earlier one
    with the same key. *)
Definition index_by (key : string → string) (cols : list string)
  : gmap string string :=
  foldl (λ m c, <[key c := c]> m) ∅ cols.

(** [for cand in candidates: if key(cand) in m: return m[key(cand)]],
    [None] after the loop. *)
Fixpoint first_hit (key : string → string) (m : gmap string string)
  (candidates : list string) : option string :=
  match candidates with
  | [] => None
  | cand :: rest =>
      match m !! key cand with
      | Some c => Some c
      | None => first_hit key m rest
      end
  end.

(** What a resolution by key amounts to, in terms of the two lists: the
    first candidate whose key is the key of some header decides, and the
    header taken is the last one with that key. *)
Definition last_with_key (key : string → string) (cols : list string)
  (k : string) : option string :=
  last (filter (λ c, key c = k) cols).

Definition resolve_by (key : string → string) (cols candidates : list string)
  : option string :=
  '(_, cand) ← list_find (λ cand, key cand ∈ key <$> cols) candidates;
  last_with_key key cols (key cand).

End Headers.

(** Exit statuses and log records shared by the scripts. *)
Inductive level := DEBUG | INFO | WARNING | ERROR.

Global Instance level_eq_dec : EqDecision level.
Proof. solve_decision. Defined.

(** A log record: its level and its format string. *)
Definition log_record := (level * string)%type.

Definition logs_error (log : list log_record) : Prop :=
  ∃ msg, (ERROR, msg) ∈ log.

(** What the operating system and the file system see of a run: the exit
    status, the log, and the table written, if any. *)
Record process (A : Type) := mkProcess {
  exit_code : Z;
  log : list log_record;
  written : option A
}.
Arguments mkProcess {A}.
Arguments exit_code {A}.
Arguments log {A}.
Arguments written {A}.

(** ** [Practiceinformation.py] *)

Module Practiceinformation.
Import PyStr Frame.

(** [format_uk_postcode(pc)] *)
Definition format_uk_postcode (pc : value) : value :=
  match pc with
  | Str p =>
      let s := remove_whitespace (upper p) in
      if bool_decide (5 ≤ len s)
      then Str (slice_to s (-3) +:+ " " +:+ slice_from s (-3))
      else Str s
  | _ => NaN
  end.

(** The characters [format_uk_postcode] keeps of a postcode, as a list:
    upper-cased, whitespace removed. *)
Definition compact_chars (l : list ascii) : list ascii :=
  filter nonspace (toupper <$> l).

(** [first_nonnull( *vals )]: an empty string is falsy, so [v.strip()]
    passes the test when it is not [""]. *)
Fixpoint first_nonnull (vals : list value) : value :=
  match vals with
  | [] => NaN
  | Str v :: vals' =>
      if bool_decide (strip v ≠ "") then Str (strip v)
      else first_nonnull vals'
  | _ :: vals' => first_nonnull vals'
  end.

(** The text of a value that is present, trimmed: a string whose trimmed
    form is not empty.  Anything else is absent.  ([isinstance(p, str) and
    p.strip()], then [p.strip()].) *)
Definition present (v : value) : option string :=
  match v with
  | Str s => if bool_decide (strip s ≠ "") then Some (strip s) else None
  | _ => None
  end.

(** What a coalesced cell may hold: the missing marker, or text that is
    not empty and has no whitespace at either end. *)
Definition clean (v : value) : Prop :=
  v = NaN ∨ ∃ s, v = Str s ∧ s ≠ "" ∧ trimmed s.

(** The key [pick_col] files a header under:
    [re.sub(r"\s+", " ", c.strip().lower())]. *)
Definition norm_header (c : string) : string :=
  collapse_whitespace (lower (strip c)).

(** [pick_col(df, candidates)] *)
Definition pick_col (df : frame) (candidates : list string) : option string :=
  let norm := Headers.index_by norm_header (columns df) in
  Headers.first_hit norm_header norm candidates.

(** [sep.join(parts)] *)
Fixpoint join (sep : string) (parts : list string) : string :=
  match parts with
  | [] => ""
  | [p] => p
  | p :: rest => p +:+ sep +:+ join sep rest
  end.

(** [build_address( *parts )] *)
Definition build_address (parts : list value) : value :=
  match omap present parts with
  | [] => NaN
  | cleaned => Str (strip (collapse_whitespace (join " " cleaned)))
  end.

(** A Python dictionary with string keys, in insertion order. *)
Abbreviation dict A := (list (string * A)).

(** [d.get(k)] *)
Fixpoint dict_get {A} (k : string) (d : dict A) : option A :=
  match d with
  | [] => None
  | (k', a) :: d' => if bool_decide (k' = k) then Some a else dict_get k d'
  end.

(** The truth value of a header-or-[None]. *)
Definition truthy (c : option string) : bool :=
  match c with
  | Some s => bool_decide (s ≠ "")
  | None => false
  end.

(** How [run] ends: it returns after writing [out_df], leaves through
    [raise SystemExit(code)], or lets another exception escape. *)
Inductive outcome :=
| Returned (out_df : frame)
| SystemExit (code : Z)
| Raised.

Definition want_map : dict (list string) :=
  [ ("PracticeCode", ["Organisation Code"; "Organization Code"; "Org Code";
                      "ODS Code"; "Practice Code"]);
    ("PracticeName", ["Name"; "Practice Name"]);
    ("Addr1", ["Address Line 1"; "Address1"; "Address Line1"]);
    ("Addr2", ["Address Line 2"; "Address2"; "Address Line2"]);
    ("Addr3", ["Address Line 3"; "Address3"; "Address Line3"]);
    ("Addr4", ["Address Line 4"; "Address4"; "Address Line4"]);
    ("Addr5", ["Address Line 5"; "Address5"; "Address Line5"; "Address Line"]);
    ("PostCode", ["Postcode"; "Post Code"; "Postal Code"; "PostCode"]);
    ("Status", ["Status"]);
    ("CountryName", ["CountryName"; "Country"; "Nation"]) ].

Definition required : list string :=
  ["PracticeCode"; "PracticeName"; "PostCode"; "Status"; "Addr1"].

Definition name_map : dict (list string) :=
  [ ("RegionCode", ["RegionCode"; "NHSER24CD"; "NHSER24CDH"; "REGION_CODE";
                    "REGIONCODE"]);
    ("RegionName", ["RegionName"; "NHSER24NM"; "REGION_NAME"; "REGIONNAME"]);
    ("ICBID", ["ICBID"; "ICB23CDH"; "ICB24CD"; "ICB_CODE"; "ICB Code";
               "ICBIDCODE"]);
    ("ICBName", ["ICBName"; "ICB23NM"; "ICB24NM"; "ICB_NAME"; "ICB Name"]);
    ("MSOAID", ["MSOAID"; "MSOA21CD"; "MSOA11CD"; "MSOACode"]);
    ("MSOAName", ["MSOAName"; "MSOA21NM"; "MSOA11NM"; "MSOANameText"]);
    ("LSOAID", ["LSOAID"; "LSOA21CD"; "LSOACode"]);
    ("LSOAName", ["LSOAName"; "LSOA21NM"; "LSOANameText"]);
    ("LSOA11ID", ["LSOA11ID"; "LSOA11CD"]);
    ("LSOA11Name", ["LSOA11Name"; "LSOA11NM"]);
    ("CountryName", ["CountryName"; "Country"; "Nation"]) ].

(** [{out: pick_col(df, cands) for out, cands in table.items()}] *)
Definition pick_all (df : frame) (table : dict (list string))
  : dict (option string) :=
  (λ '(out, cands), (out, pick_col df cands)) <$> table.

(** [cols[k]], for a key [k] of [want_map]. *)
Definition header_of (cols : dict (option string)) (k : string)
  : option string :=
  mjoin (dict_get k cols).

(** [[k for k in required if cols.get(k) is None]]; [cols] has every key
    of [required], so [cols.get(k)] is [None] when the header is. *)
Definition missing_required (cols : dict (option string)) : list string :=
  filter (λ k, header_of cols k = None) required.

(** The cell of [gp_raw[c].astype(str)] in one raw row. *)
Definition astype_str_cell (c : string) (r : row) : value :=
  Str (py_str (get c r)).

(** Lines 113-130: the frame [gp], its postcode normalised and its
    address built, cut down to [gp_core].  [col k] is
    [gp_raw[cols[k]].astype(str)], on a key whose header was found, and
    [col_or k v] is [gp_raw[cols[k]].astype(str) if cols[k] else v]. *)
Definition gp_core_row (cols : dict (option string)) (r : row) : row :=
  let col k := astype_str_cell (default "" (header_of cols k)) r in
  let col_or k otherwise :=
    if truthy (header_of cols k) then col k else otherwise in
  let postcode := format_uk_postcode (col "PostCode") in
  [ ("PracticeCode", col "PracticeCode");
    ("PracticeName", col "PracticeName");
    ("Address",
      build_address [col_or "Addr1" (Str ""); col_or "Addr2" (Str "");
                     col_or "Addr3" (Str ""); col_or "Addr4" (Str "");
                     col_or "Addr5" (Str ""); postcode]);
    ("PostCode", postcode);
    ("Status", col_or "Status" NaN) ].

Definition gp_core_columns : list string :=
  ["PracticeCode"; "PracticeName"; "Address"; "PostCode"; "Status"].

Definition gp_core_of (cols : dict (option string)) (gp_raw : frame) : frame :=
  {| columns := gp_core_columns; rows := gp_core_row cols <$> rows gp_raw |}.

(** Lines 143-150: the normalised postcode column and the outcode column
    of the mapping; the label of the latter comes back with the frame. *)
Definition with_postcode (PCD2_col : string) (mapping : frame) : frame :=
  assign "_PCD2_fmt" (λ r, format_uk_postcode (get PCD2_col r)) mapping.

Definition with_outcode (mapping : frame) : string * frame :=
  let OUTCODE_col := pick_col mapping ["Outcode"; "OUTCODE"; "outcode"] in
  if truthy OUTCODE_col
  then let c := default "" OUTCODE_col in
       (c, assign c (λ r, upper_compact (get c r)) mapping)
  else ("_Outcode",
        assign "_Outcode" (λ r, first_token (get "_PCD2_fmt" r)) mapping).

(** [[c for c in picked.values() if c]] *)
Definition keep_geo_cols (picked : dict (option string)) : list string :=
  omap (λ '(_, c), if truthy c then c else None) picked.

(** Lines 169-171 *)
Definition map_slim_of (picked : dict (option string)) (OUTCODE_col : string)
  (mapping : frame) : frame :=
  rename_column OUTCODE_col "_Outcode"
    (select ("_PCD2_fmt" :: OUTCODE_col :: keep_geo_cols picked) mapping).

(** Lines 175-181: the merge by full postcode. *)
Definition merge_by_postcode (gp_core map_slim : frame) : frame :=
  merge_left gp_core map_slim "PostCode" "_PCD2_fmt" "_map".

(** The outcode-indexed copy of the reference table (line 187). *)
Definition outcode_table (map_slim : frame) : frame :=
  drop_duplicates "_Outcode" (drop_column "_PCD2_fmt" map_slim).

(** Lines 185-192: the outcode fallback. *)
Definition outcode_fallback (m1 map_slim : frame) : frame :=
  merge_left
    (assign "_Outcode_gp" (λ r, first_token (get "PostCode" r)) m1)
    (outcode_table map_slim)
    "_Outcode_gp" "_Outcode" "_oc".

(** The two-pass merge, [m2] before the coalescing loop. *)
Definition two_pass_merge (gp_core map_slim : frame) : frame :=
  outcode_fallback (merge_by_postcode gp_core map_slim) map_slim.

(** A row [r] of a merge that holds the row [l] of its left frame: the
    cells of [l] under their labels, but for the helper label
    [_Outcode_gp], which the fallback sets. *)
Definition holds_row (l r : row) : Prop :=
  ∀ c, c ∈ l.*1 → c ≠ "_Outcode_gp" → get c r = get c l.

(** The cell one turn of the loop computes for a row, in a frame with the
    labels [labels]: the coalesced pair when the header was resolved and
    its [_oc] twin is a label, the postcode-side cell without the twin,
    the missing marker for an unresolved header. *)
Definition coalesced_cell (labels : list string) (col : option string)
  (r : row) : value :=
  if truthy col then
    let col_pc := default "" col in
    let col_oc := col_pc +:+ "_oc" in
    if bool_decide (col_oc ∈ labels)
    then first_nonnull [get col_pc r; get col_oc r]
    else get col_pc r
  else NaN.

(** One turn of the loop of lines 195-203. *)
Definition coalesce_step (m2 : frame) (item : string * option string) : frame :=
  let '(out_name, col) := item in
  if truthy col then
    let col_pc := default "" col in
    let col_oc := col_pc +:+ "_oc" in
    if bool_decide (col_oc ∈ columns m2)
    then assign out_name (λ r, first_nonnull [get col_pc r; get col_oc r]) m2
    else assign out_name (get col_pc) m2
  else assign out_name (λ _, NaN) m2.

Definition coalesce (picked : dict (option string)) (m2 : frame) : frame :=
  foldl coalesce_step m2 picked.

(** Lines 206-213: the England filter. *)
Definition is_england (r : row) : bool :=
  bool_decide (upper (strip (py_str (get "CountryName" r))) = "ENGLAND").

Definition final_cols : list string :=
  [ "PracticeCode"; "PracticeName"; "Address"; "PostCode"; "Status";
    "RegionCode"; "RegionName"; "ICBID"; "ICBName"; "MSOAID"; "MSOAName";
    "LSOAID"; "LSOAName"; "LSOA11ID"; "LSOA11Name"; "CountryName" ].

Definition pick_postcode_column (mapping : frame) : option string :=
  pick_col mapping ["PCD2"; "Postcode"; "PCD"; "PCD7"; "pcd2"].

(** Lines 143-171: the resolved geography headers [picked] and the
    reference table [map_slim], for a mapping whose postcode column is
    [PCD2_col]. *)
Definition prepare_mapping (PCD2_col : string) (mapping : frame)
  : dict (option string) * frame :=
  let '(OUTCODE_col, mapping) := with_outcode (with_postcode PCD2_col mapping) in
  let picked := pick_all mapping name_map in
  (picked, map_slim_of picked OUTCODE_col mapping).

(** Lines 175-203: [m2] after the coalescing loop. *)
Definition merged (gp_core mapping : frame) (PCD2_col : string) : frame :=
  let '(picked, map_slim) := prepare_mapping PCD2_col mapping in
  coalesce picked (two_pass_merge gp_core map_slim).

(** Lines 206-213 *)
Definition england_filter (picked : dict (option string)) (m2 : frame)
  : list log_record * frame :=
  if truthy (header_of picked "CountryName")
  then ([], where_ is_england m2)
  else ([(WARNING,
          "CountryName not found in mapping; no country filter applied.")],
        m2).

(** Lines 216-225 *)
Definition out_df_of (m2_eng : frame) : frame :=
  select (filter (λ c, c ∈ columns m2_eng) final_cols) m2_eng.

(** The [dtype] of a column that [Series.apply] builds (line 143): pandas
    infers [float64] when the frame has rows and no cell of the column
    holds a text, and [object] otherwise. *)
Definition float_column (c : string) (df : frame) : bool :=
  bool_decide (rows df ≠ [] ∧ Forall (λ r, is_str (get c r) = false) (rows df)).

(** The exception [run] meets when [_PCD2_fmt] is such a column, that is
    when the mapping has rows and no postcode.  Without an outcode header
    [.str] of line 147 raises [AttributeError]; with one, the merge of
    lines 175-181 raises [ValueError] on the text key [PostCode] and the
    numeric key [_PCD2_fmt], unless [gp_core] has no row. *)
Definition postcode_column_raises (gp_core mapping : frame) (PCD2_col : string)
  : bool :=
  let mapping := with_postcode PCD2_col mapping in
  float_column "_PCD2_fmt" mapping &&
  (negb (truthy (pick_col mapping ["Outcode"; "OUTCODE"; "outcode"]))
   || bool_decide (rows gp_core ≠ [])).

(** [run(gp_file, map_file, out_file, logger)].  A file is [None] when
    [pd.read_csv] raises on it; the records of level [WARNING] and above
    are kept; writing the output is taken to succeed. *)
Definition run (gp_file map_file : option frame) : list log_record * outcome :=
  match gp_file with
  | None => ([], Raised)
  | Some gp_raw =>
      let cols := pick_all gp_raw want_map in
      match missing_required cols with
      | _ :: _ =>
          ([ (ERROR, "Missing required columns in GP.csv for: %s");
             (ERROR, "Column mapping: %s") ], SystemExit 2)
      | [] =>
          let gp_core := gp_core_of cols gp_raw in
          match map_file with
          | None => ([], Raised)
          | Some mapping =>
              let PCD2_col := pick_postcode_column mapping in
              if truthy PCD2_col then
                let c := default "" PCD2_col in
                if postcode_column_raises gp_core mapping c then ([], Raised)
                else
                  let picked := (prepare_mapping c mapping).1 in
                  let '(log, m2_eng) :=
                    england_filter picked (merged gp_core mapping c) in
                  (log, Returned (out_df_of m2_eng))
              else
                ([ (ERROR,
                    "Could not find a postcode column (PCD2/Postcode) in mapping.") ],
                 SystemExit 3)
          end
      end
  end.

(** [main()]: [SystemExit] is no [Exception], so it passes the [except]
    clause with its own code; any other exception is logged and turned
    into [sys.exit(1)]. *)
Definition main (gp_file map_file : option frame) : process frame :=
  match run gp_file map_file with
  | (log, Returned out_df) => mkProcess 0 log (Some out_df)
  | (log, SystemExit code) => mkProcess code log None
  | (log, Raised) => mkProcess 1 (log ++ [(ERROR, "Failed: %s")]) None
  end.

(** A worked example: three practices, and a mapping in which two rows
    share the outcode [SW1A] and two the outcode [AB1].  The first practice
    matches the second row by postcode and the first row by outcode. *)
Definition example_gp : frame :=
  {| columns := ["Organisation Code"; "Name"; "Address Line 1"; "Postcode";
                 "Status"];
     rows :=
       [ [("Organisation Code", Str "A1"); ("Name", Str "One");
          ("Address Line 1", Str "1 High St"); ("Postcode", Str "sw1a 1aa");
          ("Status", Str "Active")];
         [("Organisation Code", Str "A2"); ("Name", Str "Two");
          ("Address Line 1", Str "2 Mill Rd"); ("Postcode", Str "AB12CD");
          ("Status", Str "Active")];
         [("Organisation Code", Str "A3"); ("Name", Str "Three");
          ("Address Line 1", Str "3 Low St"); ("Postcode", Str "ZZ9 9ZZ");
          ("Status", Str "Closed")] ] |}.

Definition example_mapping : frame :=
  {| columns := ["PCD2"; "RegionName"; "Country"];
     rows :=
       [ [("PCD2", Str "SW1A 2BB"); ("RegionName", Str "Westminster");
          ("Country", Str "England")];
         [("PCD2", Str "SW1A1AA"); ("RegionName", Str " London ");
          ("Country", Str "England")];
         [("PCD2", Str "AB1 9ZZ"); ("RegionName", Str "North");
          ("Country", Str "england ")];
         [("PCD2", Str "AB1 8ZZ"); ("RegionName", Str "South");
          ("Country", Str "Wales")] ] |}.

Definition example_gp_core : frame :=
  gp_core_of (pick_all example_gp want_map) example_gp.

Definition example_map_slim : frame :=
  (prepare_mapping "PCD2" example_mapping).2.

End Practiceinformation.

(** ** [HealthDepriviation_2019.py] *)

Module HealthDepriviation_2019.
Import PyStr Frame.

Definition COL_CANDIDATES : list (string * list string) :=
  [ ("LSOA_Code", ["LSOA code (2011)"; "LSOA code"; "LSOA Code (2011)";
                   "LSOA Code"]);
    ("Health_Score", ["Health Deprivation and Disability Score";
                      "Health Deprivation & Disability Score";
                      "Health Deprivation/Disability Score"]);
    ("Health_Rank",
      ["Health Deprivation and Disability Rank (where 1 is most deprived)";
       "Health Deprivation & Disability Rank (where 1 is most deprived)";
       "Health Deprivation/Disability Rank (where 1 is most deprived)"]);
    ("Health_Decile",
      ["Health Deprivation and Disability Decile (where 1 is most deprived 10% of LSOAs)";
       "Health Deprivation & Disability Decile (where 1 is most deprived 10% of LSOAs)";
       "Health Deprivation/Disability Decile (where 1 is most deprived 10% of LSOAs)"]) ].

(** The key of [lower_map]: [col.lower().strip()]. *)
Definition lower_key (col : string) : string := strip (lower col).

(** [find_column(df, candidates)] *)
Definition find_column (df : frame) (candidates : list string) : option string :=
  let actual_cols := columns df in
  match list_find (λ candidate, candidate ∈ actual_cols) candidates with
  | Some (_, candidate) => Some candidate
  | None =>
      let lower_map := Headers.index_by lower_key actual_cols in
      Headers.first_hit lower_key lower_map candidates
  end.

(** [df.rename(columns=lambda c: c.strip())] *)
Definition strip_headers (df : frame) : frame :=
  {| columns := strip <$> columns df;
     rows := (λ r : row, prod_map strip id <$> r) <$> rows df |}.

(** One turn of the loop of lines 112-119, on the headers resolved so far
    and the error records: one more of either. *)
Definition resolve_step (df : frame)
  (state : list (string * string) * list log_record)
  (item : string * list string) : list (string * string) * list log_record :=
  let '(resolved_cols, log) := state in
  let '(target, candidates) := item in
  match find_column df candidates with
  | Some found_col =>
      if bool_decide (found_col ≠ "")
      then (resolved_cols ++ [(target, found_col)], log)
      else (resolved_cols,
            log ++ [(ERROR, "Could not find a source column for target '%s'.")])
  | None =>
      (resolved_cols,
       log ++ [(ERROR, "Could not find a source column for target '%s'.")])
  end.

Definition resolve (df : frame)
  : list (string * string) * list log_record :=
  foldl (resolve_step df) ([], []) COL_CANDIDATES.

(** [df[[...]]] with the columns renamed to their targets. *)
Definition final_df_of (resolved_cols : list (string * string)) (df : frame)
  : frame :=
  {| columns := resolved_cols.*1;
     rows := (λ r, (λ '(target, c), (target, get c r)) <$> resolved_cols)
               <$> rows df |}.

(** What a call of [pd.read_csv] on [INPUT_FILE] does: it returns a
    frame, or raises [UnicodeDecodeError], or raises another exception. *)
Inductive reading :=
| Read (df : frame)
| UnicodeDecodeError
| ReadError.

(** [INPUT_FILE] as the two reads of [main] find it: the read of line 100
    and the read with [encoding="latin1"] of line 104. *)
Record input_file := mkInput { utf8 : reading; latin1 : reading }.

(** Lines 99-104: the frame read, [None] when an exception escapes, and
    the warning logged when the first read fails to decode. *)
Definition load (file : input_file) : list log_record * option frame :=
  match utf8 file with
  | Read df => ([], Some df)
  | UnicodeDecodeError =>
      ([(WARNING, "UTF-8 decoding failed. Trying latin1 encoding.")],
       match latin1 file with
       | Read df => Some df
       | _ => None
       end)
  | ReadError => ([], None)
  end.

(** A label that heads exactly one column of [df]. *)
Definition heads_one (df : frame) (c : string) : Prop :=
  length (filter (λ k, k = c) (columns df)) = 1.

Global Instance heads_one_dec df c : Decision (heads_one df c).
Proof. unfold heads_one. apply _. Defined.

(** [main()], on the input file ([None] when it does not exist).  The
    function has no [sys.exit] and ends in a plain return, with status 0,
    unless an exception that nothing catches ends the process with status
    1: a read that raises, or line 130, which raises [ValueError] when
    the selection of lines 123-128 has more than four columns because a
    resolved header heads two columns of the file once stripped. *)
Definition main (input : option input_file) : process frame :=
  match input with
  | None => mkProcess 0 [(ERROR, "Input file not found: %s")] None
  | Some file =>
      match load file with
      | (warnings, None) => mkProcess 1 warnings None
      | (warnings, Some df) =>
          let df := strip_headers df in
          let '(resolved_cols, log) := resolve df in
          match log with
          | [] =>
              if bool_decide (Forall (heads_one df) resolved_cols.*2)
              then mkProcess 0 warnings (Some (final_df_of resolved_cols df))
              else mkProcess 1 warnings None
          | _ => mkProcess 0 (warnings ++ log) None
          end
      end
  end.

(** [not found_col], for what [find_column] gave for the candidates of
    [item]: nothing, or the empty header. *)
Definition unresolved (df : frame) (item : string * list string) : Prop :=
  find_column df item.2 = None ∨ find_column df item.2 = Some "".

Global Instance unresolved_dec df item : Decision (unresolved df item).
Proof. unfold unresolved. apply _. Defined.

(** A deprivation file whose headers resolve: one with a space in front,
    one in another case. *)
Definition example_imd : frame :=
  {| columns :=
       [" LSOA code (2011)"; "Local Authority District name (2019)";
        "Health Deprivation and Disability Score";
        "health deprivation and disability rank (where 1 is most deprived)";
        "Health Deprivation and Disability Decile (where 1 is most deprived 10% of LSOAs)"];
     rows :=
       [ [(" LSOA code (2011)", Str "E01000001");
          ("Local Authority District name (2019)", Str "City of London");
          ("Health Deprivation and Disability Score", Str "-1.654");
          ("health deprivation and disability rank (where 1 is most deprived)",
           Str "32113");
          ("Health Deprivation and Disability Decile (where 1 is most deprived 10% of LSOAs)",
           Str "10")] ] |}.

End HealthDepriviation_2019.

(** ** Numbers read from text *)

Module Numeric.
Import PyStr.

(** The value of a signed 64-bit integer after overflow. *)
Definition wrap64 (z : Z) : Z :=
  ((z + 2 ^ 63) mod 2 ^ 64 - 2 ^ 63)%Z.

Definition digit_of (c : ascii) : option Z :=
  let n := N_of_ascii c in
  if ((48 <=? n) && (n <=? 57))%N then Some (Z.of_N n - 48)%Z else None.

Fixpoint digits_value (acc : Z) (l : list ascii) : option Z :=
  match l with
  | [] => Some acc
  | c :: l' => d ← digit_of c; digits_value (10 * acc + d)%Z l'
  end.

(** A reader of decimal integer literals, an optional sign and at least
    one digit.  It is the instance the examples use for the scalar reader
    of [pd.to_numeric]: the two agree on such literals, and on text that
    is a number in no notation. *)
Definition decimal_literal (s : string) : option Z :=
  match chars s with
  | [] => None
  | "-"%char :: (_ :: _) as ds => Z.opp <$> digits_value 0 ds
  | "+"%char :: (_ :: _) as ds => digits_value 0 ds
  | ds => digits_value 0 ds
  end.

Definition month_number (m : string) : option string :=
  match m with
  | "Jan" => Some "01" | "Feb" => Some "02" | "Mar" => Some "03"
  | "Apr" => Some "04" | "May" => Some "05" | "Jun" => Some "06"
  | "Jul" => Some "07" | "Aug" => Some "08" | "Sep" => Some "09"
  | "Oct" => Some "10" | "Nov" => Some "11" | "Dec" => Some "12"
  | _ => None
  end.

(** A reader of dates laid out as [DATE_FMT], ["%d-%b-%y"], giving
    ["%Y%m"]; days up to 28, which every month has.  It is the instance
    the examples use for [pd.to_datetime]; two-digit years up to 68 are
    of this century. *)
Definition yearmonth_of_date (s : string) : option string :=
  match chars s with
  | [d1; d2; "-"%char; m1; m2; m3; "-"%char; y1; y2] =>
      dd ← digits_value 0 [d1; d2];
      yy ← digits_value 0 [y1; y2];
      mm ← month_number (text [m1; m2; m3]);
      if bool_decide (1 ≤ dd ≤ 28)%Z
      then Some ((if bool_decide (yy ≤ 68)%Z then "20" else "19")
                 +:+ text [y1; y2] +:+ mm)
      else None
  | _ => None
  end.

End Numeric.

(** ** [gppatientregister.py] *)

Module gppatientregister.
Import PyStr Numeric.

(** A row of a monthly file, reduced to [USECOLS]. *)
Record raw_record := mkRaw {
  EXTRACT_DATE : value;
  CODE : value;
  NUMBER_OF_PATIENTS : value
}.

(** A row after [read_one_csv], and of the aggregate. *)
Record record := mkRecord {
  YearMonth : string;
  PracticeCode : value;
  NumberOfPatients : Z
}.

Global Instance record_eq_dec : EqDecision record.
Proof. solve_decision. Defined.

Inductive exn := FileNotFoundError | ValueError | ReadError.

Inductive result (A : Type) :=
| Ok (a : A)
| Raise (e : exn).
Arguments Ok {A}.
Arguments Raise {A}.

(** The order of [sort_values(["YearMonth", "PracticeCode"])] on the keys
    of the groups: by [YearMonth], then by [PracticeCode], each by code
    point. *)
Definition key_le (a b : string * string) : Prop :=
  (a.1 ≠ b.1 ∧ String.le a.1 b.1) ∨ (a.1 = b.1 ∧ String.le a.2 b.2).

Global Instance key_le_dec : RelDecision key_le.
Proof. intros a b. unfold key_le. apply _. Defined.

Definition group_le (a b : string * string * Z) : Prop := key_le a.1 b.1.

Global Instance group_le_dec : RelDecision group_le.
Proof. intros a b. unfold group_le. apply _. Defined.

(** The group a row falls in; a row whose [PracticeCode] is missing falls
    in none ([dropna=True], the default of [groupby]). *)
Definition group_key (r : record) : option (string * string) :=
  match PracticeCode r with
  | Str code => Some (YearMonth r, code)
  | _ => None
  end.

(** One row added to the running sums, kept as [int64]. *)
Definition add_row (sums : gmap (string * string) Z) (r : record)
  : gmap (string * string) Z :=
  match group_key r with
  | Some k => <[k := wrap64 (default 0%Z (sums !! k) + NumberOfPatients r)]> sums
  | None => sums
  end.

(** [combined.groupby(["YearMonth", "PracticeCode"], as_index=False,
    sort=True).agg(NumberOfPatients=("NumberOfPatients", "sum"))
    .sort_values(["YearMonth", "PracticeCode"]).reset_index(drop=True)] *)
Definition groupby_sum (combined : list record) : list record :=
  let groups := merge_sort group_le (map_to_list (foldl add_row ∅ combined)) in
  (λ '(k, n), mkRecord k.1 (Str k.2) n) <$> merge_sort group_le groups.

(** The groups behind the records of [groupby_sum]. *)
Definition sorted_groups (combined : list record) : list (string * string * Z) :=
  merge_sort group_le
    (merge_sort group_le (map_to_list (foldl add_row ∅ combined))).

(** The keys of the groups of [combined], and the total of one group. *)
Definition group_keys (combined : list record) : list (string * string) :=
  omap group_key combined.

Definition group_total (k : string * string) (combined : list record) : Z :=
  foldr Z.add 0%Z
    (NumberOfPatients <$> filter (λ r, group_key r = Some k) combined).

(** The record of a group. *)
Definition record_of (g : string * string * Z) : record :=
  mkRecord g.1.1 (Str g.1.2) g.2.

(** [s.replace(",", "")] *)
Definition remove_commas (s : string) : string :=
  text (filter (λ c, c ≠ ","%char) (chars s)).

(** All the results, or the first exception. *)
Fixpoint all_ok {A} (l : list (option A)) : result (list A) :=
  match l with
  | [] => Ok []
  | None :: _ => Raise ValueError
  | Some a :: l' =>
      match all_ok l' with
      | Ok l'' => Ok (a :: l'')
      | Raise e => Raise e
      end
  end.

Section Readers.

(** The scalar readers of pandas: [to_datetime] gives the ["%Y%m"] form of
    the date it reads in a text, [None] when every format fails;
    [to_numeric] gives the [int64] a text is read as, [None] when
    [pd.to_numeric(errors="raise").astype("int64")] raises on it. *)
Variable to_datetime : string → option string.
Variable to_numeric : string → option Z.

(** [parse_yearmonth(date_series)] *)
Definition parse_yearmonth (date_series : list value) : result (list string) :=
  all_ok ((λ v, to_datetime (strip (py_str v))) <$> date_series).

(** The text [to_int] hands to [pd.to_numeric]. *)
Definition cleaned (v : value) : string :=
  strip (remove_commas (py_str v)).

(** [to_int(series)] *)
Definition to_int (series : list value) : result (list Z) :=
  all_ok ((λ v, to_numeric (cleaned v)) <$> series).

(** A row of a monthly file and the record [read_one_csv] makes of it. *)
Definition reads (raw : raw_record) (rec : record) : Prop :=
  to_datetime (strip (py_str (EXTRACT_DATE raw))) = Some (YearMonth rec) ∧
  PracticeCode rec = CODE raw ∧
  to_numeric (cleaned (NUMBER_OF_PATIENTS raw)) = Some (NumberOfPatients rec).

(** [read_one_csv(path)]; the file is [None] when [pd.read_csv] raises. *)
Definition read_one_csv (file : option (list raw_record)) : result (list record) :=
  match file with
  | None => Raise ReadError
  | Some df =>
      match parse_yearmonth (EXTRACT_DATE <$> df) with
      | Raise e => Raise e
      | Ok yms =>
          match to_int (NUMBER_OF_PATIENTS <$> df) with
          | Raise e => Raise e
          | Ok ns =>
              Ok (zip_with (λ '(ym, code) n, mkRecord ym code n)
                    (zip yms (CODE <$> df)) ns)
          end
      end
  end.

(** The loop of [aggregate_all]: the parts read, or the exception of the
    first file that fails, logged and raised again. *)
Fixpoint read_all (files : list (option (list raw_record)))
  : list log_record * result (list (list record)) :=
  match files with
  | [] => ([], Ok [])
  | f :: files' =>
      match read_one_csv f with
      | Raise e => ([(ERROR, "Failed to process %s: %s")], Raise e)
      | Ok part =>
          match read_all files' with
          | (log, Ok parts) => (log, Ok (part :: parts))
          | (log, Raise e) => (log, Raise e)
          end
      end
  end.

(** [aggregate_all(files)]; [pd.concat] raises on an empty list. *)
Definition aggregate_all (files : list (option (list raw_record)))
  : list log_record * result (list record) :=
  match read_all files with
  | (log, Raise e) => (log, Raise e)
  | (log, Ok []) => (log, Raise ValueError)
  | (log, Ok parts) => (log, Ok (groupby_sum (concat parts)))
  end.

(** [main()], on the monthly files found.  An exception that escapes
    ends the process with status 1 before anything is written. *)
Definition main (files : list (option (list raw_record)))
  : process (list record) :=
  match files with
  | [] => mkProcess 1 [] None
  | _ =>
      match aggregate_all files with
      | (log, Raise _) => mkProcess 1 log None
      | (log, Ok agg) => mkProcess 0 log (Some agg)
      end
  end.

End Readers.

(** The rows of the example of the specification; a file with two values
    that are no numbers, the missing cell [pd.read_csv] makes of [N/A] and
    a text it leaves alone; and a file with a row without practice code. *)
Definition example_file : list raw_record :=
  [ mkRaw (Str "01-Sep-23") (Str "A001") (Str "1,200");
    mkRaw (Str "01-Sep-23") (Str "A001") (Str "300") ].

Definition example_file_not_a_number : list raw_record :=
  [ mkRaw (Str "01-Sep-23") (Str "A001") NaN;
    mkRaw (Str "01-Sep-23") (Str "B002") (Str "unknown") ].

Definition example_file_no_code : list raw_record :=
  [ mkRaw (Str "01-Sep-23") NaN (Str "5") ].

End gppatientregister.

(** ** [gpcountwithage.py]: the numeric conversion of [main] *)

Module gpcountwithage.
Import PyStr Frame.

Section Readers.

Variable to_numeric : string → option Z.

(** [pd.to_numeric(df[col], errors='coerce').fillna(0).astype(int)] on
    one cell: what does not read as a number counts for 0. *)
Definition to_count (v : value) : Z :=
  match v with
  | Str s => default 0%Z (to_numeric s)
  | Num z => z
  | _ => 0%Z
  end.

(** Lines 133-134 *)
Definition convert_age_cols (age_cols : list string) (df : frame) : frame :=
  foldl (λ df col, assign col (λ r, Num (to_count (get col r))) df) df age_cols.

Definition cell_number (v : value) : Z :=
  match v with Num z => z | _ => 0%Z end.

(** Line 136: [df['TotalGP'] = df[age_cols].sum(axis=1)] *)
Definition with_total (age_cols : list string) (df : frame) : frame :=
  assign "TotalGP"
    (λ r, Num (foldr Z.add 0%Z ((λ col, cell_number (get col r)) <$> age_cols)))
    df.

Definition convert (age_cols : list string) (df : frame) : frame :=
  with_total age_cols (convert_age_cols age_cols df).

End Readers.

(** A workforce file with headcounts that are no numbers: the missing
    cell [pd.read_csv] makes of [N/A], and a text it leaves alone. *)
Definition example_workforce : frame :=
  {| columns := ["PRAC_CODE"; "TOTAL_GP_HC_U25"; "TOTAL_GP_HC_25_29"];
     rows := [ [("PRAC_CODE", Str "A001"); ("TOTAL_GP_HC_U25", NaN);
                ("TOTAL_GP_HC_25_29", Str "3")];
               [("PRAC_CODE", Str "B002"); ("TOTAL_GP_HC_U25", Str "unknown");
                ("TOTAL_GP_HC_25_29", Str "4")] ] |}.

(** ** [gpcountwithage.py]: [_extract_year_month_from_filename] *)

(** [\s(\d{4})] at the head of [l]: the four digits of the group. *)
Definition space_year (l : list ascii) : option (list ascii) :=
  match l with
  | s :: d1 :: d2 :: d3 :: d4 :: _ =>
      if isspace s && is_digit d1 && is_digit d2 && is_digit d3 && is_digit d4
      then Some [d1; d2; d3; d4] else None
  | _ => None
  end.

(** The rest of the pattern once the group [[A-Za-z]+] has taken [word]
    (reversed): the group needs one letter at least. *)
Definition after_word (word l : list ascii)
  : option (list ascii * list ascii) :=
  match word with
  | [] => None
  | _ => year ← space_year l; Some (reverse word, year)
  end.

(** [([A-Za-z]+)\s(\d{4})] at the head of [l], with the letters [word]
    (reversed) taken so far: the greedy group takes one more letter when
    there is one, and gives it back when the rest does not match. *)
Fixpoint match_here (word l : list ascii) : option (list ascii * list ascii) :=
  match l with
  | [] => after_word word l
  | c :: l' =>
      if is_alpha c
      then match match_here (c :: word) l' with
           | Some m => Some m
           | None => after_word word l
           end
      else after_word word l
  end.

(** [re.search(r'([A-Za-z]+)\s(\d{4})', filename)]: the groups of the
    match at the first position that has one. *)
Fixpoint search (l : list ascii) : option (list ascii * list ascii) :=
  match match_here [] l with
  | Some m => Some m
  | None => match l with [] => None | _ :: l' => search l' end
  end.

Definition month_map : list (string * string) :=
  [ ("January", "01"); ("February", "02"); ("March", "03"); ("April", "04");
    ("May", "05"); ("June", "06"); ("July", "07"); ("August", "08");
    ("September", "09"); ("October", "10"); ("November", "11");
    ("December", "12") ].

(** [_extract_year_month_from_filename(filename)], with the warning it
    logs when it gives up. *)
Definition _extract_year_month_from_filename (filename : string)
  : list log_record * option string :=
  let warning := (WARNING, "Could not extract YearMonth from filename: %s") in
  match search (chars filename) with
  | Some (month_name, year) =>
      match Practiceinformation.dict_get (title (text month_name)) month_map with
      | Some month_num =>
          if bool_decide (month_num ≠ "")
          then ([], Some (text year +:+ month_num))
          else ([warning], None)
      | None => ([warning], None)
      end
  | None => ([warning], None)
  end.

(** ** [gpcountwithage.py]: [_read_csv] and the loop of [main] *)

(** [sub in s] *)
Fixpoint contains_go (sub l : list ascii) : bool :=
  bool_decide (sub `prefix_of` l)
  || match l with [] => false | _ :: l' => contains_go sub l' end.

Definition contains (sub s : string) : bool := contains_go (chars sub) (chars s).

(** [s.startswith(p)] *)
Definition startswith (p s : string) : bool :=
  bool_decide (chars p `prefix_of` chars s).

(** [s.replace(old, new)] for a non-empty [old]: the occurrences are
    taken from the left and do not overlap.  [skip] counts the characters
    of an occurrence still to pass over. *)
Fixpoint replace_go (old new : list ascii) (skip : nat) (l : list ascii)
  : list ascii :=
  match l with
  | [] => []
  | c :: l' =>
      match skip with
      | S skip' => replace_go old new skip' l'
      | O =>
          if bool_decide (old `prefix_of` l)
          then new ++ replace_go old new (length old - 1) l'
          else c :: replace_go old new 0 l'
      end
  end.

Definition replace (old new s : string) : string :=
  text (replace_go (chars old) (chars new) 0 (chars s)).

(** Line 142 *)
Definition clean_name (col : string) : string :=
  replace "UNKNOWN" "Unknown"
    (replace "75OV" "75+"
       (replace "U25" "<25"
          (replace "_" "-" (replace "TOTAL_GP_HC_" "" col)))).

(** A file of [SRC_BASE.glob("*.csv")] as the loop finds it: its name;
    the headers the read of line 106 gives, [None] when it raises;
    whether the path exists when [_read_csv] tests it; and what
    [pd.read_csv] gives for the columns [usecols], [None] when it
    raises. *)
Record source_file := mkSource {
  name : string;
  header : option (list string);
  present : bool;
  read_csv : list string → option frame
}.

(** [s.str.strip()] on a cell *)
Definition strip_cell (v : value) : value :=
  match v with Str s => Str (strip s) | _ => v end.

(** Lines 59-62: the headers and the cells of a frame trimmed. *)
Definition stripped (df : frame) : frame :=
  {| columns := strip <$> columns df;
     rows := (λ r : row, prod_map strip strip_cell <$> r) <$> rows df |}.

(** [_read_csv(path, usecols)]: the frame, or [None] for an exception
    that it raises. *)
Definition _read_csv (file : source_file) (usecols : list string)
  : list log_record * option frame :=
  if present file then ([], stripped <$> read_csv file usecols)
  else ([(ERROR, "Missing file: %s")], None).

(** Lines 114-118: the first header with [PRAC] and [CODE] in its upper
    case. *)
Definition practice_column (actual_columns : list string) : option string :=
  head (List.filter (λ col, contains "PRAC" (upper col)
                            && contains "CODE" (upper col)) actual_columns).

(** [df.rename(columns=rename_map)]: the entry of an age column is put in
    the dictionary after that of the practice column. *)
Definition renamed (practice_col_name : string) (age_cols : list string)
  (c : string) : string :=
  if bool_decide (c ∈ age_cols) then clean_name c
  else if bool_decide (c = practice_col_name) then "PracticeCode"
  else c.

Definition rename_columns (practice_col_name : string) (age_cols : list string)
  (df : frame) : frame :=
  {| columns := renamed practice_col_name age_cols <$> columns df;
     rows := (λ r : row, prod_map (renamed practice_col_name age_cols) id <$> r)
               <$> rows df |}.

(** How one turn of the loop of [main] ends: the file is skipped, a frame
    is appended to [all_data], or an exception escapes. *)
Inductive turn :=
| Skipped
| Appended (df : frame)
| Escaped.

(** How lines 86-150 of [main] end: the process has ended, or [all_data]
    goes on to lines 152-164, which combine the frames and write the
    result. *)
Inductive progress :=
| Ended (p : process frame)
| Combines (log : list log_record) (all_data : list frame).

Section Loop.

Variable to_numeric : string → option Z.

(** Lines 99-146, one turn of the loop. *)
Definition process_file (file : source_file) : list log_record * turn :=
  let '(log, year_month) := _extract_year_month_from_filename (name file) in
  match year_month with
  | None => (log, Skipped)
  | Some year_month =>
      if bool_decide (year_month = "") then (log, Skipped)
      else
        match header file with
        | None =>
            (log ++ [(ERROR, "Could not read columns from %s. Error: %s")],
             Skipped)
        | Some actual_columns =>
            let actual_columns := strip <$> actual_columns in
            match practice_column actual_columns with
            | None =>
                (log ++ [(WARNING,
                          "File %s is missing a recognizable practice code column. Skipping.")],
                 Skipped)
            | Some practice_col_name =>
                let age_cols_in_this_file :=
                  List.filter (startswith "TOTAL_GP_HC_") actual_columns in
                match age_cols_in_this_file with
                | [] =>
                    (log ++ [(WARNING,
                              "No GP age headcount columns (e.g., TOTAL_GP_HC_...) found in %s. Skipping.")],
                     Skipped)
                | _ =>
                    let cols_to_load := practice_col_name :: age_cols_in_this_file in
                    match _read_csv file cols_to_load with
                    | (log', None) => (log ++ log', Escaped)
                    | (log', Some df) =>
                        let df := convert to_numeric age_cols_in_this_file df in
                        let df := assign "YearMonth" (λ _, Str year_month) df in
                        (log ++ log',
                         Appended (rename_columns practice_col_name
                                     age_cols_in_this_file df))
                    end
                end
            end
        end
  end.

(** The loop of lines 98-146: the records logged and [all_data], [None]
    when an exception escapes. *)
Fixpoint gather (source_files : list source_file)
  : list log_record * option (list frame) :=
  match source_files with
  | [] => ([], Some [])
  | file :: source_files' =>
      match process_file file with
      | (log, Escaped) => (log, None)
      | (log, Skipped) =>
          let '(log', all_data) := gather source_files' in
          (log ++ log', all_data)
      | (log, Appended df) =>
          let '(log', all_data) := gather source_files' in
          (log ++ log', cons df <$> all_data)
      end
  end.

(** [main()] up to line 150.  The two early returns end the process with
    status 0; an exception that escapes the loop ends it with status 1. *)
Definition main (source_files : list source_file) : progress :=
  match source_files with
  | [] =>
      Ended (mkProcess 0 [(ERROR, "No CSV files found in directory: %s")] None)
  | _ =>
      match gather source_files with
      | (log, None) => Ended (mkProcess 1 log None)
      | (log, Some []) =>
          Ended (mkProcess 0
                   (log ++ [(ERROR,
                             "No data was successfully processed from any file.")])
                   None)
      | (log, Some all_data) => Combines log all_data
      end
  end.

End Loop.


End gpcountwithage.

(** ** [income.py] *)

Module income.
Import PyStr.

(** The class [[0-9a-z]], and the class [\w] of [re]. *)
Definition is_lower_alnum (c : ascii) : bool :=
  let n := N_of_ascii c in
  ((48 <=? n) && (n <=? 57) || (97 <=? n) && (n <=? 122))%N.

Definition is_word (c : ascii) : bool :=
  is_alpha c || is_digit c || bool_decide (c = "_"%char).

(** [re.sub(cls + "+", "_", s)]: every maximal run of characters of the
    class becomes one underscore.  [in_run] tells that the previous
    character was of the class. *)
Fixpoint squeeze_go (cls : ascii → bool) (in_run : bool) (l : list ascii)
  : list ascii :=
  match l with
  | [] => []
  | c :: l' =>
      if cls c
      then (if in_run then squeeze_go cls true l'
            else "_"%char :: squeeze_go cls true l')
      else c :: squeeze_go cls false l'
  end.

(** [s.strip("_")] *)
Fixpoint lstrip_underscores (l : list ascii) : list ascii :=
  match l with
  | [] => []
  | c :: l' => if bool_decide (c = "_"%char) then lstrip_underscores l' else l
  end.

Definition strip_underscores (l : list ascii) : list ascii :=
  reverse (lstrip_underscores (reverse (lstrip_underscores l))).

(** [_normalize(text)] *)
Definition _normalize (text_ : string) : string :=
  let s := collapse_whitespace (strip text_) in
  let s := lower s in
  let l := squeeze_go (λ c, negb (is_lower_alnum c)) false (chars s) in
  let l := squeeze_go (λ c, bool_decide (c = "_"%char)) false l in
  text (strip_underscores l).

(** A literal of a pattern compiled with [re.I], at the head of [l]: what
    follows it.  The literal is in lower case. *)
Fixpoint ci_literal (lit l : list ascii) : option (list ascii) :=
  match lit, l with
  | [], _ => Some l
  | x :: lit', c :: l' =>
      if bool_decide (tolower c = x) then ci_literal lit' l' else None
  | _ :: _, [] => None
  end.

(** [re.fullmatch(r"lsoa\s*" + word, raw, flags=re.I)] *)
Definition lsoa_word (word : string) (l : list ascii) : bool :=
  match ci_literal (chars "lsoa") l with
  | Some rest => bool_decide (ci_literal (chars word) (lstrip_chars rest) = Some [])
  | None => false
  end.

(** [(st|nd|rd|th)] under [re.I], at the head of [l] *)
Definition ordinal_suffix (l : list ascii) : option (list ascii) :=
  match ci_literal (chars "st") l with
  | Some rest => Some rest
  | None =>
      match ci_literal (chars "nd") l with
      | Some rest => Some rest
      | None =>
          match ci_literal (chars "rd") l with
          | Some rest => Some rest
          | None => ci_literal (chars "th") l
          end
      end
  end.

(** [re.match(r"^\s*(\d{2})\s*(st|nd|rd|th)\s*percentile\b", raw,
    flags=re.I)]: the two digits of the first group, for a header of the
    7-bit range, where [\d] is [[0-9]] and [\b] tells [[A-Za-z0-9_]] from
    the rest. *)
Definition percentile (l : list ascii) : option (list ascii) :=
  match lstrip_chars l with
  | d1 :: d2 :: rest =>
      if is_digit d1 && is_digit d2
      then
        rest ← ordinal_suffix (lstrip_chars rest);
        tail ← ci_literal (chars "percentile") (lstrip_chars rest);
        match tail with
        | [] => Some [d1; d2]
        | c :: _ => if is_word c then None else Some [d1; d2]
        end
      else None
  | _ => None
  end.

(** [\s+] at the head of [l]: what follows the run. *)
Definition spaces (l : list ascii) : option (list ascii) :=
  match l with
  | c :: l' => if isspace c then Some (lstrip_chars l') else None
  | [] => None
  end.

(** [percentage\s+with\s+income\s+information] under [re.I], at the head
    of [l] *)
Definition coverage_here (l : list ascii) : bool :=
  bool_decide (is_Some (
    l ← ci_literal (chars "percentage") l; l ← spaces l;
    l ← ci_literal (chars "with") l; l ← spaces l;
    l ← ci_literal (chars "income") l; l ← spaces l;
    ci_literal (chars "information") l)).

(** [re.search(r"percentage\s+with\s+income\s+information", raw,
    flags=re.I)] *)
Fixpoint coverage (l : list ascii) : bool :=
  coverage_here l || match l with [] => false | _ :: l' => coverage l' end.

(** [_canonical_rename(col)] *)
Definition _canonical_rename (col : string) : string :=
  let raw := strip col in
  if lsoa_word "code" (chars raw) then "lsoa_code"
  else if lsoa_word "name" (chars raw) then "lsoa_name"
  else match percentile (chars raw) with
       | Some p => "p" +:+ text p +:+ "_income"
       | None =>
           if coverage (chars raw) then "pct_income_info"
           else _normalize raw
       end.

(** [f"{base}_{k}"] *)
Definition suffixed (base : string) (k : Z) : string :=
  base +:+ "_" +:+ py_str (Num k).

(** [while f"{base}_{k}" in seen: k += 1], for at most [fuel] tests of
    the condition: the [k] it ends with. *)
Fixpoint first_free (base : string) (seen : gset string) (fuel : nat) (k : Z)
  : option Z :=
  match fuel with
  | O => None
  | S fuel' =>
      if bool_decide (suffixed base k ∈ seen)
      then first_free base seen fuel' (k + 1)
      else Some k
  end.

(** One turn of the loop of lines 92-102 of [main], on [new_cols] and
    [seen].  The inner loop gets one test more than [seen] has names. *)
Definition rename_step (state : option (list string * gset string))
  (c : string) : option (list string * gset string) :=
  '(new_cols, seen) ← state;
  let nc := _canonical_rename c in
  nc ← (if bool_decide (nc ∈ seen)
        then suffixed nc <$> first_free nc seen (S (size seen)) 2
        else Some nc);
  Some (new_cols ++ [nc], {[nc]} ∪ seen).

(** The headers [main] sets, lines 87-103: [None] if an inner loop were
    to run out of tests. *)
Definition new_columns (cols : list string) : option (list string) :=
  fst <$> foldl rename_step (Some ([], ∅)) (strip <$> cols).

(** [df.columns = new_cols]: the cells keep their places. *)
Definition relabelled (new_cols : list string) (df : Frame.frame) : Frame.frame :=
  {| Frame.columns := new_cols;
     Frame.rows := (λ r : Frame.row, zip new_cols r.*2) <$> Frame.rows df |}.

(** [main()], on what [load_any(SRC, SHEET_NAME)] returns, [None] when
    it raises: the exception ends the process with status 1 before
    anything is written.  The script logs nothing, and what it prints
    after the write is left out.  The result is [None] if an inner loop
    of the renaming were to run out of tests. *)
Definition main (input : option Frame.frame) : option (process Frame.frame) :=
  match input with
  | None => Some (mkProcess 1 [] None)
  | Some df =>
      new_cols ← new_columns (Frame.columns df);
      Some (mkProcess 0 [] (Some (relabelled new_cols df)))
  end.

(** No two underscores side by side. *)
Fixpoint single_underscores (l : list ascii) : Prop :=
  match l with
  | [] => True
  | c :: l' =>
      (c = "_"%char →
       match l' with c' :: _ => c' ≠ "_"%char | [] => True end) ∧
      single_underscores l'
  end.

(** A name in snake case: lower-case letters and digits, with single
    underscores between them only.  The empty name counts. *)
Definition snake (l : list ascii) : Prop :=
  Forall (λ c, is_lower_alnum c = true ∨ c = "_"%char) l ∧
  head l ≠ Some "_"%char ∧ last l ≠ Some "_"%char ∧
  single_underscores l.

End income.

(** ** [onspostcoedmapping.py] *)

Module onspostcoedmapping.
Import PyStr Frame.

(** The exceptions of the script, and a step that logs and then returns
    or raises. *)
Inductive error := FileNotFoundError | ValueError | KeyError.

Inductive result (A : Type) :=
| Ok (a : A)
| Raise (e : error).
Arguments Ok {A}.
Arguments Raise {A}.

Definition step (A : Type) : Type := (list log_record * result A)%type.

Definition and_then {A B} (m : step A) (f : A → step B) : step B :=
  match m with
  | (log, Raise e) => (log, Raise e)
  | (log, Ok a) => let '(log', r) := f a in (log ++ log', r)
  end.

Definition ONS_KEEP_COLS : list string :=
  ["PCD2"; "PCDS"; "NHSER"; "ICB"; "MSOA21"; "LSOA21"; "CTRY"].

(** [s.str.strip()] on a cell *)
Definition strip_cell (v : value) : value :=
  match v with Str s => Str (strip s) | _ => v end.

(** Lines 83-86: the headers and the cells of a frame trimmed. *)
Definition stripped (df : frame) : frame :=
  {| columns := strip <$> columns df;
     rows := (λ r : row, prod_map strip strip_cell <$> r) <$> rows df |}.

(** [_read_csv(path)]; the file is [None] when the path does not exist. *)
Definition _read_csv (file : option frame) : step frame :=
  match file with
  | None => ([(ERROR, "Missing file: %s")], Raise FileNotFoundError)
  | Some df => ([], Ok (stripped df))
  end.

(** [_require_cols(df, need, df_name)] *)
Definition _require_cols (df : frame) (need : list string) : step unit :=
  match filter (λ c, c ∉ columns df) need with
  | [] => ([], Ok tt)
  | _ => ([(ERROR, "%s is missing columns: %s")], Raise ValueError)
  end.

(** A lookup read and checked: [_read_csv] then [_require_cols]. *)
Definition read_lookup (file : option frame) (need : list string) : step frame :=
  and_then (_read_csv file) (λ df,
  and_then (_require_cols df need) (λ _, ([], Ok df))).

(** [df[cs]], which raises on a label that [df] has not. *)
Definition select_cols (cs : list string) (df : frame) : step frame :=
  if bool_decide (cs ⊆ columns df) then ([], Ok (select cs df))
  else ([], Raise KeyError).

(** One of the merges of lines 156-173, with the two columns of the
    lookup: on distinct key labels, or on the one label both frames have. *)
Definition merge_lookup (left : frame) (left_on : string) (right : frame)
  (right_on name : string) : step frame :=
  and_then (select_cols [right_on; name] right) (λ right,
  ([], Ok (if bool_decide (left_on = right_on) then merge_on left right left_on
           else merge_left left right left_on right_on "_y"))).

Definition rename_map : list (string * string) :=
  [ ("NHSER", "RegionCode"); ("NHSER24NM", "RegionName");
    ("ICB", "ICBID"); ("ICB23NM", "ICBName");
    ("LSOA21", "LSOAID"); ("LSOA21NM", "LSOAName");
    ("MSOA21", "MSOAID"); ("MSOA21NM", "MSOAName");
    ("CTRY12NM", "CountryName");
    ("LSOA11CD", "LSOA11ID"); ("LSOA11NM", "LSOA11Name") ].

(** [df.rename(columns=rename_map)] *)
Definition renamed (c : string) : string :=
  default c (Practiceinformation.dict_get c rename_map).

Definition rename_columns (df : frame) : frame :=
  {| columns := renamed <$> columns df;
     rows := (λ r : row, prod_map renamed id <$> r) <$> rows df |}.

(** The optional key of the 2011 lookup in the ONS slice, lines 109-114. *)
Definition lsoa11_key (ons : frame) : option string :=
  if bool_decide ("LSOA11" ∈ columns ons) then Some "LSOA11"
  else if bool_decide ("LSOA11CD" ∈ columns ons) then Some "LSOA11CD"
  else None.

(** Lines 143-152: the 2011 lookup as the variable [lsoa11] holds it after
    the [try].  The variable is assigned as soon as the file is read, so
    it keeps a frame that then fails the check of its columns. *)
Definition read_lsoa11 (file : option frame) : step (option frame) :=
  match _read_csv file with
  | (log, Raise FileNotFoundError) =>
      (log ++ [(WARNING, "LSOA 2011 lookup not found. Skipping LSOA2011 merge.")],
       Ok None)
  | (log, Raise e) => (log, Raise e)
  | (log, Ok df) =>
      match _require_cols df ["LSOA11CD"; "LSOA11NM"] with
      | (log', Raise ValueError) =>
          (log ++ log' ++
           [(WARNING, "LSOA 2011 lookup missing required columns (%s). Skipping LSOA2011 merge.")],
           Ok (Some df))
      | (log', Raise e) => (log ++ log', Raise e)
      | (log', Ok _) => (log ++ log', Ok (Some df))
      end
  end.

(** Lines 156-163: the five lookups merged into the slice. *)
Definition merge_lookups (ons region icb msoa lsoa country : frame)
  : step frame :=
  and_then (merge_lookup ons "NHSER" region "NHSER24CDH" "NHSER24NM") (λ m,
  and_then (merge_lookup m "ICB" icb "ICB23CDH" "ICB23NM") (λ m,
  and_then (merge_lookup m "MSOA21" msoa "MSOA21CD" "MSOA21NM") (λ m,
  and_then (merge_lookup m "LSOA21" lsoa "LSOA21CD" "LSOA21NM") (λ m,
  merge_lookup m "CTRY" country "CTRY12CD" "CTRY12NM")))).

(** Lines 165-178: the optional merge of the 2011 names. *)
Definition merge_lsoa11 (merged : frame) (lsoa11 : option frame)
  (key : option string) : step frame :=
  match lsoa11, key with
  | Some lsoa11, Some key => merge_lookup merged key lsoa11 "LSOA11CD" "LSOA11NM"
  | None, _ =>
      ([(WARNING, "Skipping LSOA 2011 merge: lookup unavailable.")], Ok merged)
  | Some _, None =>
      ([(WARNING, "Skipping LSOA 2011 merge: ONS_postcode.csv lacks LSOA11/LSOA11CD column.")],
       Ok merged)
  end.

(** Lines 198-210 *)
Definition final_cols (merged : frame) : list string :=
  ["PCD2"; "PCDS"; "RegionCode"; "RegionName"; "ICBID"; "ICBName";
   "MSOAID"; "MSOAName"; "LSOAID"; "LSOAName"]
  ++ (if bool_decide ("LSOA11CD" ∈ columns merged ∧ "LSOA11NM" ∈ columns merged)
      then ["LSOA11ID"; "LSOA11Name"] else [])
  ++ ["CountryName"].

(** The body of [main()], on the seven files. *)
Definition build (ons_file region_file msoa_file lsoa_file icb_file
                  country_file lsoa11_file : option frame) : step frame :=
  and_then (_read_csv ons_file) (λ ons,
  let lsoa11_key_in_ons := lsoa11_key ons in
  let keep_cols := ONS_KEEP_COLS ++ option_list lsoa11_key_in_ons in
  and_then (_require_cols ons ONS_KEEP_COLS) (λ _,
  and_then (select_cols keep_cols ons) (λ ons,
  and_then (read_lookup region_file ["NHSER24CDH"; "NHSER24NM"]) (λ region,
  and_then (read_lookup msoa_file ["MSOA21CD"; "MSOA21NM"]) (λ msoa,
  and_then (read_lookup lsoa_file ["LSOA21CD"; "LSOA21NM"]) (λ lsoa,
  and_then (read_lookup icb_file ["ICB23CDH"; "ICB23NM"]) (λ icb,
  and_then (read_lookup country_file ["CTRY12CD"; "CTRY12NM"]) (λ country,
  and_then (read_lsoa11 lsoa11_file) (λ lsoa11,
  and_then (merge_lookups ons region icb msoa lsoa country) (λ merged,
  and_then (merge_lsoa11 merged lsoa11 lsoa11_key_in_ons) (λ merged,
  select_cols (final_cols merged) (rename_columns merged)))))))))))).

(** [main()]: an exception that escapes ends the process with status 1
    before anything is written. *)
Definition main (ons_file region_file msoa_file lsoa_file icb_file
                 country_file lsoa11_file : option frame) : process frame :=
  match build ons_file region_file msoa_file lsoa_file icb_file country_file
          lsoa11_file with
  | (log, Ok final) => mkProcess 0 log (Some final)
  | (log, Raise _) => mkProcess 1 log None
  end.

(** A file whose trimmed headers are all different, if it is there: what
    the loop of [_read_csv] over the columns takes for granted. *)
Definition well_headed (file : option frame) : Prop :=
  ∀ df, file = Some df → NoDup (strip <$> columns df).

(** A file that is there and has the columns [need] under its trimmed
    headers. *)
Definition usable (file : option frame) (need : list string) : Prop :=
  ∃ df, file = Some df ∧ need ⊆ columns (stripped df).

(** A frame of texts, row by row. *)
Definition table (cols : list string) (texts : list (list string)) : frame :=
  {| columns := cols; rows := (λ r, zip cols (Str <$> r)) <$> texts |}.

(** A slice of two postcodes with a key for the 2011 lookup, and lookups:
    one region code comes twice in the region lookup once its cells are
    trimmed. *)
Definition example_ons : frame :=
  table ["PCD2"; "PCDS"; "NHSER"; "ICB"; "MSOA21"; "LSOA21"; "CTRY"; "LSOA11CD "]
    [ ["A1 1AA"; "A1 1AA"; "R1"; "I1"; "M1"; "L1"; "C1"; "K1"];
      ["B1 1AA"; "B1 1AA"; "R2"; "I1"; "M1"; "L1"; "C1"; "K2"] ].

Definition example_region : frame :=
  table ["NHSER24CDH"; "NHSER24NM"] [["R1"; "North"]; ["R1 "; "North again"]].

Definition example_icb : frame := table ["ICB23CDH"; "ICB23NM"] [["I1"; "ICB one"]].

Definition example_msoa : frame :=
  table ["MSOA21CD"; "MSOA21NM"] [["M1"; "MSOA one"]].

Definition example_lsoa : frame :=
  table ["LSOA21CD"; "LSOA21NM"] [["L1"; "LSOA one"]].

Definition example_country : frame :=
  table ["CTRY12CD"; "CTRY12NM"] [["C1"; "England"]].

Definition example_lsoa11 : frame :=
  table ["LSOA11CD"; "LSOA11NM"] [["K1"; "Old one"]].

Definition example_lsoa11_short : frame := table ["LSOA11CD"] [["K1"]].

End onspostcoedmapping.

(** ** [qof.py] *)

Module qof.
Import PyStr Frame.

(** [df["PATIENT_LIST_TYPE"].str.strip().str.upper() == "TOTAL"], on a
    row: a missing cell compares unequal. *)
Definition is_total (r : row) : bool :=
  match get "PATIENT_LIST_TYPE" r with
  | Str s => bool_decide (upper (strip s) = "TOTAL")
  | _ => false
  end.

(** [df.drop_duplicates()]: the first of the rows that are equal stays;
    missing cells compare equal to each other.  [seen] holds the rows met
    so far. *)
Fixpoint drop_duplicate_rows_go (seen : list row) (rs : list row) : list row :=
  match rs with
  | [] => []
  | r :: rs' =>
      if bool_decide (r ∈ seen) then drop_duplicate_rows_go seen rs'
      else r :: drop_duplicate_rows_go (r :: seen) rs'
  end.

Definition drop_duplicate_rows (df : frame) : frame :=
  {| columns := columns df; rows := drop_duplicate_rows_go [] (rows df) |}.

(** Lines 25-33: the rows of the total list, reduced to three columns.
    A label the frame has not raises. *)
Definition prevalence (df : frame) : option frame :=
  let df := HealthDepriviation_2019.strip_headers df in
  if bool_decide ("PATIENT_LIST_TYPE" ∈ columns df)
  then
    let df := where_ is_total df in
    if bool_decide (["PRACTICE_CODE"; "GROUP_CODE"; "REGISTER"] ⊆ columns df)
    then Some (rename_column "REGISTER" "IndicativePatients23_24"
                 (select ["PRACTICE_CODE"; "GROUP_CODE"; "REGISTER"] df))
    else None
  else None.

(** Lines 36-41: the description of each group code. *)
Definition categories (mapping : frame) : option frame :=
  let mapping := HealthDepriviation_2019.strip_headers mapping in
  if bool_decide (["GROUP_CODE"; "GROUP_DESCRIPTION"] ⊆ columns mapping)
  then Some (rename_column "GROUP_DESCRIPTION" "DiseaseCategory"
               (drop_duplicate_rows
                  (select ["GROUP_CODE"; "GROUP_DESCRIPTION"] mapping)))
  else None.

(** [main()], on the two files ([None] for a file that is not there).  An
    exception ends the process with status 1 before anything is written;
    the script logs nothing. *)
Definition main (input_file map_file : option frame) : process frame :=
  match
    input ← input_file; df ← prevalence input;
    mapping ← map_file; mapping ← categories mapping;
    Some (merge_on df mapping "GROUP_CODE")
  with
  | Some out => mkProcess 0 [] (Some out)
  | None => mkProcess 1 [] None
  end.

Definition example_prevalence : frame :=
  {| columns := ["PRACTICE_CODE"; "GROUP_CODE"; " PATIENT_LIST_TYPE"; "REGISTER"];
     rows :=
       [ [("PRACTICE_CODE", Str "A1"); ("GROUP_CODE", Str "AF");
          (" PATIENT_LIST_TYPE", Str "Total "); ("REGISTER", Str "12")];
         [("PRACTICE_CODE", Str "A1"); ("GROUP_CODE", Str "AF");
          (" PATIENT_LIST_TYPE", Str "18OV"); ("REGISTER", Str "11")];
         [("PRACTICE_CODE", Str "A2"); ("GROUP_CODE", Str "XX");
          (" PATIENT_LIST_TYPE", Str "TOTAL"); ("REGISTER", NaN)] ] |}.

Definition example_indicators : frame :=
  {| columns := ["GROUP_CODE"; "INDICATOR_CODE"; "GROUP_DESCRIPTION"];
     rows :=
       [ [("GROUP_CODE", Str "AF"); ("INDICATOR_CODE", Str "AF006");
          ("GROUP_DESCRIPTION", Str "Atrial fibrillation")];
         [("GROUP_CODE", Str "AF"); ("INDICATOR_CODE", Str "AF008");
          ("GROUP_DESCRIPTION", Str "Atrial fibrillation")] ] |}.

End qof.

(* ===================================================================== *)
(** * Part II: lemmas and theorems *)
(* ===================================================================== *)

Section PyStrFacts.
Import PyStr.

Lemma chars_text l : chars (text l) = l.
Proof. apply String.list_ascii_of_string_of_list_ascii. Qed.

Lemma text_chars s : text (chars s) = s.
Proof. apply String.string_of_list_ascii_of_string. Qed.

Lemma chars_app s1 s2 : chars (s1 +:+ s2) = chars s1 ++ chars s2.
Proof. induction s1 as [|c s1 IH]; simpl; [done|]. by rewrite IH. Qed.

Lemma text_app l1 l2 : text (l1 ++ l2) = text l1 +:+ text l2.
Proof. induction l1 as [|c l1 IH]; simpl; [done|]. by rewrite IH. Qed.

Lemma toupper_idemp c : toupper (toupper c) = toupper c.
Proof. by destruct c as [[] [] [] [] [] [] [] []]. Qed.

Lemma isspace_toupper c : isspace (toupper c) = isspace c.
Proof. by destruct c as [[] [] [] [] [] [] [] []]. Qed.

End PyStrFacts.

(** ** The postcode normaliser *)

Section PostcodeNormaliser.
Import PyStr Practiceinformation.

Lemma compact_chars_alt l :
  compact_chars l = toupper <$> filter nonspace l.
Proof.
  unfold compact_chars. induction l as [|c l IH]; [done|].
  rewrite fmap_cons, !filter_cons, IH.
  destruct (decide (nonspace (toupper c))) as [H|H],
    (decide (nonspace c)) as [H'|H']; unfold nonspace in *;
    rewrite isspace_toupper in H; by try congruence.
Qed.

Lemma compact_chars_nonspace l : Forall nonspace (compact_chars l).
Proof. apply Forall_forall. intros c Hc. by apply list_elem_of_filter in Hc as [? _]. Qed.

Lemma compact_chars_upper l : toupper <$> compact_chars l = compact_chars l.
Proof.
  rewrite compact_chars_alt, <- list_fmap_compose.
  apply list_fmap_ext. intros _ c _. apply toupper_idemp.
Qed.

Lemma filter_nonspace_id l : Forall nonspace l → filter nonspace l = l.
Proof.
  induction 1 as [|c l Hc _ IH]; [done|].
  by rewrite filter_cons_True, IH.
Qed.

Lemma chars_remove_whitespace_upper p :
  chars (remove_whitespace (upper p)) = compact_chars (chars p).
Proof. unfold remove_whitespace, upper. by rewrite !chars_text. Qed.

Lemma slice_bound_minus3 n : slice_bound n (-3) = n - 3.
Proof. unfold slice_bound. simpl. lia. Qed.

(** The compacted form is a fixed point of the compaction, with or without
    the separating space. *)
Lemma compact_chars_spaced l k :
  compact_chars (take k (compact_chars l) ++ " "%char :: drop k (compact_chars l))
  = compact_chars l.
Proof.
  unfold compact_chars at 1.
  rewrite fmap_app, fmap_cons, filter_app, filter_cons_False by (by intros ?).
  rewrite <- filter_app, <- fmap_app, take_drop, compact_chars_upper.
  apply filter_nonspace_id, compact_chars_nonspace.
Qed.

Lemma compact_chars_idemp l : compact_chars (compact_chars l) = compact_chars l.
Proof.
  unfold compact_chars at 1. rewrite compact_chars_upper.
  apply filter_nonspace_id, compact_chars_nonspace.
Qed.

Lemma format_uk_postcode_chars p c :
  c = compact_chars (chars p) →
  format_uk_postcode (Str p) =
    if bool_decide (5 ≤ length c)
    then Str (text (take (length c - 3) c ++ " "%char :: drop (length c - 3) c))
    else Str (text c).
Proof.
  intros ->. unfold format_uk_postcode, slice_to, slice_from, len.
  rewrite !chars_remove_whitespace_upper, slice_bound_minus3.
  case_bool_decide; [|by rewrite <- chars_remove_whitespace_upper, text_chars].
  by rewrite text_app.
Qed.

(** C3.  [format_uk_postcode] is total: a non-string input gives the
    missing marker; a string input is upper-cased and stripped of all its
    whitespace, and the compacted text [c] comes back unchanged when it is
    shorter than 5 characters, and otherwise split as outcode, one space,
    and an incode of exactly 3 characters.  The examples of the
    specification evaluate as stated. *)
Theorem format_uk_postcode_total :
  (∀ v, is_str v = false → format_uk_postcode v = NaN) ∧
  (∀ p, ∃ c,
      chars c = toupper <$> filter nonspace (chars p) ∧
      (len c < 5 → format_uk_postcode (Str p) = Str c) ∧
      (5 ≤ len c → ∃ outcode incode,
          c = outcode +:+ incode ∧ len incode = 3 ∧
          format_uk_postcode (Str p) = Str (outcode +:+ " " +:+ incode))) ∧
  format_uk_postcode (Str " sw1a 1aa ") = Str "SW1A 1AA" ∧
  format_uk_postcode (Str "AB1") = Str "AB1" ∧
  format_uk_postcode (Num 123) = NaN.
Proof.
  split; [by intros [] | split; [|done]].
  intros p. set (c := compact_chars (chars p)).
  exists (text c). unfold len. rewrite chars_text.
  split; [apply compact_chars_alt|].
  pose proof (format_uk_postcode_chars p c eq_refl) as Hf.
  split; intros Hlen.
  - rewrite Hf. by rewrite bool_decide_eq_false_2 by lia.
  - exists (text (take (length c - 3) c)), (text (drop (length c - 3) c)).
    rewrite <- text_app, take_drop, chars_text, length_drop.
    split; [done|]. split; [lia|].
    rewrite Hf, bool_decide_eq_true_2 by lia. by rewrite text_app.
Qed.

(** The theorem at [None], at the partial postcode ["ab 1"] (short
    branch) and at ["sw1a1aa"] (split branch). *)
Lemma format_uk_postcode_total_witness :
  format_uk_postcode PyNone = NaN ∧
  (∃ c, chars c = chars "AB1" ∧ format_uk_postcode (Str "ab 1") = Str c) ∧
  (∃ c outcode incode,
      chars c = chars "SW1A1AA" ∧ c = outcode +:+ incode ∧ len incode = 3 ∧
      format_uk_postcode (Str "sw1a1aa") = Str (outcode +:+ " " +:+ incode)).
Proof.
  destruct format_uk_postcode_total as (Hnon & Hstr & _).
  split; [by apply Hnon|]. split.
  - destruct (Hstr "ab 1") as (c & Hc & Hshort & _).
    exists c. split; [exact Hc|]. apply Hshort.
    unfold len. rewrite Hc. vm_compute. lia.
  - destruct (Hstr "sw1a1aa") as (c & Hc & _ & Hlong).
    destruct Hlong as (o & i & Hoi & Hi & Hf).
    { unfold len. rewrite Hc. vm_compute. lia. }
    by exists c, o, i.
Defined.

(** C9.  Normalising a normalised postcode changes nothing. *)
Theorem format_uk_postcode_idempotent (s : string) :
  format_uk_postcode (format_uk_postcode (Str s)) = format_uk_postcode (Str s).
Proof.
  set (c := compact_chars (chars s)).
  rewrite (format_uk_postcode_chars s c eq_refl).
  case_bool_decide as Hlen.
  - rewrite (format_uk_postcode_chars _ c).
    + by rewrite bool_decide_eq_true_2.
    + rewrite chars_text. unfold c. by rewrite compact_chars_spaced.
  - rewrite (format_uk_postcode_chars _ c).
    + by rewrite bool_decide_eq_false_2.
    + rewrite chars_text. unfold c. by rewrite compact_chars_idemp.
Qed.

End PostcodeNormaliser.

(** ** The header resolvers *)

Section HeaderResolvers.
Import PyStr Frame Headers.

Lemma index_by_snoc key cols c :
  index_by key (cols ++ [c]) = <[key c := c]> (index_by key cols).
Proof. unfold index_by. by rewrite foldl_snoc. Qed.

(** The dictionary holds, under each key, the last header filed there. *)
Lemma index_by_lookup key cols k :
  index_by key cols !! k = last_with_key key cols k.
Proof.
  unfold last_with_key.
  induction cols as [|c cols IH] using rev_ind; [done|].
  rewrite index_by_snoc, filter_app, filter_cons, filter_nil.
  destruct (decide (key c = k)) as [<-|Hne].
  - by rewrite lookup_insert_eq, last_snoc.
  - by rewrite lookup_insert_ne, app_nil_r.
Qed.

Lemma last_with_key_is_Some key cols k :
  is_Some (last_with_key key cols k) ↔ k ∈ key <$> cols.
Proof.
  unfold last_with_key. rewrite list_elem_of_fmap. split.
  - intros [c Hc]. apply last_Some in Hc as [l' Hl'].
    assert (c ∈ filter (λ c, key c = k) cols) as Hin
      by (rewrite Hl'; set_solver).
    apply list_elem_of_filter in Hin as [? ?]. eauto.
  - intros (c & -> & Hin).
    destruct (last (filter (λ c0, key c0 = key c) cols)) eqn:Hlast; [eauto|].
    apply last_None in Hlast.
    assert (c ∈ filter (λ c0, key c0 = key c) cols) as Hin'
      by (by apply list_elem_of_filter).
    rewrite Hlast in Hin'. by apply elem_of_nil in Hin'.
Qed.

Lemma last_with_key_sound key cols k c :
  last_with_key key cols k = Some c → c ∈ cols ∧ key c = k.
Proof.
  unfold last_with_key. intros [l' Hl']%last_Some.
  assert (c ∈ filter (λ c, key c = k) cols) as Hin by (rewrite Hl'; set_solver).
  by apply list_elem_of_filter in Hin as [? ?].
Qed.

Lemma first_hit_resolve_by key cols candidates :
  first_hit key (index_by key cols) candidates = resolve_by key cols candidates.
Proof.
  unfold resolve_by.
  induction candidates as [|cand rest IH]; [done|]. simpl.
  rewrite index_by_lookup.
  destruct (decide (key cand ∈ key <$> cols)) as [Hin|Hnin].
  - apply last_with_key_is_Some in Hin as [c Hc]. by rewrite Hc.
  - destruct (last_with_key key cols (key cand)) eqn:Hl.
    + exfalso. apply Hnin, last_with_key_is_Some. eauto.
    + rewrite IH. by destruct (list_find _ rest) as [[]|].
Qed.

Lemma resolve_by_None key cols candidates :
  resolve_by key cols candidates = None ↔
  ∀ cand, cand ∈ candidates → key cand ∉ key <$> cols.
Proof.
  unfold resolve_by.
  destruct (list_find _ candidates) as [[i cand]|] eqn:Hf; simpl.
  - apply list_find_Some in Hf as (Hi & Hin & _).
    apply list_elem_of_lookup_2 in Hi. split.
    + intros Hnone. apply last_with_key_is_Some in Hin as [c Hc]. congruence.
    + intros Hall. by destruct (Hall cand Hi).
  - apply list_find_None in Hf. rewrite Forall_forall in Hf. by split.
Qed.

Lemma pick_col_resolve_by df candidates :
  Practiceinformation.pick_col df candidates
  = resolve_by Practiceinformation.norm_header (columns df) candidates.
Proof. apply first_hit_resolve_by. Qed.

(** What [pick_col] returns is a header of the frame with the normalised
    form of one of the candidates. *)
Lemma pick_col_sound df candidates c :
  Practiceinformation.pick_col df candidates = Some c →
  c ∈ columns df ∧
  ∃ cand, cand ∈ candidates ∧
    Practiceinformation.norm_header c = Practiceinformation.norm_header cand.
Proof.
  rewrite pick_col_resolve_by. unfold resolve_by.
  destruct (list_find _ candidates) as [[i cand]|] eqn:Hf; [|done]. simpl.
  intros [Hc Hk]%last_with_key_sound.
  apply list_find_Some in Hf as (Hi & _ & _).
  apply list_elem_of_lookup_2 in Hi. eauto.
Qed.

(** C4, as the code has it.  [find_column] returns the first candidate
    that is a header as it stands; only without one does it match on
    lower-cased, trimmed text, over the candidates in order, and it then
    returns the last header with the key of the first candidate that
    matches.  [pick_col] has the second kind of pass only, on lower-cased,
    trimmed text with runs of whitespace collapsed.  Either leaves the
    field unresolved exactly when no candidate matches some header by
    key.  On the example of the specification both resolve to
    ["LSOA code (2011)"]. *)
Theorem header_resolution (df : frame) (candidates : list string) :
  (∀ i cand,
     list_find (λ c, c ∈ columns df) candidates = Some (i, cand) →
     HealthDepriviation_2019.find_column df candidates = Some cand) ∧
  (list_find (λ c, c ∈ columns df) candidates = None →
     HealthDepriviation_2019.find_column df candidates
     = resolve_by HealthDepriviation_2019.lower_key (columns df) candidates) ∧
  Practiceinformation.pick_col df candidates
  = resolve_by Practiceinformation.norm_header (columns df) candidates ∧
  (HealthDepriviation_2019.find_column df candidates = None ↔
     ∀ cand, cand ∈ candidates →
       HealthDepriviation_2019.lower_key cand
       ∉ HealthDepriviation_2019.lower_key <$> columns df) ∧
  (Practiceinformation.pick_col df candidates = None ↔
     ∀ cand, cand ∈ candidates →
       Practiceinformation.norm_header cand
       ∉ Practiceinformation.norm_header <$> columns df) ∧
  (let headers := mkFrame ["LSOA code (2011)"; "Health  Score "] [] in
   let cands := ["LSOA Code"; "LSOA code (2011)"] in
   HealthDepriviation_2019.find_column headers cands = Some "LSOA code (2011)" ∧
   Practiceinformation.pick_col headers cands = Some "LSOA code (2011)").
Proof.
  split_and!.
  - intros i cand Hf. unfold HealthDepriviation_2019.find_column. by rewrite Hf.
  - intros Hf. unfold HealthDepriviation_2019.find_column. rewrite Hf.
    apply first_hit_resolve_by.
  - apply pick_col_resolve_by.
  - unfold HealthDepriviation_2019.find_column.
    destruct (list_find _ candidates) as [[i cand]|] eqn:Hf.
    + apply list_find_Some in Hf as (Hi & Hin & _).
      apply list_elem_of_lookup_2 in Hi. split; [done|].
      intros Hall. destruct (Hall cand Hi). by apply list_elem_of_fmap_2.
    + rewrite first_hit_resolve_by. apply resolve_by_None.
  - rewrite pick_col_resolve_by. apply resolve_by_None.
  - by vm_compute.
Qed.

(** The theorem at headers that differ from the candidates in case only,
    where no exact pass can succeed. *)
Lemma header_resolution_witness :
  HealthDepriviation_2019.find_column
    (mkFrame ["lsoa code"; "LSOA CODE"] []) ["LSOA Code"]
  = resolve_by HealthDepriviation_2019.lower_key
      ["lsoa code"; "LSOA CODE"] ["LSOA Code"] ∧
  HealthDepriviation_2019.find_column
    (mkFrame ["Area"; "LSOA Code"] []) ["LSOA code"; "LSOA Code"]
  = Some "LSOA Code".
Proof.
  split.
  - destruct (header_resolution (mkFrame ["lsoa code"; "LSOA CODE"] [])
                ["LSOA Code"]) as (_ & Hfallback & _).
    apply Hfallback. vm_compute. reflexivity.
  - destruct (header_resolution (mkFrame ["Area"; "LSOA Code"] [])
                ["LSOA code"; "LSOA Code"]) as (Hexact & _).
    apply (Hexact 1). vm_compute. reflexivity.
Defined.

(** C4 as stated fails for [pick_col]: the second candidate is a header as
    it stands, yet the header returned is the one that matches the first
    candidate up to case. *)
Lemma pick_col_prefers_candidate_order :
  list_find (λ c, c ∈ ["ods code"; "Practice Code"]) ["ODS Code"; "Practice Code"]
  = Some (1, "Practice Code") ∧
  Practiceinformation.pick_col
    (mkFrame ["ods code"; "Practice Code"] []) ["ODS Code"; "Practice Code"]
  = Some "ods code".
Proof. by vm_compute. Qed.

End HeaderResolvers.

(** ** The merger: coalescing, merging, the reference table *)

Section NullCoalescing.
Import PyStr Frame Practiceinformation.

Lemma lstrip_chars_snoc l c :
  isspace c = false → lstrip_chars (l ++ [c]) = lstrip_chars l ++ [c].
Proof.
  intros Hc. induction l as [|a l IH]; simpl; [by rewrite Hc|].
  by destruct (isspace a).
Qed.

Lemma rstrip_chars_cons c l :
  isspace c = false → rstrip_chars (c :: l) = c :: rstrip_chars l.
Proof.
  intros Hc. unfold rstrip_chars.
  by rewrite reverse_cons, lstrip_chars_snoc, reverse_snoc.
Qed.

Lemma lstrip_chars_head l :
  match lstrip_chars l with [] => True | c :: _ => isspace c = false end.
Proof.
  induction l as [|a l IH]; simpl; [done|].
  by destruct (isspace a) eqn:Ha.
Qed.

(** [strip] leaves no whitespace at either end. *)
Lemma strip_trimmed s : trimmed (strip s).
Proof.
  unfold trimmed, strip. rewrite chars_text. split.
  - pose proof (lstrip_chars_head (chars s)) as Hh.
    destruct (lstrip_chars (chars s)) as [|c l]; [done|].
    by rewrite rstrip_chars_cons.
  - unfold rstrip_chars. rewrite reverse_involutive.
    apply lstrip_chars_head.
Qed.

Lemma lstrip_chars_id l :
  match l with [] => True | c :: _ => isspace c = false end →
  lstrip_chars l = l.
Proof. destruct l as [|c l]; simpl; [done|]. by intros ->. Qed.

(** A trimmed string is one [strip] leaves alone. *)
Lemma trimmed_strip s : trimmed s → strip s = s.
Proof.
  intros [Hl Hr]. unfold strip, rstrip_chars.
  rewrite (lstrip_chars_id (chars s)) by done.
  rewrite (lstrip_chars_id (reverse (chars s))) by done.
  by rewrite reverse_involutive, text_chars.
Qed.

(** [first_nonnull] returns the text of its first present argument. *)
Lemma first_nonnull_present vals :
  first_nonnull vals = from_option Str NaN (head (omap present vals)).
Proof.
  induction vals as [|v vals IH]; [done|].
  destruct v as [s| | |z]; simpl; try done.
  by case_bool_decide.
Qed.

Lemma present_trimmed v s :
  present v = Some s → s ≠ "" ∧ trimmed s.
Proof.
  destruct v as [s'| | |z]; simpl; try done.
  case_bool_decide; [|done]. intros [= <-]. split; [done|apply strip_trimmed].
Qed.

Lemma first_nonnull_clean vals : clean (first_nonnull vals).
Proof.
  rewrite first_nonnull_present.
  destruct (head (omap present vals)) as [s|] eqn:Hh; simpl; [|by left].
  right. exists s. split; [done|].
  apply head_Some_elem_of, list_elem_of_omap in Hh as (v & _ & Hv).
  by apply present_trimmed in Hv.
Qed.

End NullCoalescing.

Section FrameFacts.
Import PyStr Frame.

Lemma get_set_eq c v r : get c (set c v r) = v.
Proof.
  induction r as [|[k w] r IH]; simpl; [by rewrite bool_decide_eq_true_2|].
  case_bool_decide as Hk; simpl.
  - by rewrite bool_decide_eq_true_2.
  - by rewrite bool_decide_eq_false_2.
Qed.

Lemma get_set_ne c c' v r : c ≠ c' → get c' (set c v r) = get c' r.
Proof.
  intros Hne. induction r as [|[k w] r IH]; simpl.
  - by rewrite bool_decide_eq_false_2.
  - destruct (decide (k = c)) as [->|Hk].
    + rewrite bool_decide_eq_true_2 by done. simpl.
      by rewrite !bool_decide_eq_false_2.
    + rewrite (bool_decide_eq_false_2 (k = c)) by done. simpl. by rewrite IH.
Qed.

Lemma get_app c (r1 r2 : row) :
  get c (r1 ++ r2) = if bool_decide (c ∈ r1.*1) then get c r1 else get c r2.
Proof.
  induction r1 as [|[k w] r1 IH]; simpl; [done|].
  destruct (decide (k = c)) as [->|Hk].
  - rewrite !bool_decide_eq_true_2; [done|apply list_elem_of_here|done].
  - rewrite (bool_decide_eq_false_2 (k = c)) by done. rewrite IH.
    destruct (decide (c ∈ r1.*1)) as [Hin|Hin].
    + rewrite !bool_decide_eq_true_2; [done|by apply list_elem_of_further|done].
    + rewrite !bool_decide_eq_false_2; [done| |done].
      intros [?|?]%elem_of_cons; by subst.
Qed.

Lemma labels_set k v (r : row) : r.*1 ⊆ (set k v r).*1.
Proof.
  induction r as [|[k' w] r IH]; simpl; [by intros ? ?%elem_of_nil|].
  case_bool_decide; simpl; [done|].
  intros c [->|Hc]%elem_of_cons; [left|right; by apply IH].
Qed.

Lemma get_app_l c (r1 r2 : row) : c ∈ r1.*1 → get c (r1 ++ r2) = get c r1.
Proof. intros Hc. by rewrite get_app, bool_decide_eq_true_2. Qed.

Lemma set_app_l k v (r1 r2 : row) :
  k ∉ r1.*1 → set k v (r1 ++ r2) = r1 ++ set k v r2.
Proof.
  induction r1 as [|[k' w] r1 IH]; [done|].
  rewrite fmap_cons, not_elem_of_cons. intros [Hne Hk]. cbn [app set fst].
  rewrite bool_decide_eq_false_2 by (by intros ->). by rewrite IH.
Qed.

Lemma Forall2_compose {A B C} (R : A → B → Prop) (S : B → C → Prop)
  (T : A → C → Prop) la lb lc :
  (∀ a b c, R a b → S b c → T a c) →
  Forall2 R la lb → Forall2 S lb lc → Forall2 T la lc.
Proof.
  intros H HR. revert lc. induction HR as [|a b la lb Hab _ IH]; intros lc HS.
  - apply Forall2_nil_inv_l in HS as ->. constructor.
  - apply Forall2_cons_inv_l in HS as (c & lc' & Hbc & HS & ->).
    constructor; eauto.
Qed.

Lemma columns_assign_subseteq c f df : columns df ⊆ columns (assign c f df).
Proof.
  unfold assign; simpl. case_bool_decide; [done|].
  intros k Hk. apply elem_of_app. by left.
Qed.

Lemma elem_of_columns_assign c f df : c ∈ columns (assign c f df).
Proof.
  unfold assign; simpl. case_bool_decide; [done|].
  apply elem_of_app. right. apply list_elem_of_here.
Qed.

Lemma rows_assign_lookup c f df i :
  rows (assign c f df) !! i = (λ r, set c (f r) r) <$> rows df !! i.
Proof. unfold assign; simpl. apply list_lookup_fmap. Qed.

Lemma columns_merge_left left right left_on right_on sfx :
  columns (merge_left left right left_on right_on sfx)
  = columns left ++ (merged_label left sfx <$> columns right).
Proof. done. Qed.

End FrameFacts.

Section CoalescingLoop.
Import PyStr Frame Practiceinformation.

(** Each turn of the loop assigns one column, row by row. *)
Lemma coalesce_step_assign m out col :
  coalesce_step m (out, col) = assign out (coalesced_cell (columns m) col) m.
Proof.
  unfold coalesce_step, coalesced_cell.
  destruct (truthy col); [|done]. by case_bool_decide.
Qed.

Lemma columns_coalesce_step m item :
  columns m ⊆ columns (coalesce_step m item).
Proof. destruct item. rewrite coalesce_step_assign. apply columns_assign_subseteq. Qed.

Lemma columns_coalesce picked m : columns m ⊆ columns (coalesce picked m).
Proof.
  unfold coalesce. revert m.
  induction picked as [|item picked IH]; intros m; simpl; [done|].
  etrans; [apply columns_coalesce_step|apply IH].
Qed.

Lemma coalesce_snoc picked item m :
  coalesce (picked ++ [item]) m = coalesce_step (coalesce picked m) item.
Proof. unfold coalesce. by rewrite foldl_snoc. Qed.

Lemma elem_of_columns_coalesce picked m out :
  out ∈ picked.*1 → out ∈ columns (coalesce picked m).
Proof.
  induction picked as [|[out' col] picked IH] using rev_ind; [by intros ?%elem_of_nil|].
  rewrite fmap_app, coalesce_snoc, coalesce_step_assign.
  intros [Hin|Hin]%elem_of_app.
  - by apply columns_assign_subseteq, IH.
  - simpl in Hin. apply list_elem_of_singleton in Hin as ->.
    apply elem_of_columns_assign.
Qed.

(** The loop changes no row count and touches the output labels only. *)
Lemma coalesce_lookup_other picked m i r c :
  c ∉ picked.*1 →
  rows (coalesce picked m) !! i = Some r →
  ∃ r0, rows m !! i = Some r0 ∧ get c r = get c r0.
Proof.
  revert r. induction picked as [|[out col] picked IH] using rev_ind; intros r Hc.
  - intros Hr. by exists r.
  - rewrite fmap_app in Hc. apply not_elem_of_app in Hc as [Hc1 Hc2].
    rewrite coalesce_snoc, coalesce_step_assign, rows_assign_lookup.
    destruct (rows (coalesce picked m) !! i) as [r1|] eqn:Hr1; [|done].
    simpl. intros [= <-].
    destruct (IH r1 Hc1 eq_refl) as (r0 & Hr0 & Hget).
    exists r0. split; [done|]. rewrite get_set_ne; [done|].
    intros ->. apply Hc2. simpl. apply list_elem_of_singleton. done.
Qed.

Lemma coalesce_lookup_Some picked m i r0 :
  rows m !! i = Some r0 → is_Some (rows (coalesce picked m) !! i).
Proof.
  intros Hr0. induction picked as [|[out col] picked IH] using rev_ind; [by eexists|].
  rewrite coalesce_snoc, coalesce_step_assign, rows_assign_lookup.
  destruct IH as [r1 ->]. by eexists.
Qed.

(** The cell the loop leaves under an output label, from the row of [m2]
    it started with. *)
Lemma coalesce_lookup picked m i r0 out col :
  NoDup picked.*1 →
  (out, col) ∈ picked →
  (truthy col →
     (default "" col +:+ "_oc") ∈ columns m ∧
     ∀ out', out' ∈ picked.*1 → out' ≠ out →
       out' ≠ default "" col ∧ out' ≠ (default "" col +:+ "_oc")) →
  rows m !! i = Some r0 →
  ∃ r, rows (coalesce picked m) !! i = Some r ∧
       get out r = coalesced_cell (columns m) col r0.
Proof.
  intros Hnd Hin Hcol Hr0.
  induction picked as [|[o c] picked IH] using rev_ind;
    [by apply elem_of_nil in Hin|].
  rewrite fmap_app in Hnd, Hcol. simpl in Hnd, Hcol.
  apply NoDup_app in Hnd as (Hnd & Hdisj & _).
  assert (o ∉ picked.*1) as Ho.
  { intros Ho. apply (Hdisj o Ho). by apply list_elem_of_singleton. }
  rewrite coalesce_snoc, coalesce_step_assign, rows_assign_lookup.
  apply elem_of_app in Hin as [Hin|Hin].
  - destruct IH as (r1 & Hr1 & Hget); [done..| |].
    { intros Htr. destruct (Hcol Htr) as [Htwin Hfresh]. split; [done|].
      intros out' Hout'. apply Hfresh, elem_of_app. by left. }
    rewrite Hr1. simpl. eexists; split; [done|].
    rewrite get_set_ne; [done|]. intros ->.
    apply Ho. apply list_elem_of_fmap. by exists (out, col).
  - apply list_elem_of_singleton in Hin as [= <- <-].
    destruct (coalesce_lookup_Some picked m i r0 Hr0) as [r1 Hr1].
    rewrite Hr1. simpl. eexists; split; [done|]. rewrite get_set_eq.
    assert (∀ k, (∀ out', out' ∈ picked.*1 → out' ≠ k) → get k r1 = get k r0)
      as Hsame.
    { intros k Hk.
      destruct (coalesce_lookup_other picked m i r1 k) as (r0' & Hr0' & ->);
        [|done|congruence]. intros Hkin. by apply (Hk k). }
    unfold coalesced_cell. destruct (truthy col) eqn:Htr; [|done].
    destruct Hcol as [Htwin Hfresh]; [done|].
    rewrite !bool_decide_eq_true_2.
    + rewrite !Hsame; [done|..]; intros out' Hout';
        (destruct (Hfresh out') as [? ?]; [apply elem_of_app; by left| |done]);
        intros ->; done.
    + done.
    + by apply columns_coalesce.
Qed.

End CoalescingLoop.

Section NameMapFacts.
Import PyStr Frame Practiceinformation.

(** Facts of the two tables of [run], each checked by evaluation. *)
Lemma name_map_keys_NoDup : NoDup name_map.*1.
Proof. apply (bool_decide_unpack _). by vm_compute. Qed.

(** An output label has the normalised form of no candidate of another
    output label. *)
Lemma name_map_separated :
  Forall (λ item,
            Forall (λ out', out' = item.1 ∨
                            norm_header out' ∉ norm_header <$> item.2)
                   name_map.*1) name_map.
Proof. apply (bool_decide_unpack _). by vm_compute. Qed.

(** No output label ends in [_oc]. *)
Lemma name_map_keys_no_oc :
  Forall (λ out, drop (len out - 3) (chars out) ≠ chars "_oc") name_map.*1.
Proof. apply (bool_decide_unpack _). by vm_compute. Qed.

(** The labels [run] adds to the mapping are no geography header. *)
Lemma name_map_avoids_keys :
  Forall (λ k, k ∉ norm_header <$> mjoin name_map.*2)
         ["outcode"; "_outcode"; "_pcd2_fmt"].
Proof. apply (bool_decide_unpack _). by vm_compute. Qed.

Lemma suffix_chars x sfx :
  drop (len (x +:+ sfx) - len sfx) (chars (x +:+ sfx)) = chars sfx.
Proof.
  unfold len. rewrite chars_app, length_app.
  replace (length (chars x) + length (chars sfx) - length (chars sfx))
    with (length (chars x)) by lia.
  by rewrite drop_app_length.
Qed.

Lemma name_map_key_not_oc out x : out ∈ name_map.*1 → out ≠ x +:+ "_oc".
Proof.
  intros Hin ->. pose proof name_map_keys_no_oc as Hno.
  rewrite Forall_forall in Hno. apply (Hno _ Hin).
  apply (suffix_chars x "_oc").
Qed.

Lemma elem_of_pick_all df table out col :
  (out, col) ∈ pick_all df table ↔
  ∃ cands, (out, cands) ∈ table ∧ col = pick_col df cands.
Proof.
  unfold pick_all. rewrite list_elem_of_fmap. split.
  - intros ([o cands] & [= -> ->] & Hin). eauto.
  - intros (cands & Hin & ->). by exists (out, cands).
Qed.

Lemma pick_all_keys df table : (pick_all df table).*1 = table.*1.
Proof.
  unfold pick_all. rewrite <- list_fmap_compose.
  apply list_fmap_ext. by intros _ [] _.
Qed.

Lemma truthy_Some col : truthy col → ∃ c, col = Some c ∧ c ≠ "".
Proof.
  destruct col as [c|]; simpl; [|done].
  intros H%bool_decide_unpack. eauto.
Qed.

(** A resolved geography header differs from every output label but its
    own, and from the labels the script makes up. *)
Lemma picked_fresh df out col c :
  (out, col) ∈ pick_all df name_map → col = Some c →
  (∀ out', out' ∈ name_map.*1 → out' ≠ out →
     out' ≠ c ∧ out' ≠ (c +:+ "_oc")) ∧
  (norm_header c ∉ ["outcode"; "_outcode"; "_pcd2_fmt"]) ∧
  c ∈ columns df.
Proof.
  intros Hpick ->. apply elem_of_pick_all in Hpick as (cands & Hin & Hcol).
  symmetry in Hcol. apply pick_col_sound in Hcol as (Hc & cand & Hcand & Hnorm).
  assert (norm_header c ∈ norm_header <$> cands) as Hkey.
  { rewrite Hnorm. by apply list_elem_of_fmap_2. }
  split_and!; [| |done].
  - intros out' Hout' Hne. split; [|by apply name_map_key_not_oc].
    intros ->. pose proof name_map_separated as Hsep.
    rewrite Forall_forall in Hsep. specialize (Hsep _ Hin). simpl in Hsep.
    rewrite Forall_forall in Hsep. by destruct (Hsep _ Hout').
  - intros Hbad. pose proof name_map_avoids_keys as Hav.
    rewrite Forall_forall in Hav. apply (Hav _ Hbad).
    apply list_elem_of_fmap. exists cand. split; [done|].
    apply list_elem_of_fmap_2 with (f := snd) in Hin. simpl in Hin.
    apply list_elem_of_join. eauto.
Qed.

End NameMapFacts.

Section TwoPassMerge.
Import PyStr Frame Practiceinformation.

(** The rows one left row turns into. *)
Lemma rows_merge_left left right left_on right_on sfx :
  rows (merge_left left right left_on right_on sfx)
  = l ← rows left;
    match matches right left_on right_on l with
    | [] => [l ++ ((λ c, (merged_label left sfx c, NaN)) <$> columns right)]
    | ms => (λ r : row, l ++ (prod_map (merged_label left sfx) id <$> r)) <$> ms
    end.
Proof. done. Qed.

Lemma length_bind_singletons {A B} (f : A → list B) (l : list A) :
  Forall (λ a, length (f a) = 1) l → length (l ≫= f) = length l.
Proof.
  induction 1 as [|a l Ha _ IH]; [done|].
  rewrite bind_cons, length_app, Ha, IH. done.
Qed.

(** A left merge keeps the row count when no left row has two matches. *)
Lemma length_rows_merge_left left right left_on right_on sfx :
  (∀ l, l ∈ rows left → length (matches right left_on right_on l) ≤ 1) →
  length (rows (merge_left left right left_on right_on sfx))
  = length (rows left).
Proof.
  intros Hone. rewrite rows_merge_left. apply length_bind_singletons.
  apply Forall_forall. intros l Hl. specialize (Hone l Hl).
  destruct (matches right left_on right_on l) as [|m [|m' ms]]; simpl in *;
    [done|done|lia].
Qed.

Lemma filter_none {A} (P : A → Prop) `{∀ x, Decision (P x)} (l : list A) :
  (∀ x, x ∈ l → ¬ P x) → filter P l = [].
Proof.
  induction l as [|a l IH]; intros Hl; [done|].
  rewrite filter_cons_False by (apply Hl, list_elem_of_here).
  apply IH. intros x Hx. by apply Hl, list_elem_of_further.
Qed.

Lemma filter_key_NoDup c k (rs : list row) :
  NoDup (get c <$> rs) → length (filter (λ r, get c r = k) rs) ≤ 1.
Proof.
  induction rs as [|r rs IH]; simpl; [lia|].
  rewrite NoDup_cons. intros [Hr Hnd]. rewrite filter_cons.
  destruct (decide (get c r = k)) as [<-|Hne]; [|by apply IH].
  rewrite filter_none; [simpl; lia|].
  intros r' Hin Heq. apply Hr. rewrite <- Heq. by apply list_elem_of_fmap_2.
Qed.

(** ** [drop_duplicates] *)

Lemma drop_duplicates_go_filter c k seen rs :
  filter (λ r, get c r = k) (drop_duplicates_go c seen rs)
  = if bool_decide (k ∈ seen) then []
    else option_list (head (filter (λ r, get c r = k) rs)).
Proof.
  revert seen. induction rs as [|r rs IH]; intros seen; simpl.
  - by case_bool_decide.
  - rewrite (filter_cons _ r rs).
    destruct (decide (get c r ∈ seen)) as [Hseen|Hseen].
    + rewrite bool_decide_eq_true_2 by done. rewrite IH.
      case_bool_decide as Hk; [done|].
      destruct (decide (get c r = k)) as [Heq|Hne]; [|done].
      by rewrite Heq in Hseen.
    + rewrite bool_decide_eq_false_2 by done. rewrite filter_cons, IH.
      destruct (decide (get c r = k)) as [Heq|Hne].
      * rewrite (bool_decide_eq_true_2 (k ∈ get c r :: seen))
          by (rewrite Heq; apply list_elem_of_here).
        rewrite bool_decide_eq_false_2 by (by rewrite <- Heq).
        done.
      * case_bool_decide as Hk1; case_bool_decide as Hk2; try done.
        -- apply elem_of_cons in Hk1 as [?|?]; by subst.
        -- exfalso. apply Hk1. by apply list_elem_of_further.
Qed.

Lemma drop_duplicates_go_NoDup c seen rs :
  NoDup (get c <$> drop_duplicates_go c seen rs) ∧
  ∀ r, r ∈ drop_duplicates_go c seen rs → get c r ∉ seen.
Proof.
  revert seen. induction rs as [|r rs IH]; intros seen; simpl.
  - split; [constructor|]. by intros r ?%elem_of_nil.
  - case_bool_decide as Hseen; [apply IH|].
    destruct (IH (get c r :: seen)) as [Hnd Hfresh]. split.
    + rewrite fmap_cons. apply NoDup_cons. split; [|done].
      intros (r' & Heq & Hin)%list_elem_of_fmap.
      apply (Hfresh r' Hin). rewrite Heq. apply list_elem_of_here.
    + intros r' [->|Hin]%elem_of_cons; [done|].
      intros Hr'. apply (Hfresh r' Hin). by apply list_elem_of_further.
Qed.

Lemma drop_duplicates_go_sublist c seen rs :
  sublist (drop_duplicates_go c seen rs) rs.
Proof.
  revert seen. induction rs as [|r rs IH]; intros seen; simpl; [done|].
  case_bool_decide; [apply sublist_cons|apply sublist_skip]; apply IH.
Qed.

(** The rows a left row joins with in the deduplicated table: the first
    of its matches in the table as it was. *)
Lemma matches_drop_duplicates df left_on c l :
  matches (drop_duplicates c df) left_on c l
  = option_list (head (matches df left_on c l)).
Proof.
  unfold matches, drop_duplicates. simpl.
  by rewrite drop_duplicates_go_filter, bool_decide_eq_false_2
    by apply not_elem_of_nil.
Qed.

Lemma length_option_list {A} (o : option A) : length (option_list o) ≤ 1.
Proof. destruct o; simpl; lia. Qed.

Lemma length_rows_assign c f df : length (rows (assign c f df)) = length (rows df).
Proof. unfold assign; simpl. apply length_fmap. Qed.

Lemma length_rows_outcode_fallback m1 map_slim :
  length (rows (outcode_fallback m1 map_slim)) = length (rows m1).
Proof.
  unfold outcode_fallback, outcode_table.
  rewrite length_rows_merge_left, length_rows_assign; [done|].
  intros l _. rewrite matches_drop_duplicates. apply length_option_list.
Qed.

Lemma filter_key_NoDup_str c k (rs : list row) :
  NoDup (filter (λ v, is_str v) (get c <$> rs)) → is_str k →
  length (filter (λ r, get c r = k) rs) ≤ 1.
Proof.
  intros Hnd Hk. induction rs as [|r rs IH]; simpl; [lia|].
  rewrite fmap_cons, filter_cons in Hnd. rewrite filter_cons.
  destruct (decide (get c r = k)) as [Heq|Hne].
  - rewrite Heq, decide_True in Hnd by done.
    apply NoDup_cons in Hnd as [Hr Hnd].
    rewrite filter_none; [simpl; lia|].
    intros r' Hin Heq'. apply Hr. apply list_elem_of_filter. split; [done|].
    rewrite <- Heq'. by apply list_elem_of_fmap_2.
  - destruct (decide (is_str (get c r))); [apply NoDup_cons in Hnd as [_ Hnd]|];
      by apply IH.
Qed.

Lemma format_uk_postcode_is_str p : is_str (format_uk_postcode (Str p)).
Proof. unfold format_uk_postcode. by case_bool_decide. Qed.

(** A left merge in which no left row has two matches gives each left
    row once, in the order of the left frame, with cells added after its
    own. *)
Lemma merge_left_single left right left_on right_on sfx :
  (∀ l, l ∈ rows left → length (matches right left_on right_on l) ≤ 1) →
  Forall2 (λ l r : row, l `prefix_of` r) (rows left)
    (rows (merge_left left right left_on right_on sfx)).
Proof.
  rewrite rows_merge_left. induction (rows left) as [|l ls IH]; intros Hone.
  - constructor.
  - rewrite bind_cons.
    pose proof (Hone l (list_elem_of_here _ _)) as Hl.
    assert (Forall2 (λ l r : row, l `prefix_of` r) ls
      (ls ≫= λ l, match matches right left_on right_on l with
        | [] => [l ++ ((λ c, (merged_label left sfx c, NaN)) <$> columns right)]
        | ms => (λ r : row, l ++ (prod_map (merged_label left sfx) id <$> r)) <$> ms
        end)) as Hls.
    { apply IH. intros l' Hl'. by apply Hone, list_elem_of_further. }
    destruct (matches right left_on right_on l) as [|m [|m' ms]]; simpl in *.
    + constructor; [by eexists|done].
    + constructor; [by eexists|done].
    + lia.
Qed.

(** The fallback gives each row of the postcode merge once, in order,
    with its outcode set and cells added after its own. *)
Lemma outcode_fallback_rows m1 map_slim :
  Forall2 (λ m r : row,
             set "_Outcode_gp" (first_token (get "PostCode" m)) m `prefix_of` r)
    (rows m1) (rows (outcode_fallback m1 map_slim)).
Proof.
  unfold outcode_fallback.
  apply (proj1 (Forall2_fmap_l
                  (λ r : row, set "_Outcode_gp" (first_token (get "PostCode" r)) r)
                  (λ l r : row, l `prefix_of` r) (rows m1) _)).
  apply (merge_left_single
           (assign "_Outcode_gp" (λ r, first_token (get "PostCode" r)) m1)).
  intros l _. unfold outcode_table. rewrite matches_drop_duplicates.
  apply length_option_list.
Qed.

Lemma holds_row_set_prefix (l m r : row) :
  l `prefix_of` m →
  set "_Outcode_gp" (first_token (get "PostCode" m)) m `prefix_of` r →
  holds_row l r.
Proof.
  intros [x ->] [y ->] c Hc Hne.
  rewrite get_app, bool_decide_eq_true_2.
  - rewrite get_set_ne by done. by rewrite get_app, bool_decide_eq_true_2.
  - apply labels_set. rewrite fmap_app. apply elem_of_app. by left.
Qed.

Lemma prefix_set_prefix (l m r : row) :
  "_Outcode_gp" ∉ l.*1 →
  l `prefix_of` m →
  set "_Outcode_gp" (first_token (get "PostCode" m)) m `prefix_of` r →
  l `prefix_of` r.
Proof.
  intros Hl [x ->] [y ->]. rewrite set_app_l by done.
  rewrite <- app_assoc. by eexists.
Qed.

Lemma gp_core_row_labels cols raw : (gp_core_row cols raw).*1 = gp_core_columns.
Proof. reflexivity. Qed.

(** C1.  The outcode fallback never multiplies rows, whatever the
    reference table holds: the two-pass merge has the rows of the
    postcode merge, one for one and in their order, each holding the
    cells of its row.  When no two rows of the reference table have the
    same normalised postcode, every row of the primary table appears
    exactly once: the two-pass merge has as many rows as the primary
    table, and its i-th row holds the cells of the i-th primary row.  And
    for the primary table [run] builds, whose postcodes are all text, it
    is enough that no postcode occurs twice among the rows of the
    reference table that have one: the i-th row of the merge then begins
    with the i-th primary record itself. *)
Theorem two_pass_merge_cardinality (gp_core map_slim : frame) :
  (length (rows (two_pass_merge gp_core map_slim))
   = length (rows (merge_by_postcode gp_core map_slim)) ∧
   Forall2 holds_row (rows (merge_by_postcode gp_core map_slim))
     (rows (two_pass_merge gp_core map_slim))) ∧
  (NoDup (column "_PCD2_fmt" map_slim) →
   length (rows (two_pass_merge gp_core map_slim)) = length (rows gp_core) ∧
   Forall2 holds_row (rows gp_core) (rows (two_pass_merge gp_core map_slim))) ∧
  (∀ cols gp_raw,
     gp_core = gp_core_of cols gp_raw →
     NoDup (filter (λ v, is_str v) (column "_PCD2_fmt" map_slim)) →
     length (rows (two_pass_merge gp_core map_slim)) = length (rows gp_raw) ∧
     Forall2 (λ raw r, gp_core_row cols raw `prefix_of` r) (rows gp_raw)
       (rows (two_pass_merge gp_core map_slim))).
Proof.
  unfold two_pass_merge.
  pose proof (outcode_fallback_rows (merge_by_postcode gp_core map_slim) map_slim)
    as Hfallback.
  split_and!.
  - apply length_rows_outcode_fallback.
  - eapply Forall2_impl; [exact Hfallback|].
    intros m r Hr. by apply (holds_row_set_prefix m m r).
  - intros Hnd.
    assert (Forall2 (λ l m : row, l `prefix_of` m) (rows gp_core)
              (rows (merge_by_postcode gp_core map_slim))) as Hpostcode.
    { apply merge_left_single. intros l _. by apply filter_key_NoDup. }
    split.
    + rewrite length_rows_outcode_fallback. symmetry.
      by eapply Forall2_length.
    + eapply Forall2_compose; [|exact Hpostcode|exact Hfallback].
      intros l m r. apply holds_row_set_prefix.
  - intros cols gp_raw -> Hnd.
    assert (Forall2 (λ l m : row, l `prefix_of` m) (rows (gp_core_of cols gp_raw))
              (rows (merge_by_postcode (gp_core_of cols gp_raw) map_slim)))
      as Hpostcode.
    { apply merge_left_single.
      intros l (raw & -> & _)%list_elem_of_fmap.
      apply filter_key_NoDup_str; [done|apply format_uk_postcode_is_str]. }
    split.
    + rewrite length_rows_outcode_fallback.
      apply Forall2_length in Hpostcode. rewrite <- Hpostcode.
      apply length_fmap.
    + apply (proj1 (Forall2_fmap_l (gp_core_row cols)
                      (λ l r : row, l `prefix_of` r) (rows gp_raw) _)) in Hpostcode.
      eapply Forall2_compose; [|exact Hpostcode|exact Hfallback].
      intros raw m r. apply prefix_set_prefix.
      rewrite gp_core_row_labels. apply (bool_decide_unpack _). by vm_compute.
Qed.

(** C8.  The outcode table has no two rows with the same outcode; its rows
    are rows of the reference table in their order; under each outcode it
    holds the first row of the reference table with that outcode and
    nothing else; and the fallback join gives each row the cells of that
    first row, or missing cells when the outcode is not in the table. *)
Theorem outcode_table_first_occurrence (map_slim : frame) :
  let reference := drop_column "_PCD2_fmt" map_slim in
  let table := outcode_table map_slim in
  NoDup (column "_Outcode" table) ∧
  sublist (rows table) (rows reference) ∧
  (∀ k, filter (λ r, get "_Outcode" r = k) (rows table)
        = option_list (head (filter (λ r, get "_Outcode" r = k) (rows reference)))) ∧
  (∀ m1,
     let left := assign "_Outcode_gp" (λ r, first_token (get "PostCode" r)) m1 in
     rows (outcode_fallback m1 map_slim)
     = l ← rows left;
       [l ++ match head (filter (λ r, get "_Outcode" r = get "_Outcode_gp" l)
                                (rows reference)) with
             | Some r => prod_map (merged_label left "_oc") id <$> r
             | None => (λ c, (merged_label left "_oc" c, NaN)) <$> columns reference
             end]).
Proof.
  intros reference table. subst reference table. split_and!.
  - apply (drop_duplicates_go_NoDup "_Outcode" []).
  - apply (drop_duplicates_go_sublist "_Outcode" []).
  - intros k. unfold outcode_table, drop_duplicates. simpl.
    by rewrite drop_duplicates_go_filter, bool_decide_eq_false_2
      by apply not_elem_of_nil.
  - intros m1 left. subst left. unfold outcode_fallback.
    rewrite rows_merge_left.
    apply list_bind_ext; [|done]. intros l.
    unfold outcode_table. rewrite matches_drop_duplicates. unfold matches.
    by destruct (head _).
Qed.

End TwoPassMerge.

Section ReferenceTable.
Import PyStr Frame Practiceinformation.

Lemma with_outcode_label mapping :
  norm_header (with_outcode mapping).1 ∈ ["outcode"; "_outcode"].
Proof.
  unfold with_outcode.
  destruct (truthy _) eqn:Htr; simpl; [|by apply (bool_decide_unpack _); vm_compute].
  apply Is_true_true_2, truthy_Some in Htr as (c & Hc & _). rewrite Hc. simpl.
  apply pick_col_sound in Hc as (_ & cand & Hcand & ->).
  apply elem_of_cons in Hcand as [->|Hcand]; [by left|].
  apply elem_of_cons in Hcand as [->|Hcand]; [by left|].
  apply list_elem_of_singleton in Hcand as ->. by left.
Qed.

Lemma elem_of_keep_geo_cols picked out c :
  (out, Some c) ∈ picked → c ≠ "" → c ∈ keep_geo_cols picked.
Proof.
  intros Hin Hc. unfold keep_geo_cols. apply list_elem_of_omap.
  exists (out, Some c). split; [done|]. simpl.
  by rewrite bool_decide_eq_true_2.
Qed.

Lemma columns_map_slim_of picked OUTCODE_col mapping :
  columns (map_slim_of picked OUTCODE_col mapping)
  = (λ k, if bool_decide (k = OUTCODE_col) then "_Outcode" else k)
      <$> "_PCD2_fmt" :: OUTCODE_col :: keep_geo_cols picked.
Proof. done. Qed.

(** What [prepare_mapping] guarantees of a resolved geography header. *)
Lemma prepare_mapping_picked PCD2_col mapping picked map_slim out c :
  prepare_mapping PCD2_col mapping = (picked, map_slim) →
  (out, Some c) ∈ picked → c ≠ "" →
  c ∈ columns map_slim ∧ c ≠ "_PCD2_fmt" ∧
  ∀ out', out' ∈ picked.*1 → out' ≠ out → out' ≠ c ∧ out' ≠ (c +:+ "_oc").
Proof.
  unfold prepare_mapping.
  pose proof (with_outcode_label (with_postcode PCD2_col mapping)) as Hlabel.
  destruct (with_outcode _) as [OUTCODE_col mapping2]. simpl in Hlabel.
  intros Heq Hin Hc. apply pair_equal_spec in Heq as [<- <-].
  destruct (picked_fresh _ _ _ _ Hin eq_refl) as (Hfresh & Hkeys & _).
  assert (c ≠ OUTCODE_col) as Hoc.
  { intros ->. apply Hkeys.
    apply elem_of_cons in Hlabel as [->|Hlabel]; [apply list_elem_of_here|].
    apply list_elem_of_singleton in Hlabel as ->.
    apply list_elem_of_further, list_elem_of_here. }
  assert (c ≠ "_PCD2_fmt") as Hpc.
  { intros ->. apply Hkeys. by apply (bool_decide_unpack _); vm_compute. }
  split_and!; [|done|intros out' Hout'; rewrite pick_all_keys in Hout'; by apply Hfresh].
  rewrite columns_map_slim_of. apply list_elem_of_fmap. exists c.
  rewrite bool_decide_eq_false_2 by done. split; [done|].
  do 2 apply list_elem_of_further. by eapply elem_of_keep_geo_cols.
Qed.

(** The twin of a geography header is a label of the merged frame. *)
Lemma two_pass_merge_has_twin gp_core map_slim c :
  c ∈ columns map_slim → c ≠ "_PCD2_fmt" →
  c +:+ "_oc" ∈ columns (two_pass_merge gp_core map_slim).
Proof.
  intros Hc Hne. unfold two_pass_merge, outcode_fallback.
  rewrite columns_merge_left. apply elem_of_app. right.
  apply list_elem_of_fmap. exists c. split.
  - unfold merged_label. rewrite bool_decide_eq_true_2; [done|].
    apply columns_assign_subseteq. unfold merge_by_postcode.
    rewrite columns_merge_left.
    destruct (decide (c ∈ columns gp_core)) as [Hgp|Hgp];
      apply elem_of_app; [by left|right].
    apply list_elem_of_fmap. exists c. split; [|done].
    unfold merged_label. by rewrite bool_decide_eq_false_2.
  - unfold outcode_table, drop_duplicates, drop_column. simpl.
    by apply list_elem_of_filter.
Qed.

End ReferenceTable.

Section CoalescedFields.
Import PyStr Frame Practiceinformation.

Lemma first_nonnull_pair a b :
  first_nonnull [a; b] =
    match present a, present b with
    | Some x, _ => Str x
    | None, Some y => Str y
    | None, None => NaN
    end.
Proof.
  rewrite first_nonnull_present. simpl.
  by destruct (present a), (present b).
Qed.

Lemma coalesce_lookup_inv picked m i r :
  rows (coalesce picked m) !! i = Some r → is_Some (rows m !! i).
Proof.
  revert r. induction picked as [|[out col] picked IH] using rev_ind; intros r;
    [by eauto|].
  rewrite coalesce_snoc, coalesce_step_assign, rows_assign_lookup.
  destruct (rows (coalesce picked m) !! i) as [r1|] eqn:Hr1; [|done].
  intros _. by eapply IH.
Qed.

(** The coalesced cell of a resolved header, in the frame [run] builds. *)
Lemma merged_lookup gp_core mapping PCD2_col picked map_slim i r0 out col :
  prepare_mapping PCD2_col mapping = (picked, map_slim) →
  rows (two_pass_merge gp_core map_slim) !! i = Some r0 →
  (out, col) ∈ picked →
  ∃ r, rows (merged gp_core mapping PCD2_col) !! i = Some r ∧
       get out r =
         if truthy col
         then first_nonnull [get (default "" col) r0;
                             get (default "" col +:+ "_oc") r0]
         else NaN.
Proof.
  intros Hprep Hr0 Hin. unfold merged. rewrite Hprep.
  assert (picked.*1 = name_map.*1) as Hkeys.
  { unfold prepare_mapping in Hprep. destruct (with_outcode _).
    apply pair_equal_spec in Hprep as [<- _]. apply pick_all_keys. }
  destruct (coalesce_lookup picked (two_pass_merge gp_core map_slim)
              i r0 out col) as (r & Hr & Hget);
    [by rewrite Hkeys; apply name_map_keys_NoDup|done| |done|].
  - intros (c & -> & Hc)%truthy_Some.
    destruct (prepare_mapping_picked _ _ _ _ _ _ Hprep Hin Hc)
      as (Hcol & Hne & Hfresh).
    split; [|done]. by apply two_pass_merge_has_twin.
  - exists r. split; [done|]. rewrite Hget. unfold coalesced_cell.
    destruct (truthy col) eqn:Htr; [|done].
    apply Is_true_true_2, truthy_Some in Htr as (c & -> & Hc).
    destruct (prepare_mapping_picked _ _ _ _ _ _ Hprep Hin Hc)
      as (Hcol & Hne & _).
    rewrite bool_decide_eq_true_2; [done|].
    by apply two_pass_merge_has_twin.
Qed.

(** C2, as the code has it.  In the frame [run] builds, the cell under an
    output label is, for a resolved header, the trimmed text of the cell
    the merge by postcode left under the header when that cell is present,
    otherwise the trimmed text of the cell the outcode fallback left under
    the twin of the header when that one is present, otherwise missing;
    for an unresolved header it is missing.  [r0] is the row before the
    coalescing loop and [r] the same row after it. *)
Theorem coalesce_priority gp_core mapping PCD2_col picked map_slim i r0 out col :
  prepare_mapping PCD2_col mapping = (picked, map_slim) →
  rows (two_pass_merge gp_core map_slim) !! i = Some r0 →
  (out, col) ∈ picked →
  ∃ r, rows (merged gp_core mapping PCD2_col) !! i = Some r ∧
       get out r =
         if truthy col then
           match present (get (default "" col) r0),
                 present (get (default "" col +:+ "_oc") r0) with
           | Some x, _ => Str x
           | None, Some y => Str y
           | None, None => NaN
           end
         else NaN.
Proof.
  intros Hprep Hr0 Hin.
  destruct (merged_lookup gp_core _ _ _ _ _ _ _ _ Hprep Hr0 Hin) as (r & Hr & Hget).
  exists r. split; [done|]. rewrite Hget.
  destruct (truthy col); [apply first_nonnull_pair|done].
Qed.

Lemma get_select_row c cs r :
  c ∈ cs → get c ((λ k, (k, get k r)) <$> cs) = get c r.
Proof.
  induction cs as [|k cs IH]; [by intros ?%elem_of_nil|].
  intros Hin. simpl. case_bool_decide as Hk; [by subst|].
  apply IH. apply elem_of_cons in Hin as [->|Hin]; done.
Qed.

Lemma name_map_keys_final : name_map.*1 ⊆ final_cols.
Proof. apply (bool_decide_unpack _). by vm_compute. Qed.

Lemma merged_clean gp_core mapping PCD2_col out r :
  out ∈ name_map.*1 → r ∈ rows (merged gp_core mapping PCD2_col) →
  clean (get out r).
Proof.
  intros Hout [i Hr]%list_elem_of_lookup.
  destruct (prepare_mapping PCD2_col mapping) as [picked map_slim] eqn:Hprep.
  assert (picked.*1 = name_map.*1) as Hkeys.
  { unfold prepare_mapping in Hprep. destruct (with_outcode _).
    apply pair_equal_spec in Hprep as [<- _]. apply pick_all_keys. }
  rewrite <- Hkeys in Hout.
  apply list_elem_of_fmap in Hout as ([out' col] & -> & Hin). simpl.
  assert (is_Some (rows (two_pass_merge gp_core map_slim) !! i)) as [r0 Hr0].
  { unfold merged in Hr. rewrite Hprep in Hr. by eapply coalesce_lookup_inv. }
  destruct (merged_lookup gp_core _ _ _ _ _ _ _ _ Hprep Hr0 Hin)
    as (r' & Hr' & Hget).
  rewrite Hr in Hr'. injection Hr' as <-. rewrite Hget.
  destruct (truthy col); [apply first_nonnull_clean|by left].
Qed.

Lemma columns_merged_keys gp_core mapping PCD2_col out :
  out ∈ name_map.*1 → out ∈ columns (merged gp_core mapping PCD2_col).
Proof.
  intros Hout. unfold merged.
  destruct (prepare_mapping PCD2_col mapping) as [picked map_slim] eqn:Hprep.
  apply elem_of_columns_coalesce.
  unfold prepare_mapping in Hprep. destruct (with_outcode _).
  apply pair_equal_spec in Hprep as [<- _]. by rewrite pick_all_keys.
Qed.

Lemma england_filter_rows picked m2 log m2_eng :
  england_filter picked m2 = (log, m2_eng) →
  columns m2_eng = columns m2 ∧ rows m2_eng ⊆ rows m2.
Proof.
  unfold england_filter. destruct (truthy _); intros [= <- <-]; [|done].
  split; [done|]. intros r. unfold where_. simpl.
  rewrite list_elem_of_In, List.filter_In, <- list_elem_of_In. tauto.
Qed.

(** C10.  [first_nonnull] returns the trimmed text of its first argument
    that is present, the missing marker when there is none; so what it
    returns is missing or is text that is neither empty nor has whitespace
    at an end.  And in the table [run] writes, every cell under an output
    label of [name_map] is of that kind. *)
Theorem coalesced_fields_clean :
  (∀ vals, first_nonnull vals = from_option Str NaN (head (omap present vals))) ∧
  (∀ vals, clean (first_nonnull vals)) ∧
  (∀ gp_file map_file log out_df out r,
     run gp_file map_file = (log, Returned out_df) →
     out ∈ name_map.*1 → r ∈ rows out_df →
     clean (get out r)).
Proof.
  split_and!; [apply first_nonnull_present|apply first_nonnull_clean|].
  intros gp_file map_file log out_df out r Hrun Hout Hr.
  unfold run in Hrun.
  destruct gp_file as [gp_raw|]; [|done].
  destruct (missing_required _); [|done].
  destruct map_file as [mapping|]; [|done].
  destruct (truthy (pick_postcode_column mapping)); [|done].
  set (c := default "" (pick_postcode_column mapping)) in *.
  set (gp_core := gp_core_of _ gp_raw) in *.
  destruct (postcode_column_raises _ _ _); [done|].
  destruct (england_filter _ _) as [log' m2_eng] eqn:Heng.
  apply england_filter_rows in Heng as [Hcols Hrows].
  injection Hrun as <- <-.
  unfold out_df_of, select in Hr. simpl in Hr.
  apply list_elem_of_fmap in Hr as (r' & -> & Hr').
  rewrite get_select_row.
  - eapply merged_clean; [done|]. by apply Hrows.
  - apply list_elem_of_filter. split; [|by apply name_map_keys_final].
    rewrite Hcols. by apply columns_merged_keys.
Qed.

End CoalescedFields.

Section MergerExamples.
Import PyStr Frame Practiceinformation.

(** C1 at the worked example: four reference rows, two outcodes shared by
    two rows each, no postcode twice; three practices in, three rows out,
    the i-th of which begins with the i-th practice record. *)
Lemma two_pass_merge_cardinality_witness :
  NoDup (column "_PCD2_fmt" example_map_slim) ∧
  length (rows (two_pass_merge example_gp_core example_map_slim)) = 3 ∧
  Forall2 holds_row (rows example_gp_core)
    (rows (two_pass_merge example_gp_core example_map_slim)) ∧
  length (rows (two_pass_merge example_gp_core example_map_slim))
  = length (rows example_gp) ∧
  Forall2 (λ raw r, gp_core_row (pick_all example_gp want_map) raw `prefix_of` r)
    (rows example_gp)
    (rows (two_pass_merge example_gp_core example_map_slim)).
Proof.
  assert (NoDup (column "_PCD2_fmt" example_map_slim)) as Hnd
    by (apply (bool_decide_unpack _); vm_compute; exact I).
  destruct (two_pass_merge_cardinality example_gp_core example_map_slim)
    as (_ & Hrows & Hrun).
  split; [exact Hnd|].
  destruct (Hrows Hnd) as [Hlength Hheld].
  split; [exact Hlength|]. split; [exact Hheld|].
  apply (Hrun (pick_all example_gp want_map) example_gp); [reflexivity|].
  apply (bool_decide_unpack _). vm_compute. exact I.
Defined.

(** C2 at the worked example: the first practice matches a reference row
    by postcode and another one by outcode, and takes the trimmed region
    of the former. *)
Lemma coalesce_priority_witness :
  ∃ r, rows (merged example_gp_core example_mapping "PCD2") !! 0 = Some r ∧
       get "RegionName" r = Str "London".
Proof.
  destruct (coalesce_priority example_gp_core example_mapping "PCD2"
              (prepare_mapping "PCD2" example_mapping).1 example_map_slim 0
              (default [] (rows (two_pass_merge example_gp_core example_map_slim) !! 0))
              "RegionName" (Some "RegionName")) as (r & Hr & Hget).
  - vm_compute. reflexivity.
  - vm_compute. reflexivity.
  - apply (bool_decide_unpack _). vm_compute. exact I.
  - exists r. split; [exact Hr|]. rewrite Hget. vm_compute. reflexivity.
Defined.

(** C2 as stated fails where the value of the postcode join has
    whitespace around it: that value is present, and the coalesced value
    is its trimmed form, not the value itself. *)
Lemma coalesced_value_is_trimmed :
  get "RegionName" <$> rows (two_pass_merge example_gp_core example_map_slim) !! 0
  = Some (Str " London ") ∧
  get "RegionName_oc" <$> rows (two_pass_merge example_gp_core example_map_slim) !! 0
  = Some (Str "Westminster") ∧
  get "RegionName" <$> rows (merged example_gp_core example_mapping "PCD2") !! 0
  = Some (Str "London").
Proof. by vm_compute. Qed.

(** C10 at the worked example. *)
Lemma coalesced_fields_clean_witness :
  ∃ log out_df,
    run (Some example_gp) (Some example_mapping) = (log, Returned out_df) ∧
    Forall (λ r, clean (get "CountryName" r)) (rows out_df).
Proof.
  eexists _, _. split; [vm_compute; reflexivity|].
  apply Forall_forall. intros r Hr.
  destruct coalesced_fields_clean as (_ & _ & Hrun).
  eapply (Hrun (Some example_gp) (Some example_mapping)).
  - vm_compute. reflexivity.
  - apply (bool_decide_unpack _). vm_compute. exact I.
  - exact Hr.
Defined.

End MergerExamples.

(** ** The aggregator *)

Section Aggregator.
Import PyStr Numeric gppatientregister.

Lemma wrap64_add_l a b : wrap64 (wrap64 a + b) = wrap64 (a + b).
Proof.
  unfold wrap64.
  replace ((a + 2 ^ 63) `mod` 2 ^ 64 - 2 ^ 63 + b + 2 ^ 63)%Z
    with ((a + 2 ^ 63) `mod` 2 ^ 64 + b)%Z by lia.
  rewrite Zplus_mod_idemp_l. f_equal. f_equal. lia.
Qed.

Lemma wrap64_small z : (- 2 ^ 63 ≤ z < 2 ^ 63)%Z → wrap64 z = z.
Proof. intros Hz. unfold wrap64. rewrite Z.mod_small; lia. Qed.

Lemma key_le_trans : Transitive key_le.
Proof.
  intros [a1 a2] [b1 b2] [c1 c2]. unfold key_le. simpl.
  intros [[Hab1 Hab2]|[-> Hab2]] [[Hbc1 Hbc2]|[-> Hbc2]].
  - left. split; [|by etrans].
    intros ->. apply Hab1. by apply (anti_symm String.le).
  - left. done.
  - left. done.
  - right. split; [done|by etrans].
Qed.

Lemma key_le_total : Total key_le.
Proof.
  intros [a1 a2] [b1 b2]. unfold key_le. simpl.
  destruct (decide (a1 = b1)) as [->|Hne].
  - destruct (total String.le a2 b2); [left|right]; right; done.
  - destruct (total String.le a1 b1); [left|right]; left; split; done.
Qed.

Lemma key_le_antisym a b : key_le a b → key_le b a → a = b.
Proof.
  destruct a as [a1 a2], b as [b1 b2]. unfold key_le. simpl.
  intros [[H1 H2]|[-> H2]] [[H3 H4]|[H3 H4]]; try done.
  - destruct H1. by apply (anti_symm String.le).
  - f_equal. by apply (anti_symm String.le).
Qed.

Lemma group_le_trans : Transitive group_le.
Proof. intros a b c. unfold group_le. apply key_le_trans. Qed.

Lemma group_le_total : Total group_le.
Proof. intros a b. unfold group_le. apply key_le_total. Qed.

Lemma foldr_add_app l1 l2 :
  foldr Z.add 0%Z (l1 ++ l2) = (foldr Z.add 0%Z l1 + foldr Z.add 0%Z l2)%Z.
Proof. induction l1 as [|z l1 IH]; simpl; lia. Qed.

Lemma group_total_snoc k combined r :
  group_total k (combined ++ [r])
  = (group_total k combined
     + if bool_decide (group_key r = Some k) then NumberOfPatients r else 0)%Z.
Proof.
  unfold group_total.
  rewrite filter_app, fmap_app, foldr_add_app, filter_cons, filter_nil.
  case_bool_decide as Hk.
  - rewrite decide_True by done. simpl. lia.
  - rewrite decide_False by done. simpl. lia.
Qed.

Lemma group_total_absent k combined :
  k ∉ group_keys combined → group_total k combined = 0%Z.
Proof.
  intros Hk. unfold group_total. rewrite filter_none; [done|].
  intros r Hr Hkey. apply Hk. apply list_elem_of_omap. eauto.
Qed.

Lemma group_keys_snoc combined r :
  group_keys (combined ++ [r]) = group_keys combined ++ option_list (group_key r).
Proof.
  unfold group_keys. rewrite omap_app. simpl. by destruct (group_key r).
Qed.

(** The running sums after all the rows: each key that occurs has the
    wrapped total of its group. *)
Lemma foldl_add_row_lookup combined k :
  foldl add_row ∅ combined !! k
  = if bool_decide (k ∈ group_keys combined)
    then Some (wrap64 (group_total k combined)) else None.
Proof.
  induction combined as [|r combined IH] using rev_ind.
  - unfold group_keys. simpl. by rewrite lookup_empty.
  - rewrite foldl_snoc, group_total_snoc, group_keys_snoc.
    unfold add_row at 1. destruct (group_key r) as [k'|] eqn:Hr; simpl.
    + destruct (decide (k' = k)) as [->|Hne].
      * rewrite lookup_insert_eq, IH.
        rewrite (bool_decide_eq_true_2 (Some k = Some k)) by done.
        rewrite (bool_decide_eq_true_2 (k ∈ _ ++ [k]))
          by (apply elem_of_app; right; apply list_elem_of_here).
        case_bool_decide as Hk; simpl; f_equal.
        -- apply wrap64_add_l.
        -- by rewrite group_total_absent.
      * rewrite lookup_insert_ne, IH by done.
        rewrite (bool_decide_eq_false_2 (Some k' = Some k)) by congruence.
        rewrite Z.add_0_r.
        destruct (decide (k ∈ group_keys combined)) as [Hk|Hk].
        -- rewrite !bool_decide_eq_true_2; [done| |done].
           apply elem_of_app. by left.
        -- rewrite !bool_decide_eq_false_2; [done| |done].
           intros [?|?%list_elem_of_singleton]%elem_of_app; by subst.
    + by rewrite app_nil_r, IH, Z.add_0_r.
Qed.

Lemma sorted_groups_Permutation combined :
  sorted_groups combined ≡ₚ map_to_list (foldl add_row ∅ combined).
Proof. unfold sorted_groups. by rewrite !merge_sort_Permutation. Qed.

Lemma elem_of_sorted_groups combined k n :
  (k, n) ∈ sorted_groups combined ↔
  k ∈ group_keys combined ∧ n = wrap64 (group_total k combined).
Proof.
  rewrite sorted_groups_Permutation, elem_of_map_to_list, foldl_add_row_lookup.
  case_bool_decide as Hk; split.
  - by intros [= <-].
  - by intros [_ ->].
  - done.
  - by intros [? _].
Qed.

(** What [groupby_sum] returns, group by group. *)
Lemma groupby_sum_groups combined :
  groupby_sum combined = record_of <$> sorted_groups combined ∧
  StronglySorted group_le (sorted_groups combined) ∧
  NoDup (sorted_groups combined).*1 ∧
  (∀ k n, (k, n) ∈ sorted_groups combined ↔
          k ∈ group_keys combined ∧ n = wrap64 (group_total k combined)).
Proof.
  split_and!.
  - unfold groupby_sum, sorted_groups. apply list_fmap_ext. by intros _ [[] ?] _.
  - apply @StronglySorted_merge_sort; [apply group_le_trans|apply group_le_total].
  - rewrite sorted_groups_Permutation. apply NoDup_fst_map_to_list.
  - apply elem_of_sorted_groups.
Qed.

End Aggregator.

Section Reading.
Import PyStr Numeric gppatientregister.

Context (to_datetime : string → option string) (to_numeric : string → option Z).

Lemma all_ok_Raise {A} (l : list (option A)) e :
  all_ok l = Raise e → e = ValueError ∧ None ∈ l.
Proof.
  induction l as [|[a|] l IH]; simpl; [done| |].
  - destruct (all_ok l); [done|]. intros [= ->].
    destruct IH as [-> Hin]; [done|]. split; [done|by apply list_elem_of_further].
  - intros [= <-]. split; [done|apply list_elem_of_here].
Qed.

Lemma all_ok_Ok {A} (l : list (option A)) l' :
  all_ok l = Ok l' ↔ l = Some <$> l'.
Proof.
  revert l'. induction l as [|[a|] l IH]; intros l'; simpl.
  - split; [by intros [= <-]|]. by destruct l'.
  - destruct (all_ok l) as [l''|e] eqn:Hl.
    + split.
      * intros [= <-]. rewrite fmap_cons. f_equal. by apply IH.
      * destruct l' as [|a' l']; [done|]. rewrite fmap_cons.
        intros [= -> Hl']. f_equal. f_equal. apply IH in Hl'. congruence.
    + split; [done|]. destruct l' as [|a' l']; [done|]. rewrite fmap_cons.
      intros [= -> Hl']. apply IH in Hl'. done.
  - split; [done|]. by destruct l'.
Qed.

Lemma all_ok_None {A} (l : list (option A)) :
  None ∈ l → all_ok l = Raise ValueError.
Proof.
  intros Hin. destruct (all_ok l) as [l'|e] eqn:Hl.
  - apply all_ok_Ok in Hl as ->.
    apply list_elem_of_fmap in Hin as (? & ? & ?). done.
  - by apply all_ok_Raise in Hl as [-> _].
Qed.

(** [to_int] raises exactly when some value does not read as a number,
    and otherwise returns the numbers read, value by value. *)
Lemma to_int_Raise series :
  to_int to_numeric series = Raise ValueError ↔
  ∃ v, v ∈ series ∧ to_numeric (cleaned v) = None.
Proof.
  unfold to_int. split.
  - intros [_ Hin]%all_ok_Raise.
    apply list_elem_of_fmap in Hin as (v & Hv & Hin). eauto.
  - intros (v & Hin & Hv). apply all_ok_None.
    apply list_elem_of_fmap. eauto.
Qed.

Lemma to_int_Ok series ns :
  to_int to_numeric series = Ok ns →
  Forall2 (λ v n, to_numeric (cleaned v) = Some n) series ns.
Proof.
  unfold to_int. intros Heq%all_ok_Ok.
  revert ns Heq. induction series as [|v series IH]; intros [|n ns]; try done.
  rewrite !fmap_cons. intros [= Hv Hns]. constructor; [done|by apply IH].
Qed.

Lemma read_one_csv_unparseable df raw :
  raw ∈ df → to_numeric (cleaned (NUMBER_OF_PATIENTS raw)) = None →
  ∃ e, read_one_csv to_datetime to_numeric (Some df) = Raise e.
Proof.
  intros Hin Hraw. unfold read_one_csv.
  destruct (parse_yearmonth _ _) as [yms|e]; [|by eauto].
  assert (to_int to_numeric (NUMBER_OF_PATIENTS <$> df) = Raise ValueError) as ->.
  { apply to_int_Raise. exists (NUMBER_OF_PATIENTS raw).
    split; [by apply list_elem_of_fmap_2|done]. }
  eauto.
Qed.

(** A file that cannot be read stops the loop with an error record. *)
Lemma read_all_Raise files file :
  file ∈ files →
  (∃ e, read_one_csv to_datetime to_numeric file = Raise e) →
  ∃ log e, read_all to_datetime to_numeric files = (log, Raise e) ∧
           logs_error log.
Proof.
  intros Hin Hbad. induction files as [|f files IH]; [by apply elem_of_nil in Hin|].
  simpl. destruct (read_one_csv _ _ f) as [part|e] eqn:Hf.
  - apply elem_of_cons in Hin as [->|Hin].
    { destruct Hbad as [e He]. congruence. }
    destruct (IH Hin) as (log & e & -> & Hlog). eauto.
  - eexists _, _. split; [done|]. eexists. apply list_elem_of_here.
Qed.

Lemma read_all_Ok files log parts :
  read_all to_datetime to_numeric files = (log, Ok parts) →
  Forall2 (λ file part, read_one_csv to_datetime to_numeric file = Ok part)
          files parts.
Proof.
  revert log parts. induction files as [|f files IH]; intros log parts; simpl.
  - intros [= <- <-]. constructor.
  - destruct (read_one_csv _ _ f) as [part|e] eqn:Hf; [|done].
    destruct (read_all _ _ files) as [log' [parts'|e]] eqn:Hfiles; [|done].
    intros [= <- <-]. constructor; [done|]. by eapply IH.
Qed.

Lemma read_one_csv_Ok file part :
  read_one_csv to_datetime to_numeric file = Ok part →
  ∃ df, file = Some df ∧
    Forall2 (λ raw rec,
               to_datetime (strip (py_str (EXTRACT_DATE raw))) = Some (YearMonth rec) ∧
               PracticeCode rec = CODE raw ∧
               to_numeric (cleaned (NUMBER_OF_PATIENTS raw))
               = Some (NumberOfPatients rec)) df part.
Proof.
  destruct file as [df|]; [|done]. simpl. intros Hread. exists df. split; [done|].
  destruct (parse_yearmonth _ _) as [yms|] eqn:Hyms; [|done].
  destruct (to_int _ _) as [ns|] eqn:Hns; [|done].
  injection Hread as <-.
  apply all_ok_Ok in Hyms. apply to_int_Ok in Hns.
  revert yms ns Hyms Hns. induction df as [|raw df IH]; intros yms ns Hyms Hns.
  - destruct yms; [|done]. inversion Hns; subst. constructor.
  - destruct yms as [|ym yms]; [done|].
    rewrite !fmap_cons in Hyms, Hns. injection Hyms as Hym Hyms.
    inversion Hns as [|? n ? ns' Hn Hns']; subst. simpl.
    constructor; [done|]. by apply IH.
Qed.

End Reading.

Section AggregatorClaims.
Import PyStr Frame Numeric gppatientregister.

(** C7, as the code has it.  When [aggregate_all] returns, its records are
    those of the groups of the rows read: the rows whose practice code is
    missing are in no group; there is exactly one group for each pair of
    [YearMonth] and present [PracticeCode] that occurs, holding the sum of
    [NumberOfPatients] over the rows of the pair, as a 64-bit integer (the
    sum itself when it fits); and the groups come in ascending order of
    [YearMonth], then of [PracticeCode].  The two rows of the example
    aggregate to the single record (202309, A001, 1500). *)
Theorem aggregate_all_groups :
  (∀ to_datetime to_numeric files log agg,
     aggregate_all to_datetime to_numeric files = (log, Ok agg) →
     ∃ parts,
       Forall2 (λ file part,
                  ∃ df, file = Some df ∧
                        Forall2 (reads to_datetime to_numeric) df part)
               files parts ∧
       agg = record_of <$> sorted_groups (concat parts) ∧
       StronglySorted group_le (sorted_groups (concat parts)) ∧
       NoDup (sorted_groups (concat parts)).*1 ∧
       (∀ k n, (k, n) ∈ sorted_groups (concat parts) ↔
               k ∈ group_keys (concat parts) ∧
               n = wrap64 (group_total k (concat parts))) ∧
       (∀ k, (- 2 ^ 63 ≤ group_total k (concat parts) < 2 ^ 63)%Z →
             wrap64 (group_total k (concat parts))
             = group_total k (concat parts))) ∧
  aggregate_all yearmonth_of_date decimal_literal [Some example_file]
  = ([], Ok [mkRecord "202309" (Str "A001") 1500]).
Proof.
  split; [|by vm_compute].
  intros to_datetime to_numeric files log agg. unfold aggregate_all.
  destruct (read_all _ _ files) as [log' [parts|e]] eqn:Hread; [|done].
  destruct parts as [|part parts]; [done|]. intros [= <- <-].
  exists (part :: parts). split.
  - apply read_all_Ok in Hread.
    eapply Forall2_impl; [exact Hread|]. intros file p Hp.
    by apply read_one_csv_Ok.
  - destruct (groupby_sum_groups (concat (part :: parts)))
      as (Hagg & Hsorted & Hnodup & Hmem).
    split_and!; [done..|]. intros k. apply wrap64_small.
Qed.

Lemma aggregate_all_groups_witness :
  ∃ parts,
    Forall2 (λ file part,
               ∃ df, file = Some df ∧
                     Forall2 (reads yearmonth_of_date decimal_literal) df part)
            [Some example_file; Some example_file_no_code] parts ∧
    [mkRecord "202309" (Str "A001") 1500]
    = record_of <$> sorted_groups (concat parts).
Proof.
  destruct aggregate_all_groups as [Hgroups _].
  destruct (Hgroups yearmonth_of_date decimal_literal
              [Some example_file; Some example_file_no_code] []
              [mkRecord "202309" (Str "A001") 1500])
    as (parts & Hparts & Hagg & _); [by vm_compute|].
  by exists parts.
Defined.

(** C7 as stated fails on a row without practice code: its pair of
    [YearMonth] and [PracticeCode] has no record in the aggregate. *)
Lemma aggregate_all_drops_missing_code :
  aggregate_all yearmonth_of_date decimal_literal [Some example_file_no_code]
  = ([], Ok []).
Proof. by vm_compute. Qed.

(** C5, as the code has it.  In the patient-register script [to_int]
    raises exactly when some value does not read as a number once commas
    are removed and the text is trimmed, and otherwise returns the numbers
    read; a file with such a value ends [main] with a non-zero status, an
    error record and nothing written.  In the workforce script a value
    that does not read as a number counts for 0. *)
Theorem unparseable_number :
  (∀ to_numeric series,
     to_int to_numeric series = Raise ValueError ↔
     ∃ v, v ∈ series ∧ to_numeric (cleaned v) = None) ∧
  (∀ to_numeric series ns,
     to_int to_numeric series = Ok ns →
     Forall2 (λ v n, to_numeric (cleaned v) = Some n) series ns) ∧
  (∀ to_datetime to_numeric files df raw,
     Some df ∈ files → raw ∈ df →
     to_numeric (cleaned (NUMBER_OF_PATIENTS raw)) = None →
     let p := main to_datetime to_numeric files in
     exit_code p = 1%Z ∧ written p = None ∧ logs_error (log p)) ∧
  (∀ to_numeric s,
     to_numeric s = None → gpcountwithage.to_count to_numeric (Str s) = 0%Z).
Proof.
  split_and!.
  - apply to_int_Raise.
  - apply to_int_Ok.
  - intros to_datetime to_numeric files df raw Hdf Hraw Hbad p. subst p.
    destruct (read_all_Raise to_datetime to_numeric files (Some df) Hdf)
      as (log & e & Hread & Hlog); [by eapply read_one_csv_unparseable|].
    unfold main, aggregate_all. rewrite Hread.
    destruct files; [by apply elem_of_nil in Hdf|]. done.
  - intros to_numeric s Hs. simpl. by rewrite Hs.
Qed.

Lemma unparseable_number_witness :
  (let p := main yearmonth_of_date decimal_literal
              [Some example_file; Some example_file_not_a_number] in
   exit_code p = 1%Z ∧ written p = None ∧ logs_error (log p)) ∧
  Forall2 (λ v n, decimal_literal (cleaned v) = Some n)
          [Str "1,200"; Str " 300 "] [1200%Z; 300%Z] ∧
  gpcountwithage.to_count decimal_literal (Str "unknown") = 0%Z.
Proof.
  destruct unparseable_number as (_ & Hok & Hmain & Hcount).
  split_and!.
  - apply (Hmain yearmonth_of_date decimal_literal _ example_file_not_a_number
             (mkRaw (Str "01-Sep-23") (Str "B002") (Str "unknown"))).
    + apply list_elem_of_further, list_elem_of_here.
    + apply list_elem_of_further, list_elem_of_here.
    + vm_compute. reflexivity.
  - apply (Hok decimal_literal). vm_compute. reflexivity.
  - apply Hcount. vm_compute. reflexivity.
Defined.

(** C5 as stated fails for the workforce script: a missing headcount and
    the text ["unknown"] are no numbers, yet the conversion goes through,
    with 0 in their place. *)
Lemma workforce_coerces_unparseable :
  decimal_literal "unknown" = None ∧
  gpcountwithage.convert decimal_literal
    ["TOTAL_GP_HC_U25"; "TOTAL_GP_HC_25_29"] gpcountwithage.example_workforce
  = {| columns := ["PRAC_CODE"; "TOTAL_GP_HC_U25"; "TOTAL_GP_HC_25_29"; "TotalGP"];
       rows := [ [("PRAC_CODE", Str "A001"); ("TOTAL_GP_HC_U25", Num 0);
                  ("TOTAL_GP_HC_25_29", Num 3); ("TotalGP", Num 3)];
                 [("PRAC_CODE", Str "B002"); ("TOTAL_GP_HC_U25", Num 0);
                  ("TOTAL_GP_HC_25_29", Num 4); ("TotalGP", Num 4)] ] |}.
Proof. by vm_compute. Qed.

End AggregatorClaims.

(* ===================================================================== *)
(** * Part III: further properties of the scripts *)
(* ===================================================================== *)

(** ** Postcode keys *)

Section PostcodeKeys.
Import PyStr Frame Practiceinformation.

Lemma format_uk_postcode_compact p v :
  format_uk_postcode (Str p) = Str v →
  compact_chars (chars v) = compact_chars (chars p).
Proof.
  rewrite (format_uk_postcode_chars p _ eq_refl).
  case_bool_decide; intros [= <-]; rewrite chars_text.
  - apply compact_chars_spaced.
  - apply compact_chars_idemp.
Qed.

(** X1.  Two postcodes normalise to the same text exactly when they agree
    once upper-cased and stripped of whitespace; so the join by postcode
    sees neither the case nor the spacing of the raw postcodes. *)
Theorem format_uk_postcode_eq_iff (p q : string) :
  format_uk_postcode (Str p) = format_uk_postcode (Str q) ↔
  compact_chars (chars p) = compact_chars (chars q).
Proof.
  split.
  - intros Heq.
    destruct (format_uk_postcode (Str q)) as [v| | |] eqn:Hq;
      try (by rewrite (format_uk_postcode_chars q _ eq_refl) in Hq;
           case_bool_decide).
    apply format_uk_postcode_compact in Heq, Hq. congruence.
  - intros Heq.
    rewrite (format_uk_postcode_chars p _ eq_refl),
      (format_uk_postcode_chars q _ eq_refl). by rewrite Heq.
Qed.

End PostcodeKeys.

(** ** Outcodes *)

Section Outcodes.
Import PyStr Frame Practiceinformation.

Lemma split_go_nonspace cur l :
  Forall nonspace l →
  split_go cur l
  = match reverse cur ++ l with [] => [] | t => [text t] end.
Proof.
  intros Hl. revert cur. induction Hl as [|c l Hc _ IH]; intros cur; simpl.
  - rewrite app_nil_r. destruct cur as [|a cur]; [done|].
    rewrite reverse_cons. by destruct (reverse cur).
  - unfold nonspace in Hc. rewrite Hc, IH, reverse_cons, <- app_assoc. done.
Qed.

Lemma split_go_space cur l1 l2 :
  Forall nonspace l1 →
  split_go cur (l1 ++ " "%char :: l2)
  = match reverse cur ++ l1 with [] => [] | t => [text t] end
    ++ split_go [] l2.
Proof.
  intros Hl. revert cur. induction Hl as [|c l Hc _ IH]; intros cur; simpl.
  - rewrite app_nil_r. destruct cur as [|a cur]; [done|].
    rewrite reverse_cons. by destruct (reverse cur).
  - unfold nonspace in Hc. rewrite Hc, IH, reverse_cons, <- app_assoc. done.
Qed.

(** X2.  The fallback key of a postcode: with [c] its upper-cased text
    without whitespace, it is [c] without its last three characters when
    [c] has at least 5, all of [c] when [c] is shorter and not empty, and
    missing when the postcode is blank. *)
Theorem outcode_of_postcode (p : string) :
  first_token (format_uk_postcode (Str p))
  = let c := compact_chars (chars p) in
    if bool_decide (5 ≤ length c) then Str (text (take (length c - 3) c))
    else if bool_decide (c = []) then NaN else Str (text c).
Proof.
  cbv zeta. set (c := compact_chars (chars p)).
  pose proof (compact_chars_nonspace (chars p)) as Hc. fold c in Hc.
  rewrite (format_uk_postcode_chars p c eq_refl).
  case_bool_decide as Hlen; unfold first_token, split; rewrite chars_text.
  - rewrite split_go_space by by apply Forall_take. simpl.
    destruct (take (length c - 3) c) as [|a t] eqn:Ht; [|done].
    apply (f_equal length) in Ht. rewrite length_take in Ht. simpl in Ht. lia.
  - rewrite split_go_nonspace by done. simpl.
    case_bool_decide as Hnil; [by rewrite Hnil|]. by destruct c.
Qed.

End Outcodes.

(** ** The algebra of coalescing *)

Section CoalescingAlgebra.
Import PyStr Frame Practiceinformation.

Lemma present_Str_trimmed s : s ≠ "" → trimmed s → present (Str s) = Some s.
Proof.
  intros Hne Htr. simpl. rewrite (trimmed_strip s Htr).
  by rewrite bool_decide_eq_true_2.
Qed.

(** What is present in the result of [first_nonnull] is the first present
    text of its arguments. *)
Lemma present_first_nonnull vals :
  present (first_nonnull vals) = head (omap present vals).
Proof.
  rewrite first_nonnull_present.
  destruct (head (omap present vals)) as [s|] eqn:Hh; [|done]. simpl.
  apply head_Some_elem_of, list_elem_of_omap in Hh as (v & _ & Hv).
  apply present_trimmed in Hv as [? ?]. by apply present_Str_trimmed.
Qed.

Lemma omap_cons_option_list {A B} (f : A → option B) a l :
  omap f (a :: l) = option_list (f a) ++ omap f l.
Proof. simpl. by destruct (f a). Qed.

(** X3.  Coalescing in stages is coalescing at once: the first present
    value of a list of values is the first present one among the first
    present values of its two parts; in particular coalescing a coalesced
    value alone gives it back. *)
Theorem first_nonnull_app (vals1 vals2 : list value) :
  first_nonnull (vals1 ++ vals2)
  = first_nonnull [first_nonnull vals1; first_nonnull vals2] ∧
  first_nonnull [first_nonnull vals1] = first_nonnull vals1.
Proof.
  split.
  - rewrite (first_nonnull_present (vals1 ++ vals2)),
      (first_nonnull_present [_; _]), omap_app.
    rewrite !omap_cons_option_list, !present_first_nonnull.
    destruct (omap present vals1) as [|s l1]; simpl; [|done].
    by destruct (head (omap present vals2)).
  - rewrite (first_nonnull_present [_]).
    rewrite omap_cons_option_list, present_first_nonnull,
      (first_nonnull_present vals1).
    by destruct (head (omap present vals1)).
Qed.

End CoalescingAlgebra.

(** ** Addresses *)

Section Addresses.
Import PyStr Frame Practiceinformation.

Lemma filter_nonspace_collapse_go b l :
  filter nonspace (collapse_go b l) = filter nonspace l.
Proof.
  revert b. induction l as [|c l IH]; intros b; simpl; [done|].
  destruct (isspace c) eqn:Hc.
  - rewrite (filter_cons_False _ c l) by (unfold nonspace; congruence).
    destruct b; [apply IH|].
    rewrite filter_cons_False by (by intros ?). apply IH.
  - rewrite !filter_cons_True by done. by rewrite IH.
Qed.

Lemma filter_nonspace_lstrip l :
  filter nonspace (lstrip_chars l) = filter nonspace l.
Proof.
  induction l as [|c l IH]; simpl; [done|].
  destruct (isspace c) eqn:Hc; [|done].
  by rewrite IH, (filter_cons_False _ c l) by (unfold nonspace; congruence).
Qed.

Lemma filter_nonspace_rstrip l :
  filter nonspace (rstrip_chars l) = filter nonspace l.
Proof.
  unfold rstrip_chars.
  by rewrite filter_reverse, filter_nonspace_lstrip, filter_reverse,
    reverse_involutive.
Qed.

Lemma filter_nonspace_strip s :
  filter nonspace (chars (strip s)) = filter nonspace (chars s).
Proof.
  unfold strip. by rewrite chars_text, filter_nonspace_rstrip,
    filter_nonspace_lstrip.
Qed.

Lemma filter_nonspace_join parts :
  filter nonspace (chars (join " " parts))
  = mjoin ((λ p, filter nonspace (chars p)) <$> parts).
Proof.
  induction parts as [|p [|q rest] IH]; [done| |].
  - simpl. by rewrite app_nil_r.
  - change (join " " (p :: q :: rest)) with (p +:+ " " +:+ join " " (q :: rest)).
    rewrite !chars_app, !filter_app, IH. done.
Qed.

Lemma single_spaced_collapse_go b l :
  single_spaced (collapse_go b l) ∧
  (b = true →
   match collapse_go b l with c :: _ => isspace c = false | [] => True end).
Proof.
  revert b. induction l as [|c l IH]; intros b; simpl; [done|].
  destruct (isspace c) eqn:Hc.
  - destruct b; [apply IH|]. split; [|done]. simpl.
    destruct (IH true) as [Hs Hh]. split; [|done].
    intros _. split; [done|by apply Hh].
  - split; [|done]. simpl. split; [congruence|apply IH].
Qed.

Lemma single_spaced_app l1 l2 :
  single_spaced (l1 ++ l2) → single_spaced l1 ∧ single_spaced l2.
Proof.
  induction l1 as [|c l1 IH]; simpl; [done|].
  intros [Hc Hrest]. destruct (IH Hrest) as [H1 H2]. split; [|done].
  split; [|done]. intros Hsp. destruct (Hc Hsp) as [-> Hnext].
  split; [done|]. by destruct l1.
Qed.

Lemma lstrip_chars_suffix l :
  ∃ pre, l = pre ++ lstrip_chars l ∧ Forall (λ c, isspace c = true) pre.
Proof.
  induction l as [|c l (pre & IH & Hpre)]; simpl; [by exists []|].
  destruct (isspace c) eqn:Hc; [|by exists []].
  exists (c :: pre). split; [simpl; by f_equal|by constructor].
Qed.

Lemma rstrip_chars_prefix l :
  ∃ post, l = rstrip_chars l ++ post ∧ Forall (λ c, isspace c = true) post.
Proof.
  unfold rstrip_chars.
  destruct (lstrip_chars_suffix (reverse l)) as (pre & Hpre & Hspace).
  exists (reverse pre). split.
  - rewrite <- reverse_app, <- Hpre. by rewrite reverse_involutive.
  - by apply Forall_reverse.
Qed.

Lemma single_spaced_strip l :
  single_spaced l → single_spaced (rstrip_chars (lstrip_chars l)).
Proof.
  intros Hl. destruct (lstrip_chars_suffix l) as (pre & Hpre & _).
  rewrite Hpre in Hl. apply single_spaced_app in Hl as [_ Hl].
  destruct (rstrip_chars_prefix (lstrip_chars l)) as (post & Hpost & _).
  rewrite Hpost in Hl. by apply single_spaced_app in Hl as [Hl _].
Qed.

Lemma present_visible p s :
  present p = Some s → filter nonspace (chars s) ≠ [].
Proof.
  intros Hp. destruct (present_trimmed _ _ Hp) as [Hne [Hhead _]].
  destruct (chars s) as [|c l] eqn:Hs.
  - destruct Hne. by rewrite <- (text_chars s), Hs.
  - by rewrite filter_cons_True.
Qed.

(** X4.  [build_address] gives the missing marker exactly when no part is
    present.  Otherwise it gives a text that is not empty, has no
    whitespace at either end, has single spaces as its only whitespace,
    and has the visible characters of the present parts, in their order. *)
Theorem build_address_shape (parts : list value) :
  (build_address parts = NaN ↔ Forall (λ p, present p = None) parts) ∧
  (∀ s, build_address parts = Str s →
        s ≠ "" ∧ trimmed s ∧ single_spaced (chars s) ∧
        filter nonspace (chars s)
        = mjoin ((λ p, filter nonspace (chars p)) <$> omap present parts)).
Proof.
  unfold build_address. split.
  - destruct (omap present parts) as [|q cleaned] eqn:Hparts.
    + split; [intros _|done]. apply Forall_forall. intros p Hp.
      destruct (present p) as [s|] eqn:Hs; [|done].
      assert (s ∈ omap present parts) as Hin by (apply list_elem_of_omap; eauto).
      rewrite Hparts in Hin. by apply elem_of_nil in Hin.
    + split; [done|]. intros Hall. rewrite Forall_forall in Hall.
      assert (q ∈ omap present parts) as Hin by (rewrite Hparts; left).
      apply list_elem_of_omap in Hin as (p & Hp & Hq).
      rewrite (Hall p Hp) in Hq. done.
  - intros s Hs.
    destruct (omap present parts) as [|q cleaned] eqn:Hparts; [done|].
    assert (s = strip (collapse_whitespace (join " " (q :: cleaned)))) as Heq
      by congruence.
    clear Hs.
    assert (filter nonspace (chars s)
            = mjoin ((λ p, filter nonspace (chars p)) <$> q :: cleaned)) as Hvis.
    { rewrite Heq, filter_nonspace_strip. unfold collapse_whitespace.
      rewrite chars_text, filter_nonspace_collapse_go.
      apply filter_nonspace_join. }
    split_and!; [| | |done].
    + intros Hempty. rewrite Hempty in Hvis. simpl in Hvis.
      assert (q ∈ omap present parts) as Hin by (rewrite Hparts; left).
      apply list_elem_of_omap in Hin as (p & _ & Hq).
      apply present_visible in Hq.
      by destruct (filter nonspace (chars q)).
    + rewrite Heq. apply strip_trimmed.
    + rewrite Heq. unfold strip. rewrite chars_text. apply single_spaced_strip.
      unfold collapse_whitespace. rewrite chars_text.
      apply single_spaced_collapse_go.
Qed.

Lemma build_address_shape_witness :
  build_address [Str " 12  High St "; NaN; Str "Leeds"] = Str "12 High St Leeds" ∧
  "12 High St Leeds" ≠ "" ∧ trimmed "12 High St Leeds" ∧
  single_spaced (chars "12 High St Leeds").
Proof.
  split; [vm_compute; reflexivity|].
  destruct (build_address_shape [Str " 12  High St "; NaN; Str "Leeds"])
    as [_ Hshape].
  destruct (Hshape "12 High St Leeds") as (Hne & Htrim & Hsingle & _);
    [vm_compute; reflexivity|].
  done.
Defined.

End Addresses.

(** ** What the resolvers return *)

Section ResolverFacts.
Import PyStr Frame Headers.

Lemma resolve_by_sound key cols candidates c :
  resolve_by key cols candidates = Some c →
  c ∈ cols ∧ ∃ cand, cand ∈ candidates ∧ key c = key cand.
Proof.
  unfold resolve_by.
  destruct (list_find _ candidates) as [[i cand]|] eqn:Hf; [|done]. simpl.
  intros [Hc Hk]%last_with_key_sound.
  apply list_find_Some in Hf as (Hi & _ & _).
  apply list_elem_of_lookup_2 in Hi. eauto.
Qed.

(** X5.  Neither resolver makes a header up: what [pick_col] or
    [find_column] returns is a header of the frame, and it has the key of
    one of the candidates, the normalised text for [pick_col] and the
    lower-cased trimmed text for [find_column]. *)
Theorem resolvers_return_headers (df : frame) (candidates : list string)
  (c : string) :
  (Practiceinformation.pick_col df candidates = Some c →
   c ∈ columns df ∧
   ∃ cand, cand ∈ candidates ∧
     Practiceinformation.norm_header c = Practiceinformation.norm_header cand) ∧
  (HealthDepriviation_2019.find_column df candidates = Some c →
   c ∈ columns df ∧
   ∃ cand, cand ∈ candidates ∧
     HealthDepriviation_2019.lower_key c = HealthDepriviation_2019.lower_key cand).
Proof.
  split.
  - rewrite pick_col_resolve_by. apply resolve_by_sound.
  - unfold HealthDepriviation_2019.find_column.
    destruct (list_find _ candidates) as [[i cand]|] eqn:Hf.
    + intros [= <-]. apply list_find_Some in Hf as (Hi & Hin & _).
      apply list_elem_of_lookup_2 in Hi. eauto.
    + rewrite first_hit_resolve_by. apply resolve_by_sound.
Qed.

Lemma resolvers_return_headers_witness :
  "ods code" ∈ ["ods code"; "Practice Code"] ∧
  "LSOA CODE" ∈ ["lsoa code"; "LSOA CODE"].
Proof.
  split.
  - destruct (resolvers_return_headers
                (mkFrame ["ods code"; "Practice Code"] [])
                ["ODS Code"; "Practice Code"] "ods code") as [Hpick _].
    apply Hpick. vm_compute. reflexivity.
  - destruct (resolvers_return_headers
                (mkFrame ["lsoa code"; "LSOA CODE"] [])
                ["LSOA Code"] "LSOA CODE") as [_ Hfind].
    apply Hfind. vm_compute. reflexivity.
Defined.

(** ** The normal form of a header *)

Lemma tolower_idemp c : tolower (tolower c) = tolower c.
Proof. by destruct c as [[] [] [] [] [] [] [] []]. Qed.

Lemma isspace_tolower c : isspace (tolower c) = isspace c.
Proof. by destruct c as [[] [] [] [] [] [] [] []]. Qed.

Lemma collapse_go_snoc b l c :
  isspace c = false → collapse_go b (l ++ [c]) = collapse_go b l ++ [c].
Proof.
  intros Hc. revert b. induction l as [|a l IH]; intros b; simpl.
  - by rewrite Hc.
  - destruct (isspace a); [destruct b|]; by rewrite IH.
Qed.

Lemma collapse_go_single_spaced b l :
  single_spaced l →
  (b = true → match l with c :: _ => isspace c = false | [] => True end) →
  collapse_go b l = l.
Proof.
  revert b. induction l as [|c l IH]; intros b; simpl; [done|].
  intros [Hc Hl] Hb. destruct (isspace c) eqn:Hsp.
  - destruct b; [by specialize (Hb eq_refl)|].
    destruct (Hc eq_refl) as [-> Hnext]. f_equal. by apply IH.
  - f_equal. by apply IH.
Qed.

Lemma fmap_tolower_collapse_go b l :
  tolower <$> collapse_go b (tolower <$> l) = collapse_go b (tolower <$> l).
Proof.
  revert b. induction l as [|c l IH]; intros b; [done|].
  rewrite fmap_cons. simpl. rewrite isspace_tolower.
  destruct (isspace c); [destruct b|]; rewrite ?fmap_cons, ?IH; [done|done|].
  by rewrite tolower_idemp.
Qed.

Lemma ends_nonspace_strip l : ends_nonspace l → rstrip_chars (lstrip_chars l) = l.
Proof.
  intros [Hh Hl]. unfold rstrip_chars.
  rewrite (lstrip_chars_id l) by done.
  rewrite (lstrip_chars_id (reverse l)) by done. apply reverse_involutive.
Qed.

Lemma ends_nonspace_fmap_tolower l :
  ends_nonspace l → ends_nonspace (tolower <$> l).
Proof.
  intros [Hh Hl]. split.
  - destruct l; [done|]. simpl. by rewrite isspace_tolower.
  - rewrite <- fmap_reverse. destruct (reverse l); [done|]. simpl.
    by rewrite isspace_tolower.
Qed.

Lemma ends_nonspace_collapse_go l :
  ends_nonspace l → ends_nonspace (collapse_go false l).
Proof.
  intros [Hh Hl]. split.
  - destruct l as [|c l]; [done|]. simpl. simpl in Hh. by rewrite Hh.
  - destruct l as [|c l] using rev_ind; [done|].
    rewrite reverse_snoc in Hl. rewrite collapse_go_snoc by done.
    by rewrite reverse_snoc.
Qed.

Lemma norm_header_idemp c :
  Practiceinformation.norm_header (Practiceinformation.norm_header c)
  = Practiceinformation.norm_header c.
Proof.
  unfold Practiceinformation.norm_header, collapse_whitespace, lower, strip.
  rewrite !chars_text.
  set (l := tolower <$> rstrip_chars (lstrip_chars (chars c))).
  assert (ends_nonspace l) as Hl.
  { apply ends_nonspace_fmap_tolower.
    pose proof (strip_trimmed c) as Htr. unfold trimmed, strip in Htr.
    by rewrite chars_text in Htr. }
  rewrite ends_nonspace_strip by by apply ends_nonspace_collapse_go.
  unfold l at 1. rewrite fmap_tolower_collapse_go. fold l.
  f_equal. apply collapse_go_single_spaced; [|done].
  apply single_spaced_collapse_go.
Qed.

Lemma first_hit_keys key m cands cands' :
  key <$> cands = key <$> cands' →
  first_hit key m cands = first_hit key m cands'.
Proof.
  revert cands'. induction cands as [|c cands IH]; intros [|c' cands'];
    try done.
  rewrite !fmap_cons. intros [= Hc Hrest]. simpl. rewrite Hc.
  destruct (m !! key c'); [done|by apply IH].
Qed.

(** X6.  [pick_col] reads its candidates through their normal form only:
    two lists of candidates with the same normal forms resolve alike, and
    normalising the candidates beforehand changes nothing, the normal form
    being its own normal form. *)
Theorem pick_col_candidates_normalised (df : frame)
  (candidates candidates' : list string) :
  (Practiceinformation.norm_header <$> candidates
   = Practiceinformation.norm_header <$> candidates' →
   Practiceinformation.pick_col df candidates
   = Practiceinformation.pick_col df candidates') ∧
  Practiceinformation.pick_col df (Practiceinformation.norm_header <$> candidates)
  = Practiceinformation.pick_col df candidates ∧
  (∀ c, Practiceinformation.norm_header (Practiceinformation.norm_header c)
        = Practiceinformation.norm_header c).
Proof.
  split_and!.
  - apply first_hit_keys.
  - apply first_hit_keys. rewrite <- list_fmap_compose.
    apply list_fmap_ext. intros _ c _. apply norm_header_idemp.
  - apply norm_header_idemp.
Qed.

Lemma pick_col_candidates_normalised_witness :
  Practiceinformation.pick_col Practiceinformation.example_gp
    ["POST  CODE"; " postcode "]
  = Practiceinformation.pick_col Practiceinformation.example_gp
      ["Post Code"; "Postcode"].
Proof.
  destruct (pick_col_candidates_normalised Practiceinformation.example_gp
              ["POST  CODE"; " postcode "] ["Post Code"; "Postcode"])
    as [Hsame _].
  apply Hsame. vm_compute. reflexivity.
Defined.

End ResolverFacts.

(** ** The table the merger writes *)

Section MergerOutput.
Import PyStr Frame Practiceinformation.

Lemma filter_all {A} (P : A → Prop) `{∀ x, Decision (P x)} (l : list A) :
  Forall P l → filter P l = l.
Proof.
  induction 1 as [|a l Ha _ IH]; [done|]. by rewrite filter_cons_True, IH.
Qed.

Lemma columns_two_pass_merge gp_core map_slim :
  columns gp_core ⊆ columns (two_pass_merge gp_core map_slim).
Proof.
  intros c Hc. unfold two_pass_merge, outcode_fallback.
  rewrite columns_merge_left. apply elem_of_app. left.
  apply columns_assign_subseteq. unfold merge_by_postcode.
  rewrite columns_merge_left. apply elem_of_app. by left.
Qed.

Lemma columns_merged gp_core mapping PCD2_col :
  columns gp_core ⊆ columns (merged gp_core mapping PCD2_col).
Proof.
  intros c Hc. unfold merged. destruct (prepare_mapping _ _).
  by apply columns_coalesce, columns_two_pass_merge.
Qed.

Lemma final_cols_split : final_cols = gp_core_columns ++ name_map.*1.
Proof. reflexivity. Qed.

(** What [run] returns, when it returns, in terms of its stages. *)
Lemma run_Returned gp_file map_file log out_df :
  run gp_file map_file = (log, Returned out_df) →
  ∃ gp_raw mapping PCD2_col m2_eng,
    gp_file = Some gp_raw ∧ map_file = Some mapping ∧
    pick_postcode_column mapping = Some PCD2_col ∧
    england_filter (prepare_mapping PCD2_col mapping).1
      (merged (gp_core_of (pick_all gp_raw want_map) gp_raw) mapping PCD2_col)
    = (log, m2_eng) ∧
    out_df = out_df_of m2_eng.
Proof.
  unfold run. destruct gp_file as [gp_raw|]; [|done].
  destruct (missing_required _); [|done].
  destruct map_file as [mapping|]; [|done].
  destruct (pick_postcode_column mapping) as [c|] eqn:Hc; [|done]. simpl.
  case_bool_decide; [|done].
  destruct (postcode_column_raises _ _ _); [done|].
  destruct (england_filter _ _) as [log' m2_eng] eqn:Heng.
  intros [= <- <-]. by exists gp_raw, mapping, c, m2_eng.
Qed.

(** X7.  The table [run] writes always has the sixteen columns of
    [final_cols], in that order, whatever headers the mapping has: no
    column is ever left out, and every row has one cell per column. *)
Theorem run_output_columns gp_file map_file log out_df :
  run gp_file map_file = (log, Returned out_df) →
  columns out_df = final_cols ∧
  ∀ r, r ∈ rows out_df → r.*1 = final_cols.
Proof.
  intros (gp_raw & mapping & c & m2_eng & -> & -> & Hc & Heng & ->)%run_Returned.
  apply england_filter_rows in Heng as [Hcols _].
  assert (filter (λ k, k ∈ columns m2_eng) final_cols = final_cols) as Hall.
  { apply filter_all, Forall_forall. intros k Hk. rewrite Hcols.
    rewrite final_cols_split in Hk. apply elem_of_app in Hk as [Hk|Hk].
    - by apply columns_merged.
    - by apply columns_merged_keys. }
  unfold out_df_of, select. simpl. rewrite Hall. split; [done|].
  intros r (r' & -> & _)%list_elem_of_fmap.
  rewrite <- list_fmap_compose. by apply list_fmap_id.
Qed.

Lemma run_output_columns_witness :
  ∃ log out_df,
    run (Some example_gp) (Some example_mapping) = (log, Returned out_df) ∧
    columns out_df = final_cols.
Proof.
  eexists _, _. split; [vm_compute; reflexivity|].
  eapply (run_output_columns (Some example_gp) (Some example_mapping)).
  vm_compute. reflexivity.
Defined.

End MergerOutput.

Section MergerRows.
Import PyStr Frame Practiceinformation.

Lemma elem_of_final_cols_country : "CountryName" ∈ final_cols.
Proof. apply (bool_decide_unpack _). by vm_compute. Qed.

Lemma elem_of_rows_out_df m2_eng r :
  r ∈ rows (out_df_of m2_eng) →
  ∃ r', r' ∈ rows m2_eng ∧
    ∀ c, c ∈ final_cols → c ∈ columns m2_eng → get c r = get c r'.
Proof.
  unfold out_df_of, select. simpl.
  intros (r' & -> & Hr')%list_elem_of_fmap. exists r'. split; [done|].
  intros c Hc Hcol. apply get_select_row. by apply list_elem_of_filter.
Qed.

(** The table written is the projection on [final_cols] of the merged
    frame, filtered or not. *)
Lemma out_df_of_select cols gp_raw mapping PCD2_col m2_eng :
  columns m2_eng = columns (merged (gp_core_of cols gp_raw) mapping PCD2_col) →
  out_df_of m2_eng = select final_cols m2_eng.
Proof.
  intros Hcols. unfold out_df_of. f_equal.
  apply filter_all, Forall_forall. intros k Hk. rewrite Hcols.
  rewrite final_cols_split in Hk. apply elem_of_app in Hk as [Hk|Hk].
  - by apply columns_merged.
  - by apply columns_merged_keys.
Qed.

(** X8.  The country filter comes after the coalescing and reads the
    coalesced [CountryName].  When the mapping has a country header,
    nothing is logged and the table written is the merged frame cut down
    to the rows whose [CountryName] reads ENGLAND once trimmed and
    upper-cased, in their order, under the final columns: every such row
    is written, and every row written is such a row, so none with a
    missing country is.  Without such a header a warning is logged and
    the table written is the whole merged frame under the final
    columns. *)
Theorem england_filter_output gp_raw mapping PCD2_col log out_df :
  pick_postcode_column mapping = Some PCD2_col →
  run (Some gp_raw) (Some mapping) = (log, Returned out_df) →
  let gp_core := gp_core_of (pick_all gp_raw want_map) gp_raw in
  let m2 := merged gp_core mapping PCD2_col in
  if truthy (header_of (prepare_mapping PCD2_col mapping).1 "CountryName")
  then log = [] ∧
       out_df = select final_cols (where_ is_england m2) ∧
       (∀ m, m ∈ rows m2 →
             upper (strip (py_str (get "CountryName" m))) = "ENGLAND" →
             ∃ r, r ∈ rows out_df ∧ ∀ c, c ∈ final_cols → get c r = get c m) ∧
       (∀ r, r ∈ rows out_df →
            upper (strip (py_str (get "CountryName" r))) = "ENGLAND" ∧
            get "CountryName" r ≠ NaN)
  else (∃ msg, log = [(WARNING, msg)]) ∧
       out_df = select final_cols m2 ∧
       length (rows out_df) = length (rows m2).
Proof.
  intros Hpc (gp_raw' & mapping' & c & m2_eng & [= <-] & [= <-] & Hc & Heng & ->)%run_Returned.
  rewrite Hpc in Hc. injection Hc as <-. cbv zeta.
  unfold england_filter in Heng.
  destruct (truthy (header_of _ "CountryName")).
  - apply pair_equal_spec in Heng as [<- <-].
    rewrite (out_df_of_select (pick_all gp_raw want_map) gp_raw mapping PCD2_col)
      by done.
    split_and!; [done|done| |].
    + intros m Hm Hreads.
      exists ((λ c, (c, get c m)) <$> final_cols). split.
      * unfold select, where_. cbn [rows]. apply list_elem_of_fmap.
        exists m. split; [done|].
        apply list_elem_of_In, List.filter_In. split; [by apply list_elem_of_In|].
        unfold is_england. by apply bool_decide_eq_true.
      * intros k Hk. by apply get_select_row.
    + intros r Hr. unfold select, where_ in Hr. cbn [rows] in Hr.
      apply list_elem_of_fmap in Hr as (m & -> & Hm).
      rewrite get_select_row by apply elem_of_final_cols_country.
      apply list_elem_of_In, List.filter_In in Hm as [_ Heng].
      unfold is_england in Heng. apply bool_decide_eq_true in Heng.
      split; [done|]. intros Hnan. rewrite Hnan in Heng. by vm_compute in Heng.
  - apply pair_equal_spec in Heng as [<- <-].
    rewrite (out_df_of_select (pick_all gp_raw want_map) gp_raw mapping PCD2_col)
      by done.
    split_and!; [by eexists|done|].
    unfold select. cbn [rows]. apply length_fmap.
Qed.

(** The theorem at the worked example, whose mapping has a country
    header: of the three merged rows the two that read ENGLAND are
    written. *)
Lemma england_filter_output_witness :
  ∃ log out_df,
    run (Some example_gp) (Some example_mapping) = (log, Returned out_df) ∧
    log = [] ∧
    out_df = select final_cols
               (where_ is_england (merged example_gp_core example_mapping "PCD2")) ∧
    length (rows (merged example_gp_core example_mapping "PCD2")) = 3 ∧
    length (rows out_df) = 2 ∧
    ∀ r, r ∈ rows out_df →
         upper (strip (py_str (get "CountryName" r))) = "ENGLAND" ∧
         get "CountryName" r ≠ NaN.
Proof.
  assert (∃ log out_df,
    run (Some example_gp) (Some example_mapping) = (log, Returned out_df))
    as (log & out_df & Hrun) by (eexists _, _; vm_compute; reflexivity).
  exists log, out_df. split; [exact Hrun|].
  assert (pick_postcode_column example_mapping = Some "PCD2") as Hpc
    by (vm_compute; reflexivity).
  pose proof (england_filter_output example_gp example_mapping "PCD2"
                log out_df Hpc Hrun) as Hout.
  cbv zeta in Hout.
  assert (truthy (header_of (prepare_mapping "PCD2" example_mapping).1
                            "CountryName") = true) as Hcountry
    by (vm_compute; reflexivity).
  rewrite Hcountry in Hout.
  destruct Hout as (Hlog & Hout & _ & Hrows).
  split; [exact Hlog|]. split; [exact Hout|].
  split; [vm_compute; reflexivity|].
  split; [rewrite Hout; vm_compute; reflexivity|exact Hrows].
Defined.

End MergerRows.

Section PrimaryFields.
Import PyStr Frame Practiceinformation.

Lemma elem_of_rows_merge_left left right left_on right_on sfx r :
  r ∈ rows (merge_left left right left_on right_on sfx) →
  ∃ l x, l ∈ rows left ∧ r = l ++ x.
Proof.
  rewrite rows_merge_left. intros (l & Hr & Hl)%list_elem_of_bind.
  exists l. destruct (matches right left_on right_on l) as [|m ms].
  - apply list_elem_of_singleton in Hr. eauto.
  - apply list_elem_of_fmap in Hr as (m' & -> & _). eauto.
Qed.

Lemma gp_core_columns_fresh :
  Forall (λ c, (c ∉ name_map.*1) ∧ c ≠ "_Outcode_gp") gp_core_columns.
Proof. apply (bool_decide_unpack _). by vm_compute. Qed.

Lemma gp_core_columns_final : gp_core_columns ⊆ final_cols.
Proof. apply (bool_decide_unpack _). by vm_compute. Qed.

(** The cells of the primary table in a row of the two-pass merge. *)
Lemma two_pass_merge_primary gp_core map_slim r :
  r ∈ rows (two_pass_merge gp_core map_slim) →
  ∃ l, l ∈ rows gp_core ∧
    ∀ c, c ≠ "_Outcode_gp" → c ∈ l.*1 → get c r = get c l.
Proof.
  intros Hr. unfold two_pass_merge, outcode_fallback in Hr.
  apply elem_of_rows_merge_left in Hr as (l1 & x & Hl1 & ->).
  unfold assign in Hl1. simpl in Hl1.
  apply list_elem_of_fmap in Hl1 as (l0 & -> & Hl0).
  unfold merge_by_postcode in Hl0.
  apply elem_of_rows_merge_left in Hl0 as (l & y & Hl & ->).
  exists l. split; [done|]. intros c Hc Hin.
  rewrite get_app_l.
  - rewrite get_set_ne by done. by apply get_app_l.
  - apply labels_set. rewrite fmap_app. apply elem_of_app. by left.
Qed.

(** X9.  The merger never changes a primary field: every row [run] writes
    has the practice code, the practice name, the address, the postcode
    and the status of one row of the practice file, as [gp_core] holds
    them. *)
Theorem primary_fields_pass_through gp_raw map_file log out_df r :
  run (Some gp_raw) map_file = (log, Returned out_df) →
  r ∈ rows out_df →
  ∃ raw, raw ∈ rows gp_raw ∧
    ∀ c, c ∈ gp_core_columns →
         get c r = get c (gp_core_row (pick_all gp_raw want_map) raw).
Proof.
  intros Hrun Hr.
  apply run_Returned in Hrun
    as (gp_raw' & mapping & pc & m2_eng & [= <-] & -> & Hpc & Heng & ->).
  apply elem_of_rows_out_df in Hr as (r' & Hr' & Hget).
  apply england_filter_rows in Heng as [Hcols Hrows].
  apply Hrows in Hr'. set (gp_core := gp_core_of _ gp_raw) in *.
  apply list_elem_of_lookup in Hr' as [i Hi].
  unfold merged in Hi.
  destruct (prepare_mapping pc mapping) as [picked map_slim] eqn:Hprep.
  assert (picked.*1 = name_map.*1) as Hkeys.
  { unfold prepare_mapping in Hprep. destruct (with_outcode _).
    apply pair_equal_spec in Hprep as [<- _]. apply pick_all_keys. }
  destruct (coalesce_lookup_inv _ _ _ _ Hi) as [r0 Hr0].
  destruct (two_pass_merge_primary gp_core map_slim r0) as (l & Hl & Hr0l);
    [by eapply list_elem_of_lookup_2|].
  unfold gp_core, gp_core_of in Hl. simpl in Hl.
  apply list_elem_of_fmap in Hl as (raw & -> & Hraw).
  exists raw. split; [done|]. intros c Hc.
  pose proof gp_core_columns_fresh as Hfresh. rewrite Forall_forall in Hfresh.
  destruct (Hfresh c Hc) as [Hnm Hoc].
  rewrite Hget; [|by apply gp_core_columns_final|].
  - destruct (coalesce_lookup_other picked _ i r' c
                (eq_ind_r (λ l, c ∉ l) Hnm Hkeys) Hi) as (r0' & Hr0' & ->).
    rewrite Hr0 in Hr0'. injection Hr0' as <-. by apply Hr0l.
  - rewrite Hcols. unfold merged. rewrite Hprep.
    by apply columns_coalesce, columns_two_pass_merge.
Qed.

Lemma primary_fields_pass_through_witness :
  ∃ log out_df,
    run (Some example_gp) (Some example_mapping) = (log, Returned out_df) ∧
    ∀ r, r ∈ rows out_df →
      ∃ raw, raw ∈ rows example_gp ∧
        ∀ c, c ∈ gp_core_columns →
             get c r = get c (gp_core_row (pick_all example_gp want_map) raw).
Proof.
  assert (∃ log out_df,
    run (Some example_gp) (Some example_mapping) = (log, Returned out_df))
    as (log & out_df & Hrun) by (eexists _, _; vm_compute; reflexivity).
  exists log, out_df. split; [exact Hrun|]. intros r Hr.
  exact (primary_fields_pass_through example_gp (Some example_mapping)
           log out_df r Hrun Hr).
Defined.

End PrimaryFields.

(** ** Invariants of the aggregation *)

Section AggregationInvariants.
Import PyStr Numeric gppatientregister.

Lemma foldr_add_Permutation l l' :
  l ≡ₚ l' → foldr Z.add 0%Z l = foldr Z.add 0%Z l'.
Proof. induction 1; simpl; lia. Qed.

Lemma group_total_Permutation k combined combined' :
  combined ≡ₚ combined' → group_total k combined = group_total k combined'.
Proof.
  intros Hperm. unfold group_total. apply foldr_add_Permutation.
  by rewrite Hperm.
Qed.

Lemma foldl_add_row_Permutation combined combined' :
  combined ≡ₚ combined' →
  foldl add_row ∅ combined = foldl add_row ∅ combined'.
Proof.
  intros Hperm. apply map_eq. intros k. rewrite !foldl_add_row_lookup.
  rewrite (group_total_Permutation k _ _ Hperm).
  assert (k ∈ group_keys combined ↔ k ∈ group_keys combined') as Hk
    by (unfold group_keys; by rewrite Hperm).
  by rewrite (bool_decide_ext _ _ Hk).
Qed.

(** X10.  The aggregate does not depend on the order of the rows it is
    made from, and so not on the order in which the monthly files are
    read. *)
Theorem aggregation_order_independent :
  (∀ combined combined',
     combined ≡ₚ combined' → groupby_sum combined = groupby_sum combined') ∧
  (∀ parts parts' : list (list record),
     parts ≡ₚ parts' →
     groupby_sum (concat parts) = groupby_sum (concat parts')).
Proof.
  assert (∀ combined combined',
    combined ≡ₚ combined' → groupby_sum combined = groupby_sum combined') as H.
  { intros combined combined' Hperm. unfold groupby_sum.
    by rewrite (foldl_add_row_Permutation _ _ Hperm). }
  split; [done|]. intros parts parts' Hperm. apply H.
  induction Hperm; simpl.
  - done.
  - by apply Permutation_app_head.
  - rewrite !app_assoc. apply Permutation_app_tail, Permutation_app_comm.
  - by etrans.
Qed.

Lemma aggregation_order_independent_witness :
  groupby_sum [mkRecord "202309" (Str "B2") 7; mkRecord "202309" (Str "A1") 5;
               mkRecord "202309" (Str "B2") 1]
  = groupby_sum [mkRecord "202309" (Str "B2") 1; mkRecord "202309" (Str "B2") 7;
                 mkRecord "202309" (Str "A1") 5].
Proof.
  destruct aggregation_order_independent as [Hrows _]. apply Hrows.
  etrans; [apply perm_skip, perm_swap|apply perm_swap].
Defined.

(** The total of the values of a table of sums after one assignment. *)
Lemma total_insert (m : gmap (string * string) Z) k v :
  foldr Z.add 0%Z (map_to_list (<[k:=v]> m)).*2
  = (foldr Z.add 0%Z (map_to_list m).*2 - default 0 (m !! k) + v)%Z.
Proof.
  destruct (m !! k) as [x|] eqn:Hk; simpl.
  - rewrite <- (insert_delete_eq m).
    rewrite (foldr_add_Permutation _ ((k, v) :: map_to_list (delete k m)).*2).
    + rewrite <- (foldr_add_Permutation
                   ((k, x) :: map_to_list (delete k m)).*2 (map_to_list m).*2).
      * rewrite !fmap_cons. cbn [foldr snd]. lia.
      * apply fmap_Permutation. by apply map_to_list_delete.
    + apply fmap_Permutation, map_to_list_insert, lookup_delete_eq.
  - rewrite (foldr_add_Permutation _ ((k, v) :: map_to_list m).*2).
    + rewrite fmap_cons. cbn [foldr snd]. lia.
    + by apply fmap_Permutation, map_to_list_insert.
Qed.

Lemma wrap64_spec z : ∃ k, wrap64 z = (z + k * 2 ^ 64)%Z.
Proof.
  exists (- ((z + 2 ^ 63) / 2 ^ 64))%Z. unfold wrap64.
  pose proof (Z.div_mod (z + 2 ^ 63) (2 ^ 64)). lia.
Qed.

Lemma wrap64_congr a b k : a = (b + k * 2 ^ 64)%Z → wrap64 a = wrap64 b.
Proof.
  intros ->. unfold wrap64.
  replace (b + k * 2 ^ 64 + 2 ^ 63)%Z with (b + 2 ^ 63 + k * 2 ^ 64)%Z by lia.
  by rewrite Z_mod_plus_full.
Qed.

Lemma patients_groupby_sum combined :
  NumberOfPatients <$> groupby_sum combined
  ≡ₚ (map_to_list (foldl add_row ∅ combined)).*2.
Proof.
  destruct (groupby_sum_groups combined) as [-> _].
  rewrite <- list_fmap_compose.
  rewrite (sorted_groups_Permutation combined). done.
Qed.

Lemma group_total_bounds k combined :
  Forall (λ r, 0 ≤ NumberOfPatients r)%Z combined →
  (0 ≤ group_total k combined
   ≤ foldr Z.add 0%Z (NumberOfPatients
                      <$> filter (λ r, is_Some (group_key r)) combined))%Z.
Proof.
  unfold group_total. induction 1 as [|r combined Hr _ IH]; [done|].
  rewrite !filter_cons. destruct (decide (group_key r = Some k)) as [Hk|Hk].
  - rewrite decide_True by (by rewrite Hk).
    rewrite !fmap_cons. cbn [foldr]. lia.
  - destruct (decide (is_Some (group_key r)));
      rewrite ?fmap_cons; cbn [foldr]; lia.
Qed.

(** X11.  The aggregation conserves the patients of the rows that have a
    practice code: the total of the aggregate and the total of those rows
    are the same 64-bit number, and the very same number when no count is
    negative and the total fits 64 bits. *)
Theorem aggregation_conserves_total combined :
  let counted := filter (λ r, is_Some (group_key r)) combined in
  wrap64 (foldr Z.add 0%Z (NumberOfPatients <$> groupby_sum combined))
  = wrap64 (foldr Z.add 0%Z (NumberOfPatients <$> counted)) ∧
  (Forall (λ r, 0 ≤ NumberOfPatients r)%Z combined →
   (foldr Z.add 0%Z (NumberOfPatients <$> counted) < 2 ^ 63)%Z →
   foldr Z.add 0%Z (NumberOfPatients <$> groupby_sum combined)
   = foldr Z.add 0%Z (NumberOfPatients <$> counted)).
Proof.
  cbv zeta. rewrite (foldr_add_Permutation _ _ (patients_groupby_sum combined)).
  split.
  - cut (∃ k, foldr Z.add 0%Z (map_to_list (foldl add_row ∅ combined)).*2
              = (foldr Z.add 0%Z (NumberOfPatients
                   <$> filter (λ r, is_Some (group_key r)) combined)
                 + k * 2 ^ 64)%Z).
    { intros [k Hk]. by eapply wrap64_congr. }
    induction combined as [|r combined [k IH]] using rev_ind.
    + exists 0%Z. cbn [foldl]. by rewrite map_to_list_empty.
    + rewrite foldl_snoc, filter_app, fmap_app, foldr_add_app.
      unfold add_row at 1. rewrite filter_cons, filter_nil.
      destruct (group_key r) as [key|] eqn:Hr.
      * rewrite decide_True by done. rewrite total_insert, IH.
        destruct (wrap64_spec
                    (default 0%Z (foldl add_row ∅ combined !! key)
                     + NumberOfPatients r)) as [k' ->].
        exists (k + k')%Z. simpl. lia.
      * rewrite decide_False by (by intros [? ?]). exists k. rewrite IH.
        simpl. lia.
  - induction combined as [|r combined IH] using rev_ind; intros Hpos Hfit.
    + cbn [foldl]. by rewrite map_to_list_empty.
    + apply Forall_app in Hpos as [Hpos Hr]. rewrite Forall_singleton in Hr.
      revert Hfit.
      rewrite foldl_snoc, filter_app, fmap_app, foldr_add_app.
      unfold add_row at 1. rewrite filter_cons, filter_nil.
      pose proof (group_total_bounds) as Hbound.
      destruct (group_key r) as [key|] eqn:Hr'.
      * rewrite decide_True by done. simpl. intros Hfit.
        rewrite total_insert, IH by (done || lia).
        specialize (Hbound key combined Hpos).
        rewrite foldl_add_row_lookup. case_bool_decide; simpl.
        -- rewrite (wrap64_small (group_total _ _)) by lia.
           rewrite wrap64_small by lia. lia.
        -- rewrite wrap64_small by lia. lia.
      * rewrite decide_False by (by intros [? ?]). simpl. intros Hfit.
        rewrite IH by (done || lia). lia.
Qed.

Lemma aggregation_conserves_total_witness :
  foldr Z.add 0%Z
    (NumberOfPatients
       <$> groupby_sum [mkRecord "202309" (Str "B2") 7; mkRecord "202309" NaN 4;
                        mkRecord "202309" (Str "B2") 1])
  = 8%Z.
Proof.
  destruct (aggregation_conserves_total
              [mkRecord "202309" (Str "B2") 7; mkRecord "202309" NaN 4;
               mkRecord "202309" (Str "B2") 1]) as [_ Hexact].
  rewrite Hexact.
  - vm_compute. reflexivity.
  - repeat constructor; vm_compute; discriminate.
  - vm_compute. reflexivity.
Defined.

End AggregationInvariants.

(** ** Outcomes of the patient-register script *)

Section RegisterOutcomes.
Import PyStr Numeric gppatientregister.

Context (to_datetime : string → option string) (to_numeric : string → option Z).

Lemma read_all_fail_fast done f rest e :
  Forall (λ f, ∃ part, read_one_csv to_datetime to_numeric f = Ok part) done →
  read_one_csv to_datetime to_numeric f = Raise e →
  read_all to_datetime to_numeric (done ++ f :: rest)
  = ([(ERROR, "Failed to process %s: %s")], Raise e).
Proof.
  intros Hdone Hf. induction Hdone as [|f' done [part Hpart] _ IH]; simpl.
  - by rewrite Hf.
  - by rewrite Hpart, IH.
Qed.

Lemma read_all_cases files :
  (∃ parts,
     Forall2 (λ f part, read_one_csv to_datetime to_numeric f = Ok part)
             files parts ∧
     read_all to_datetime to_numeric files = ([], Ok parts)) ∨
  (∃ done f rest e,
     files = done ++ f :: rest ∧
     Forall (λ f, ∃ part, read_one_csv to_datetime to_numeric f = Ok part) done ∧
     read_one_csv to_datetime to_numeric f = Raise e).
Proof.
  induction files as [|f files IH].
  - left. exists []. by split.
  - destruct (read_one_csv to_datetime to_numeric f) as [part|e] eqn:Hf.
    + destruct IH as [(parts & Hparts & Hall)|(done & f' & rest & e & -> & Hdone & Hf')].
      * left. exists (part :: parts). split; [by constructor|].
        simpl. by rewrite Hf, Hall.
      * right. exists (f :: done), f', rest, e. split_and!; [done| |done].
        constructor; [by eexists|done].
    + right. by exists [], f, files, e.
Qed.

(** X12.  The outcomes of the patient-register script.  It ends with
    status 0 exactly when at least one monthly file is found and every
    file reads; then nothing is logged above the informational level and
    the aggregate of all the parts is written.  Otherwise it ends with
    status 1 and writes nothing.  It fails fast: the first file that does
    not read leaves exactly one error record, whatever the files after
    it hold; with no file at all there is no record. *)
Theorem patient_register_outcomes files :
  let p := main to_datetime to_numeric files in
  let reads f := ∃ part, read_one_csv to_datetime to_numeric f = Ok part in
  (exit_code p = 0%Z ↔ files ≠ [] ∧ Forall reads files) ∧
  (exit_code p = 0%Z →
   log p = [] ∧
   ∃ parts,
     Forall2 (λ f part, read_one_csv to_datetime to_numeric f = Ok part)
             files parts ∧
     written p = Some (groupby_sum (concat parts))) ∧
  (exit_code p ≠ 0%Z → exit_code p = 1%Z ∧ written p = None) ∧
  (∀ done f rest e,
     files = done ++ f :: rest → Forall reads done →
     read_one_csv to_datetime to_numeric f = Raise e →
     log p = [(ERROR, "Failed to process %s: %s")]) ∧
  (files = [] → log p = []).
Proof.
  cbv zeta.
  destruct (read_all_cases files)
    as [(parts & Hparts & Hall)|(done & f & rest & e & -> & Hdone & Hf)].
  - destruct files as [|f files].
    + simpl. split_and!; try done.
      * split; [done|]. by intros [? _].
      * intros done f rest e Hfiles. by destruct done.
    + unfold main, aggregate_all. rewrite Hall.
      destruct parts as [|part parts]; [by apply Forall2_cons_nil_inv in Hparts|].
      simpl. split_and!; try done.
      * split; [intros _|done]. split; [done|].
        apply Forall_forall. intros f' Hf'.
        apply list_elem_of_lookup in Hf' as [i Hi].
        destruct (Forall2_lookup_l _ _ _ _ _ Hparts Hi) as (p' & _ & Hp').
        by exists p'.
      * intros _. split; [done|]. by exists (part :: parts).
      * intros done f' rest e Hfiles Hdone Hf'. exfalso.
        assert (f' ∈ f :: files) as Hin
          by (rewrite Hfiles; apply elem_of_app; right; left).
        apply list_elem_of_lookup in Hin as [i Hi].
        destruct (Forall2_lookup_l _ _ _ _ _ Hparts Hi) as (p' & _ & Hp').
        congruence.
  - pose proof (read_all_fail_fast done f rest e Hdone Hf) as Hall.
    assert (main to_datetime to_numeric (done ++ f :: rest)
            = mkProcess 1 [(ERROR, "Failed to process %s: %s")] None) as ->.
    { unfold main, aggregate_all. rewrite Hall. by destruct done. }
    simpl. split_and!; try done.
    + split; [done|]. intros [_ Hreads]. exfalso.
      rewrite Forall_app, Forall_cons in Hreads.
      destruct Hreads as (_ & [part Hpart] & _). congruence.
    + intros Hnil. by destruct done.
Qed.

End RegisterOutcomes.

Section RegisterExamples.
Import PyStr Numeric gppatientregister.

Lemma patient_register_outcomes_witness :
  let p := main yearmonth_of_date decimal_literal
             [Some example_file; Some example_file_not_a_number; None] in
  exit_code p = 1%Z ∧ written p = None ∧
  log p = [(ERROR, "Failed to process %s: %s")].
Proof.
  cbv zeta.
  destruct (patient_register_outcomes yearmonth_of_date decimal_literal
              [Some example_file; Some example_file_not_a_number; None])
    as (_ & _ & Hfail & Hlog & _).
  split_and!.
  - apply Hfail. vm_compute. discriminate.
  - apply Hfail. vm_compute. discriminate.
  - apply (Hlog [Some example_file] (Some example_file_not_a_number) [None]
             ValueError).
    + reflexivity.
    + constructor; [|constructor]. eexists. vm_compute. reflexivity.
    + vm_compute. reflexivity.
Defined.

End RegisterExamples.

Section NumberCleaning.
Import PyStr Numeric gppatientregister.

Lemma strip_decompose s :
  ∃ pre post,
    chars s = pre ++ chars (strip s) ++ post ∧
    Forall (λ c, isspace c = true) pre ∧ Forall (λ c, isspace c = true) post.
Proof.
  destruct (lstrip_chars_suffix (chars s)) as (pre & Hpre & Hspace).
  destruct (rstrip_chars_prefix (lstrip_chars (chars s)))
    as (post & Hpost & Hspace').
  exists pre, post. unfold strip. rewrite chars_text.
  split_and!; [|done..]. by rewrite <- Hpost.
Qed.

(** X13.  What [to_int] hands to the number reader: the text of the cell
    without its commas and without the whitespace around it, and nothing
    else is taken away, so whitespace inside the number stays.  The text
    has no comma and no whitespace at either end, and cleaning it again
    changes nothing. *)
Theorem to_int_cleaning (v : value) :
  let s := cleaned v in
  (","%char ∉ chars s) ∧ trimmed s ∧ cleaned (Str s) = s ∧
  ∃ pre post,
    filter (λ c, c ≠ ","%char) (chars (py_str v)) = pre ++ chars s ++ post ∧
    Forall (λ c, isspace c = true) pre ∧ Forall (λ c, isspace c = true) post.
Proof.
  cbv zeta. unfold cleaned.
  destruct (strip_decompose (remove_commas (py_str v)))
    as (pre & post & Hparts & Hpre & Hpost).
  unfold remove_commas in Hparts at 1. rewrite chars_text in Hparts.
  assert (","%char ∉ chars (strip (remove_commas (py_str v)))) as Hcomma.
  { intros Hin.
    assert (","%char ∈ filter (λ c, c ≠ ","%char) (chars (py_str v))) as Hin'.
    { rewrite Hparts. apply elem_of_app. right. apply elem_of_app. by left. }
    by apply list_elem_of_filter in Hin' as [? _]. }
  split_and!; [done|apply strip_trimmed| |by exists pre, post].
  simpl. unfold remove_commas at 1. rewrite filter_all, text_chars.
  - apply trimmed_strip, strip_trimmed.
  - apply Forall_forall. by intros c Hc ->.
Qed.

End NumberCleaning.

(** ** What the deprivation script writes *)

Section DeprivationOutput.
Import PyStr Frame HealthDepriviation_2019.

(** The resolution loop as two passes over the table: the targets
    resolved, and one error record for each of the others. *)
Lemma resolve_loop df table acc :
  foldl (resolve_step df) acc table
  = (acc.1 ++ omap (λ item, c ← find_column df item.2;
                            if bool_decide (c ≠ "") then Some (item.1, c)
                            else None) table,
     acc.2 ++ ((λ _, (ERROR, "Could not find a source column for target '%s'."))
                 <$> filter (unresolved df) table)).
Proof.
  revert acc. induction table as [|[target candidates] table IH];
    intros [resolved_cols log].
  - simpl. by rewrite !app_nil_r.
  - cbn [foldl]. rewrite IH, filter_cons. cbn [omap list_omap fst snd].
    unfold resolve_step.
    destruct (decide (unresolved df (target, candidates))) as [Hun|Hres].
    + unfold unresolved in Hun. cbn [snd] in Hun.
      destruct Hun as [-> | ->]; cbn [mbind option_bind].
      * cbn [fst snd]. by rewrite fmap_cons, <- app_assoc.
      * rewrite bool_decide_eq_false_2 by (by intros ?).
        cbn [fst snd]. by rewrite fmap_cons, <- app_assoc.
    + unfold unresolved in Hres. cbn [snd] in Hres.
      destruct (find_column df candidates) as [c|]; [|destruct Hres; by left].
      cbn [mbind option_bind].
      rewrite bool_decide_eq_true_2 by (intros ->; destruct Hres; by right).
      cbn [fst snd]. by rewrite <- app_assoc.
Qed.

Lemma resolved_all df table :
  filter (unresolved df) table = [] →
  (omap (λ item, c ← find_column df item.2;
                 if bool_decide (c ≠ "") then Some (item.1, c) else None)
        table).*1 = table.*1 ∧
  ∀ target c, (target, c) ∈ omap (λ item, c ← find_column df item.2;
                 if bool_decide (c ≠ "") then Some (item.1, c) else None) table ↔
              ∃ candidates, (target, candidates) ∈ table ∧
                            find_column df candidates = Some c.
Proof.
  induction table as [|[target candidates] table IH].
  - intros _. split; [done|]. intros target c. split.
    + by intros ?%elem_of_nil.
    + by intros (? & ?%elem_of_nil & _).
  - rewrite filter_cons. destruct (decide _) as [|Hres]; [done|].
    intros Hnil. destruct (IH Hnil) as [IH1 IH2]. clear IH.
    unfold unresolved in Hres. cbn [fst snd omap list_omap] in *.
    destruct (find_column df candidates) as [c|] eqn:Hfind;
      [|destruct Hres; by left].
    cbn [mbind option_bind]. rewrite bool_decide_eq_true_2
      by (intros ->; destruct Hres; by right).
    split; [by rewrite fmap_cons, IH1|].
    intros target' c'. rewrite elem_of_cons, IH2. split.
    + intros [[= -> ->]|(cands & Hin & Hc)].
      * exists candidates. split; [left|done].
      * exists cands. split; [by right|done].
    + intros (cands & [[= -> ->]|Hin]%elem_of_cons & Hc).
      * left. congruence.
      * right. eauto.
Qed.

Lemma get_renamed target c (resolved_cols : list (string * string)) (r : row) :
  NoDup resolved_cols.*1 → (target, c) ∈ resolved_cols →
  get target ((λ '(target, c), (target, get c r)) <$> resolved_cols) = get c r.
Proof.
  induction resolved_cols as [|[t c'] resolved_cols IH]; [by intros _ ?%elem_of_nil|].
  rewrite fmap_cons. intros [Hnotin Hnodup]%NoDup_cons.
  intros [[= <- <-]|Hin]%elem_of_cons; cbn [fmap list_fmap get].
  - by rewrite bool_decide_eq_true_2.
  - rewrite bool_decide_eq_false_2; [by apply IH|].
    intros ->. apply Hnotin. apply list_elem_of_fmap. by exists (target, c).
Qed.

Lemma find_column_header df candidates c :
  find_column df candidates = Some c → c ∈ columns df.
Proof.
  unfold find_column.
  destruct (list_find _ candidates) as [[i cand]|] eqn:Hf.
  - intros [= <-]. by apply list_find_Some in Hf as (_ & Hin & _).
  - rewrite first_hit_resolve_by. by intros [? _]%resolve_by_sound.
Qed.

Lemma heads_one_NoDup df c : NoDup (columns df) → c ∈ columns df → heads_one df c.
Proof.
  unfold heads_one. induction (columns df) as [|k cols IH]; [by intros _ ?%elem_of_nil|].
  intros [Hk Hnodup]%NoDup_cons Hc. rewrite filter_cons.
  destruct (decide (k = c)) as [->|Hne].
  - rewrite filter_none; [done|]. by intros k' Hk' ->.
  - apply IH; [done|]. apply elem_of_cons in Hc as [?|?]; [by subst|done].
Qed.

(** X14.  What the deprivation script logs and writes, for a file that
    the read of line 100 returns, or that fails to decode there and that
    the read with latin1 returns, with distinct stripped headers.  The
    log opens with the warning of the fallback in the second case only,
    and the process ends with status 0.  The script writes exactly when
    every target resolves; the table then has the four target columns in
    their fixed order and a row for each row of the file, whose cell
    under a target is the cell of the file under the header resolved for
    it, and nothing but that warning is logged above the informational
    level.  Otherwise the log goes on with one error record for each
    unresolved target. *)
Theorem deprivation_output (file : input_file) (warnings : list log_record)
  (df : frame) :
  load file = (warnings, Some df) →
  NoDup (strip <$> columns df) →
  let df' := strip_headers df in
  let p := main (Some file) in
  exit_code p = 0%Z ∧
  warnings = match utf8 file with
             | Read _ => []
             | _ => [(WARNING, "UTF-8 decoding failed. Trying latin1 encoding.")]
             end ∧
  (is_Some (written p) ↔ Forall (λ item, ¬ unresolved df' item) COL_CANDIDATES) ∧
  (∀ out, written p = Some out →
     log p = warnings ∧
     columns out = ["LSOA_Code"; "Health_Score"; "Health_Rank"; "Health_Decile"] ∧
     length (rows out) = length (rows df) ∧
     ∀ i r, rows df' !! i = Some r →
       ∃ r', rows out !! i = Some r' ∧ r'.*1 = columns out ∧
         ∀ target candidates c,
           (target, candidates) ∈ COL_CANDIDATES →
           find_column df' candidates = Some c →
           get target r' = get c r) ∧
  (written p = None →
     log p = warnings
             ++ ((λ _, (ERROR, "Could not find a source column for target '%s'."))
                   <$> filter (unresolved df') COL_CANDIDATES)).
Proof.
  intros Hload Hheaders. cbv zeta.
  assert (warnings = match utf8 file with
             | Read _ => []
             | _ => [(WARNING, "UTF-8 decoding failed. Trying latin1 encoding.")]
             end) as Hwarn.
  { unfold load in Hload. destruct (utf8 file); [| |done].
    - by apply pair_equal_spec in Hload as [<- _].
    - by apply pair_equal_spec in Hload as [<- _]. }
  unfold main. rewrite Hload. unfold resolve. rewrite resolve_loop.
  cbn [fst snd app].
  set (df' := strip_headers df).
  destruct (filter (unresolved df') COL_CANDIDATES) as [|item items] eqn:Hfilter.
  - destruct (resolved_all df' COL_CANDIDATES Hfilter) as [Hkeys Hin].
    revert Hkeys Hin. generalize (omap (λ item, c ← find_column df' item.2;
                            if bool_decide (c ≠ "") then Some (item.1, c)
                            else None) COL_CANDIDATES).
    intros resolved_cols Hkeys Hin.
    rewrite bool_decide_eq_true_2.
    2:{ apply Forall_forall. intros c ([target c'] & -> & Htc)%list_elem_of_fmap.
        apply Hin in Htc as (candidates & _ & Hfind).
        apply heads_one_NoDup; [done|by eapply find_column_header]. }
    cbn [fmap list_fmap written log exit_code]. split_and!; [done|done| | |done].
    + split; [intros _|by eauto]. apply Forall_forall. intros item Hitem Hun.
      assert (item ∈ filter (unresolved df') COL_CANDIDATES) as Hin'
        by (by apply list_elem_of_filter).
      rewrite Hfilter in Hin'. by apply elem_of_nil in Hin'.
    + intros out Hout.
      assert (out = final_df_of resolved_cols df') as -> by congruence.
      unfold final_df_of. cbn [columns rows]. rewrite Hkeys.
      split_and!; [done|done| |].
      * unfold df', strip_headers. cbn [rows]. by rewrite !length_fmap.
      * intros i r Hr. rewrite list_lookup_fmap, Hr. eexists. split; [done|].
        split.
        -- rewrite <- list_fmap_compose, <- Hkeys. apply list_fmap_ext.
           by intros ? [? ?].
        -- intros target candidates c Hitem Hfind. apply get_renamed.
           ++ rewrite Hkeys. apply (bool_decide_unpack _). by vm_compute.
           ++ apply Hin. eauto.
  - cbn [fmap list_fmap written log exit_code]. split_and!; [done|done| |done|done].
    split; [by intros [? ?]|]. intros Hall. exfalso.
    assert (item ∈ filter (unresolved df') COL_CANDIDATES) as Hin
      by (rewrite Hfilter; left).
    apply list_elem_of_filter in Hin as [Hun Hin].
    rewrite Forall_forall in Hall. by apply (Hall item).
Qed.

(** The theorem at a file that only the second read returns: the
    warning of the fallback is all the log holds, and the table is
    written. *)
Lemma deprivation_output_witness :
  let file := mkInput UnicodeDecodeError (Read example_imd) in
  ∃ out,
    written (main (Some file)) = Some out ∧
    exit_code (main (Some file)) = 0%Z ∧
    columns out = ["LSOA_Code"; "Health_Score"; "Health_Rank"; "Health_Decile"] ∧
    length (rows out) = length (rows example_imd) ∧
    log (main (Some file))
    = [(WARNING, "UTF-8 decoding failed. Trying latin1 encoding.")].
Proof.
  intros file.
  assert (∃ out, written (main (Some file)) = Some out) as [out Hout]
    by (eexists; vm_compute; reflexivity).
  exists out. split; [exact Hout|].
  assert (NoDup (strip <$> columns example_imd)) as Hheaders
    by (apply (bool_decide_unpack _); vm_compute; exact I).
  destruct (deprivation_output file
              [(WARNING, "UTF-8 decoding failed. Trying latin1 encoding.")]
              example_imd eq_refl Hheaders) as (Hexit & _ & _ & Hwritten & _).
  destruct (Hwritten out Hout) as (Hlog & Hcols & Hlen & _).
  by split_and!.
Defined.

End DeprivationOutput.

(** ** Year and month of a workforce file *)

Section FilenameYearMonth.
Import PyStr Frame gpcountwithage.

Lemma space_year_Some l year :
  space_year l = Some year →
  ∃ sp post, l = sp :: year ++ post ∧ isspace sp = true ∧
             length year = 4 ∧ Forall (λ d, is_digit d = true) year.
Proof.
  destruct l as [|s [|d1 [|d2 [|d3 [|d4 post]]]]]; try done.
  unfold space_year.
  destruct (isspace s) eqn:Hs, (is_digit d1) eqn:H1, (is_digit d2) eqn:H2,
    (is_digit d3) eqn:H3, (is_digit d4) eqn:H4; try done.
  intros [= <-]. exists s, post. split_and!; [done..|].
  by repeat constructor.
Qed.

Lemma space_year_alpha c l : is_alpha c = true → space_year (c :: l) = None.
Proof.
  intros Hc. assert (isspace c = false) as Hs.
  { revert Hc. by destruct c as [[] [] [] [] [] [] [] []]. }
  destruct l as [|d1 [|d2 [|d3 [|d4 post]]]]; try done.
  unfold space_year. by rewrite Hs.
Qed.

Lemma match_here_Some word l w year :
  match_here word l = Some (w, year) →
  ∃ run sp post,
    l = run ++ sp :: year ++ post ∧ w = reverse word ++ run ∧ w ≠ [] ∧
    Forall (λ c, is_alpha c = true) run ∧ isspace sp = true ∧
    length year = 4 ∧ Forall (λ d, is_digit d = true) year.
Proof.
  assert (∀ word l, after_word word l = Some (w, year) →
    ∃ sp post, l = sp :: year ++ post ∧ w = reverse word ∧ w ≠ [] ∧
      isspace sp = true ∧ length year = 4 ∧
      Forall (λ d, is_digit d = true) year) as Hafter.
  { intros word' l' Hm. unfold after_word in Hm.
    destruct word' as [|c word']; [done|].
    destruct (space_year l') as [y|] eqn:Hy; [|done].
    injection Hm as <- <-.
    apply space_year_Some in Hy as (sp & post & -> & Hsp & Hlen & Hdig).
    exists sp, post. split_and!; try done.
    rewrite reverse_cons. by intros [? ?]%app_eq_nil. }
  revert word. induction l as [|c l IH]; intros word Hm.
  - apply Hafter in Hm as (sp & post & ? & _). done.
  - cbn [match_here] in Hm. destruct (is_alpha c) eqn:Hc.
    + destruct (match_here (c :: word) l) as [m|] eqn:Hm'.
      * injection Hm as ->.
        apply IH in Hm' as (run & sp & post & -> & -> & Hne & Hrun & Hrest).
        exists (c :: run), sp, post.
        rewrite reverse_cons, <- app_assoc in *.
        split_and!; try done; try tauto. by constructor.
      * unfold after_word in Hm. rewrite space_year_alpha in Hm by done.
        by destruct word.
    + apply Hafter in Hm as (sp & post & -> & -> & Hne & Hrest).
      exists [], sp, post. rewrite app_nil_r. split_and!; try done; tauto.
Qed.

Lemma match_here_complete word run sp year post :
  word ++ run ≠ [] → Forall (λ c, is_alpha c = true) run →
  isspace sp = true → length year = 4 → Forall (λ d, is_digit d = true) year →
  match_here word (run ++ sp :: year ++ post)
  = Some (reverse word ++ run, year).
Proof.
  intros Hne Hrun Hsp Hlen Hdig.
  assert (is_alpha sp = false) as Hsp'.
  { revert Hsp. by destruct sp as [[] [] [] [] [] [] [] []]. }
  assert (space_year (sp :: year ++ post) = Some year) as Hyear.
  { destruct year as [|d1 [|d2 [|d3 [|d4 [|]]]]]; try done.
    inversion Hdig as [|? ? H1 Hdig1]; subst.
    inversion Hdig1 as [|? ? H2 Hdig2]; subst.
    inversion Hdig2 as [|? ? H3 Hdig3]; subst.
    inversion Hdig3 as [|? ? H4 _]; subst.
    cbn [app space_year]. by rewrite Hsp, H1, H2, H3, H4. }
  revert word Hne. induction Hrun as [|c run Hc _ IH]; intros word Hne.
  - cbn [app match_here]. rewrite Hsp'. unfold after_word. rewrite Hyear.
    rewrite app_nil_r in *. by destruct word.
  - cbn [app match_here]. rewrite Hc, IH.
    + by rewrite reverse_cons, <- app_assoc.
    + by destruct word.
Qed.

Lemma search_Some l w year :
  search l = Some (w, year) →
  ∃ pre sp post,
    l = pre ++ w ++ sp :: year ++ post ∧ w ≠ [] ∧
    Forall (λ c, is_alpha c = true) w ∧
    (∀ c, last pre = Some c → is_alpha c = false) ∧
    isspace sp = true ∧ length year = 4 ∧
    Forall (λ d, is_digit d = true) year.
Proof.
  induction l as [|c l IH]; [done|].
  cbn [search]. destruct (match_here [] (c :: l)) as [m|] eqn:Hm.
  - intros [= ->].
    apply match_here_Some in Hm as (run & sp & post & -> & -> & Hne & Hrest).
    exists [], sp, post. by split_and!; try done; try tauto.
  - intros (pre & sp & post & -> & Hne & Hw & Hpre & Hsp & Hlen & Hdig)%IH.
    exists (c :: pre), sp, post. split_and!; try done.
    intros c'. destruct pre as [|c'' pre]; [|by apply Hpre].
    intros [= <-]. destruct (is_alpha c) eqn:Hc; [|done].
    pose proof (match_here_complete [] (c :: w) sp year post) as Hcomplete.
    cbn [app] in Hcomplete, Hm. rewrite Hcomplete in Hm; try done.
    by constructor.
Qed.

Lemma dict_get_elem_of {A} k (d : list (string * A)) a :
  Practiceinformation.dict_get k d = Some a → (k, a) ∈ d.
Proof.
  induction d as [|[k' a'] d IH]; [done|]. simpl. case_bool_decide as Hk.
  - intros [= ->]. subst. left.
  - intros ?%IH. by right.
Qed.

(** X15.  The year and month read from a file name.  When the function
    gives a text, nothing is logged and the text is a year of four digits
    followed by the two-digit number of a month; the year stands in the
    name after one whitespace character, and before that a whole word of
    letters, not the tail of a longer one, whose title-case form is the
    name of that month.  When it gives nothing, it logs one warning. *)
Theorem year_month_from_filename (filename : string) :
  match _extract_year_month_from_filename filename with
  | (log, Some ym) =>
      log = [] ∧
      ∃ pre word sp year post month_num,
        chars filename = pre ++ word ++ sp :: year ++ post ∧
        word ≠ [] ∧ Forall (λ c, is_alpha c = true) word ∧
        (∀ c, last pre = Some c → is_alpha c = false) ∧
        isspace sp = true ∧
        length year = 4 ∧ Forall (λ d, is_digit d = true) year ∧
        (title (text word), month_num) ∈ month_map ∧
        ym = text year +:+ month_num
  | (log, None) =>
      log = [(WARNING, "Could not extract YearMonth from filename: %s")]
  end.
Proof.
  unfold _extract_year_month_from_filename.
  destruct (search (chars filename)) as [[w year]|] eqn:Hsearch; [|done].
  destruct (Practiceinformation.dict_get _ month_map) as [month_num|] eqn:Hmonth;
    [|done].
  case_bool_decide; [|done]. split; [done|].
  apply search_Some in Hsearch
    as (pre & sp & post & Hl & Hne & Hw & Hpre & Hsp & Hlen & Hdig).
  exists pre, w, sp, year, post, month_num. split_and!; try done.
  by apply dict_get_elem_of.
Qed.

Lemma is_alpha_toupper c : is_alpha (toupper c) = is_alpha c.
Proof. by destruct c as [[] [] [] [] [] [] [] []]. Qed.

Lemma is_alpha_tolower c : is_alpha (tolower c) = is_alpha c.
Proof. by destruct c as [[] [] [] [] [] [] [] []]. Qed.

Lemma is_digit_toupper c : is_digit (toupper c) = is_digit c.
Proof. by destruct c as [[] [] [] [] [] [] [] []]. Qed.

Lemma is_digit_tolower c : is_digit (tolower c) = is_digit c.
Proof. by destruct c as [[] [] [] [] [] [] [] []]. Qed.

Lemma toupper_digit c : is_digit c = true → toupper c = c.
Proof. by destruct c as [[] [] [] [] [] [] [] []]. Qed.

Lemma tolower_digit c : is_digit c = true → tolower c = c.
Proof. by destruct c as [[] [] [] [] [] [] [] []]. Qed.

Lemma tolower_toupper c : tolower (toupper c) = tolower c.
Proof. by destruct c as [[] [] [] [] [] [] [] []]. Qed.

Lemma toupper_tolower c : toupper (tolower c) = toupper c.
Proof. by destruct c as [[] [] [] [] [] [] [] []]. Qed.

Lemma toupper_other c : is_alpha c = false → toupper c = c.
Proof. by destruct c as [[] [] [] [] [] [] [] []]. Qed.

Lemma tolower_other c : is_alpha c = false → tolower c = c.
Proof. by destruct c as [[] [] [] [] [] [] [] []]. Qed.

(** The search on a name whose letters have changed case: [f] is
    [toupper] or [tolower]. *)
Lemma search_recased (f : ascii → ascii) :
  (∀ c, is_alpha (f c) = is_alpha c) → (∀ c, isspace (f c) = isspace c) →
  (∀ c, is_digit (f c) = is_digit c) → (∀ c, is_digit c = true → f c = c) →
  ∀ l : list ascii,
    search (f <$> l)
    = (λ m : list ascii * list ascii, (f <$> m.1, m.2)) <$> search l.
Proof.
  intros Halpha Hspace Hdigit Hfix.
  assert (∀ l : list ascii, space_year (f <$> l) = space_year l) as Hyear.
  { intros [|s [|d1 [|d2 [|d3 [|d4 post]]]]]; try done.
    rewrite !fmap_cons. unfold space_year.
    rewrite Hspace, !Hdigit.
    destruct (isspace s), (is_digit d1) eqn:H1, (is_digit d2) eqn:H2,
      (is_digit d3) eqn:H3, (is_digit d4) eqn:H4; try done.
    cbn [andb]. by rewrite !Hfix. }
  assert (∀ word l : list ascii, after_word (f <$> word) (f <$> l)
            = (λ m : list ascii * list ascii, (f <$> m.1, m.2))
                <$> after_word word l) as Hafter.
  { intros word l. unfold after_word. rewrite Hyear.
    destruct word as [|c word]; [done|]. rewrite fmap_cons.
    destruct (space_year l) as [y|]; [|done].
    cbn [mbind option_bind fmap option_fmap option_map fst snd].
    by rewrite <- fmap_cons, fmap_reverse. }
  assert (∀ l word : list ascii, match_here (f <$> word) (f <$> l)
            = (λ m : list ascii * list ascii, (f <$> m.1, m.2))
                <$> match_here word l) as Hhere.
  { induction l as [|c l IH]; intros word; [apply (Hafter word [])|].
    rewrite fmap_cons. cbn [match_here]. rewrite Halpha.
    destruct (is_alpha c); [|apply (Hafter word (c :: l))].
    rewrite <- fmap_cons, IH.
    destruct (match_here (c :: word) l); [done|].
    apply (Hafter word (c :: l)). }
  induction l as [|c l IH].
  - done.
  - rewrite fmap_cons. cbn [search]. rewrite <- fmap_cons.
    pose proof (Hhere (c :: l) []) as Hhead. rewrite fmap_nil in Hhead.
    rewrite Hhead.
    destruct (match_here [] (c :: l)); [done|]. apply IH.
Qed.

Lemma title_go_toupper b l : title_go b (toupper <$> l) = title_go b l.
Proof.
  revert b. induction l as [|c l IH]; intros b; [done|].
  rewrite fmap_cons. cbn [title_go].
  rewrite is_alpha_toupper, !IH, tolower_toupper, toupper_idemp.
  destruct (is_alpha c) eqn:Hc; [done|]. by rewrite toupper_other.
Qed.

Lemma title_go_tolower b l : title_go b (tolower <$> l) = title_go b l.
Proof.
  revert b. induction l as [|c l IH]; intros b; [done|].
  rewrite fmap_cons. cbn [title_go].
  rewrite is_alpha_tolower, !IH, toupper_tolower, tolower_idemp.
  destruct (is_alpha c) eqn:Hc; [done|]. by rewrite tolower_other.
Qed.

(** X16.  For a file name of the 7-bit range, the case of its letters
    does not matter to the year and month read from it, nor to the
    warning logged: the name in upper case and the name in lower case
    give what the name gives. *)
Theorem year_month_ignores_case (filename : string) :
  seven_bit filename →
  _extract_year_month_from_filename (upper filename)
  = _extract_year_month_from_filename filename ∧
  _extract_year_month_from_filename (lower filename)
  = _extract_year_month_from_filename filename.
Proof.
  intros _.
  unfold _extract_year_month_from_filename, upper, lower.
  rewrite !chars_text.
  rewrite (search_recased toupper is_alpha_toupper isspace_toupper
             is_digit_toupper toupper_digit).
  rewrite (search_recased tolower is_alpha_tolower isspace_tolower
             is_digit_tolower tolower_digit).
  destruct (search (chars filename)) as [[w year]|]; [|done].
  cbn [fmap option_fmap option_map fst snd].
  unfold title. rewrite !chars_text, title_go_toupper, title_go_tolower.
  done.
Qed.

(** The theorem at a file name with its month in mixed case. *)
Lemma year_month_ignores_case_witness :
  seven_bit "GP Workforce jULY 2023.csv" ∧
  _extract_year_month_from_filename "GP WORKFORCE JULY 2023.CSV"
  = _extract_year_month_from_filename "GP Workforce jULY 2023.csv" ∧
  _extract_year_month_from_filename "gp workforce july 2023.csv"
  = _extract_year_month_from_filename "GP Workforce jULY 2023.csv" ∧
  _extract_year_month_from_filename "GP Workforce jULY 2023.csv"
  = ([], Some "202307").
Proof.
  assert (seven_bit "GP Workforce jULY 2023.csv") as Hname
    by (apply (bool_decide_unpack _); vm_compute; exact I).
  destruct (year_month_ignores_case "GP Workforce jULY 2023.csv" Hname)
    as [Hupper Hlower].
  split; [exact Hname|]. split; [exact Hupper|]. split; [exact Hlower|].
  vm_compute. reflexivity.
Defined.

End FilenameYearMonth.

(** ** The numeric conversion of the workforce script *)

Section WorkforceConversion.
Import PyStr Frame Numeric gpcountwithage.

Context (to_numeric : string → option Z).





End WorkforceConversion.

Section WorkforceExamples.
Import PyStr Frame Numeric gpcountwithage.


End WorkforceExamples.

(** ** Headers of the income script *)

Section IncomeHeaders.
Import PyStr income.

Lemma is_lower_alnum_nonspace c : is_lower_alnum c = true → isspace c = false.
Proof. by destruct c as [[] [] [] [] [] [] [] []]. Qed.

Lemma is_lower_alnum_tolower c : is_lower_alnum c = true → tolower c = c.
Proof. by destruct c as [[] [] [] [] [] [] [] []]. Qed.

Lemma is_lower_alnum_not_underscore c :
  is_lower_alnum c = true → c ≠ "_"%char.
Proof. by destruct c as [[] [] [] [] [] [] [] []]. Qed.

Lemma is_digit_lower_alnum c : is_digit c = true → is_lower_alnum c = true.
Proof. by destruct c as [[] [] [] [] [] [] [] []]. Qed.

Lemma isspace_not_lower_alnum c :
  isspace c = true → is_lower_alnum (tolower c) = false.
Proof. by destruct c as [[] [] [] [] [] [] [] []]. Qed.

Lemma snake_char c :
  is_lower_alnum c = true ∨ c = "_"%char →
  isspace c = false ∧ tolower c = c ∧
  negb (is_lower_alnum c) = bool_decide (c = "_"%char).
Proof.
  intros [Hc| ->]; [|done]. split_and!.
  - by apply is_lower_alnum_nonspace.
  - by apply is_lower_alnum_tolower.
  - rewrite Hc. symmetry. apply bool_decide_eq_false_2.
    by apply is_lower_alnum_not_underscore.
Qed.

(** What [re.sub(r"[^0-9a-z]+", "_", s)] leaves. *)
Lemma squeeze_shape b l :
  let r := squeeze_go (λ c, negb (is_lower_alnum c)) b l in
  Forall (λ c, is_lower_alnum c = true ∨ c = "_"%char) r ∧
  single_underscores r ∧
  (b = true → head r ≠ Some "_"%char).
Proof.
  cbv zeta. revert b. induction l as [|c l IH]; intros b; [done|].
  cbn [squeeze_go]. destruct (is_lower_alnum c) eqn:Hc; cbn [negb].
  - destruct (IH false) as (Hall & Hsingle & _). split_and!.
    + constructor; [by left|done].
    + split; [|done]. intros ->. done.
    + intros _ [= ->]. done.
  - destruct (IH true) as (Hall & Hsingle & Hhead). destruct b.
    + done.
    + split_and!; [constructor; [by right|done]| |done].
      split; [|done]. intros _.
      destruct (squeeze_go _ true l) as [|c' r]; [done|].
      intros ->. by apply Hhead.
Qed.

(** A substitution of runs changes nothing in a text where the
    characters of the class are single underscores. *)
Lemma squeeze_id cls b l :
  Forall (λ c, cls c = bool_decide (c = "_"%char)) l →
  single_underscores l → (b = true → head l ≠ Some "_"%char) →
  squeeze_go cls b l = l.
Proof.
  intros Hall. revert b.
  induction Hall as [|c l Hc _ IH]; intros b Hsingle Hhead; [done|].
  cbn [squeeze_go]. rewrite Hc. destruct Hsingle as [Hnext Hsingle].
  case_bool_decide as Hus.
  - subst c. destruct b; [by destruct Hhead|].
    f_equal. apply IH; [done|]. intros _.
    specialize (Hnext eq_refl). destruct l; [done|]. by intros [= ->].
  - f_equal. by apply IH.
Qed.

Lemma filter_squeeze cls b l :
  (∀ c, cls c = true → is_lower_alnum c = false) →
  filter (λ c, is_lower_alnum c = true) (squeeze_go cls b l)
  = filter (λ c, is_lower_alnum c = true) l.
Proof.
  intros Hcls. revert b. induction l as [|c l IH]; intros b; [done|].
  cbn [squeeze_go]. destruct (cls c) eqn:Hc.
  - rewrite (filter_cons_False _ c l) by (rewrite Hcls; done).
    destruct b; [apply IH|].
    rewrite filter_cons_False by done. apply IH.
  - by rewrite !filter_cons, IH.
Qed.

Lemma lstrip_underscores_suffix l :
  ∃ pre, l = pre ++ lstrip_underscores l ∧ Forall (λ c, c = "_"%char) pre.
Proof.
  induction l as [|c l (pre & IH & Hpre)]; [by exists []|].
  cbn [lstrip_underscores]. case_bool_decide as Hc; [|by exists []].
  exists (c :: pre). split; [simpl; by f_equal|by constructor].
Qed.

Lemma lstrip_underscores_head l : head (lstrip_underscores l) ≠ Some "_"%char.
Proof.
  induction l as [|c l IH]; [done|].
  cbn [lstrip_underscores]. case_bool_decide as Hc; [done|].
  by intros [= ->].
Qed.

Lemma lstrip_underscores_id l :
  head l ≠ Some "_"%char → lstrip_underscores l = l.
Proof.
  destruct l as [|c l]; [done|]. intros Hc. cbn [lstrip_underscores].
  rewrite bool_decide_eq_false_2; [done|]. by intros ->.
Qed.

Lemma strip_underscores_parts l :
  ∃ pre post,
    l = pre ++ strip_underscores l ++ post ∧
    Forall (λ c, c = "_"%char) pre ∧ Forall (λ c, c = "_"%char) post.
Proof.
  destruct (lstrip_underscores_suffix l) as (pre & Hpre & Hus).
  destruct (lstrip_underscores_suffix (reverse (lstrip_underscores l)))
    as (post & Hpost & Hus').
  exists pre, (reverse post). unfold strip_underscores. split_and!.
  - rewrite <- reverse_app, <- Hpost, reverse_involutive. done.
  - done.
  - by apply Forall_reverse.
Qed.

Lemma strip_underscores_ends l :
  head (strip_underscores l) ≠ Some "_"%char ∧
  last (strip_underscores l) ≠ Some "_"%char.
Proof.
  split.
  - destruct (lstrip_underscores_suffix (reverse (lstrip_underscores l)))
      as (post & Hpost & _).
    pose proof (lstrip_underscores_head l) as Hhead.
    apply (f_equal reverse) in Hpost.
    rewrite reverse_involutive, reverse_app in Hpost.
    unfold strip_underscores.
    destruct (reverse (lstrip_underscores (reverse (lstrip_underscores l))))
      as [|c r]; [done|].
    by rewrite Hpost in Hhead.
  - unfold strip_underscores. rewrite last_reverse.
    apply lstrip_underscores_head.
Qed.

Lemma strip_underscores_id l :
  head l ≠ Some "_"%char → last l ≠ Some "_"%char → strip_underscores l = l.
Proof.
  intros Hhead Hlast. unfold strip_underscores.
  rewrite (lstrip_underscores_id l) by done.
  rewrite lstrip_underscores_id by (by rewrite head_reverse).
  apply reverse_involutive.
Qed.

Lemma single_underscores_app l1 l2 :
  single_underscores (l1 ++ l2) → single_underscores l1 ∧ single_underscores l2.
Proof.
  induction l1 as [|c l1 IH]; [done|].
  cbn [app single_underscores]. intros [Hc Hrest].
  destruct (IH Hrest) as [H1 H2]. split; [|done]. split; [|done].
  intros Heq. specialize (Hc Heq). by destruct l1.
Qed.

Lemma collapse_go_id b l :
  Forall (λ c, isspace c = false) l → collapse_go b l = l.
Proof.
  intros Hall. revert b. induction Hall as [|c l Hc _ IH]; intros b; [done|].
  cbn [collapse_go]. by rewrite Hc, IH.
Qed.

Lemma filter_lower_alnum_nonspace (l : list ascii) :
  filter (λ c, is_lower_alnum c = true) (tolower <$> filter nonspace l)
  = filter (λ c, is_lower_alnum c = true) (tolower <$> l).
Proof.
  induction l as [|c l IH]; [done|].
  rewrite fmap_cons. destruct (isspace c) eqn:Hc.
  - rewrite (filter_cons_False nonspace) by (unfold nonspace; congruence).
    rewrite (filter_cons_False _ (tolower c))
      by (rewrite isspace_not_lower_alnum; done).
    done.
  - rewrite (filter_cons_True nonspace) by done.
    by rewrite fmap_cons, !filter_cons, IH.
Qed.

Lemma normalize_chars s :
  ∃ l, Forall (λ c, is_lower_alnum c = true ∨ c = "_"%char) l ∧
       single_underscores l ∧
       filter (λ c, is_lower_alnum c = true) l
       = filter (λ c, is_lower_alnum c = true) (tolower <$> chars s) ∧
       _normalize s = text (strip_underscores l).
Proof.
  exists (squeeze_go (λ c, negb (is_lower_alnum c)) false
            (chars (lower (collapse_whitespace (strip s))))).
  destruct (squeeze_shape false
              (chars (lower (collapse_whitespace (strip s)))))
    as (Hall & Hsingle & _).
  split_and!; [done|done| |].
  - rewrite filter_squeeze by (by intros c ->%negb_true_iff).
    unfold lower, collapse_whitespace. rewrite !chars_text.
    rewrite <- filter_lower_alnum_nonspace, filter_nonspace_collapse_go,
      filter_nonspace_strip.
    apply filter_lower_alnum_nonspace.
  - unfold _normalize. cbv zeta. do 2 f_equal.
    apply squeeze_id; [|done|done].
    apply Forall_forall. done.
Qed.

Lemma snake_normal l :
  snake l → _normalize (text l) = text l.
Proof.
  intros (Hall & Hhead & Hlast & Hsingle).
  assert (Forall (λ c, isspace c = false) l) as Hnonspace.
  { eapply Forall_impl; [exact Hall|]. by intros c (? & _)%snake_char. }
  assert (strip (text l) = text l) as Hstrip.
  { apply trimmed_strip. unfold trimmed. rewrite chars_text. split.
    - destruct l as [|c l]; [done|]. by inversion Hnonspace.
    - apply Forall_reverse in Hnonspace.
      destruct (reverse l) as [|c r]; [done|]. by inversion Hnonspace. }
  unfold _normalize. cbv zeta. rewrite Hstrip.
  unfold collapse_whitespace. rewrite chars_text, collapse_go_id by done.
  unfold lower. rewrite !chars_text.
  assert (tolower <$> l = l) as ->.
  { rewrite <- (list_fmap_id l) at 2. apply Forall_fmap_ext.
    eapply Forall_impl; [exact Hall|]. by intros c (_ & ? & _)%snake_char. }
  rewrite (squeeze_id (λ c, negb (is_lower_alnum c)) false l); [|  |done|done].
  - rewrite squeeze_id; [|by apply Forall_forall|done|done].
    by rewrite strip_underscores_id.
  - eapply Forall_impl; [exact Hall|]. by intros c (_ & _ & ?)%snake_char.
Qed.

(** X18.  The generic header normaliser gives a name in snake case: only
    lower-case letters, digits and underscores, no underscore at either
    end and no two in a row.  The name keeps the letters and digits of
    the header, in lower case and in their order, and normalising a
    normalised name changes nothing. *)
Theorem normalize_snake (s : string) :
  snake (chars (_normalize s)) ∧
  filter (λ c, is_lower_alnum c = true) (chars (_normalize s))
  = filter (λ c, is_lower_alnum c = true) (tolower <$> chars s) ∧
  _normalize (_normalize s) = _normalize s.
Proof.
  destruct (normalize_chars s) as (l & Hall & Hsingle & Hfilter & ->).
  destruct (strip_underscores_parts l) as (pre & post & Hl & Hpre & Hpost).
  destruct (strip_underscores_ends l) as [Hhead Hlast].
  assert (snake (strip_underscores l)) as Hsnake.
  { split_and!; [|done|done|].
    - rewrite Hl in Hall. by apply Forall_app in Hall as [_ [? _]%Forall_app].
    - rewrite Hl in Hsingle.
      apply single_underscores_app in Hsingle as [_ Hsingle].
      by apply single_underscores_app in Hsingle as [? _]. }
  rewrite chars_text. split_and!; [done| |by apply snake_normal].
  rewrite <- Hfilter. rewrite Hl at 2. rewrite !filter_app.
  assert (∀ us, Forall (λ c, c = "_"%char) us →
                filter (λ c, is_lower_alnum c = true) us = []) as Hus.
  { induction 1 as [|c us -> _ IH]; [done|]. by rewrite filter_cons_False. }
  by rewrite (Hus pre), (Hus post), app_nil_r.
Qed.

Lemma percentile_digits l p :
  percentile l = Some p →
  ∃ d1 d2, p = [d1; d2] ∧ is_digit d1 = true ∧ is_digit d2 = true.
Proof.
  unfold percentile. destruct (lstrip_chars l) as [|d1 [|d2 rest]]; [done..|].
  destruct (is_digit d1) eqn:H1, (is_digit d2) eqn:H2; try done.
  cbn [andb]. intros Hp. exists d1, d2. split; [|done].
  destruct (ordinal_suffix _) as [rest'|]; [|done]. cbn [mbind option_bind] in Hp.
  destruct (ci_literal _ _) as [[|c tail]|]; cbn [mbind option_bind] in Hp;
    [congruence| |done].
  destruct (is_word c); congruence.
Qed.

(** X19.  For a header of the 7-bit range, the name the income script
    renames it to is in snake case, whichever rule of
    [_canonical_rename] gives it: lower-case letters and digits of that
    range, with single underscores between them only. *)
Theorem canonical_rename_snake (col : string) :
  seven_bit col →
  snake (chars (_canonical_rename col)).
Proof.
  intros _.
  assert (∀ l, Forall (λ c, is_lower_alnum c = true ∨ c = "_"%char) l →
               head l ≠ Some "_"%char → last l ≠ Some "_"%char →
               single_underscores l → snake l) as Hsnake
    by (intros; unfold snake; by split_and!).
  unfold _canonical_rename. cbv zeta.
  destruct (lsoa_word "code" _); [|destruct (lsoa_word "name" _)];
    [| |destruct (percentile _) as [p|] eqn:Hp;
          [|destruct (coverage _); [|apply normalize_snake]]].
  3: apply percentile_digits in Hp as (d1 & d2 & -> & H1 & H2);
     apply is_digit_lower_alnum in H1, H2;
     pose proof (is_lower_alnum_not_underscore _ H1);
     pose proof (is_lower_alnum_not_underscore _ H2);
     rewrite !chars_app, chars_text.
  all: cbn; apply Hsnake;
    [repeat (apply Forall_cons_2; [first [by left|by right]|]); apply Forall_nil_2
    |done|done|cbn [single_underscores]; repeat (split; [by intros ?|]); done].
Qed.

(** The theorem at a percentile header and at a header that only the
    fallback rule names. *)
Lemma canonical_rename_snake_witness :
  seven_bit " 10TH Percentile (GBP)" ∧
  _canonical_rename " 10TH Percentile (GBP)" = "p10_income" ∧
  snake (chars (_canonical_rename " 10TH Percentile (GBP)")) ∧
  _canonical_rename "Local Authority: Name " = "local_authority_name" ∧
  snake (chars (_canonical_rename "Local Authority: Name ")).
Proof.
  assert (seven_bit " 10TH Percentile (GBP)") as Hpercentile
    by (apply (bool_decide_unpack _); vm_compute; exact I).
  assert (seven_bit "Local Authority: Name ") as Hother
    by (apply (bool_decide_unpack _); vm_compute; exact I).
  split; [exact Hpercentile|]. split; [vm_compute; reflexivity|].
  split; [exact (canonical_rename_snake _ Hpercentile)|].
  split; [vm_compute; reflexivity|].
  exact (canonical_rename_snake _ Hother).
Defined.

End IncomeHeaders.

Section UniqueHeaders.
Import income.
Import PyStr.

Lemma py_str_Num_inj a b : py_str (Num a) = py_str (Num b) → a = b.
Proof.
  assert (∀ z, DecimalString.NilZero.int_of_string (py_str (Num z))
               = Some (Z.to_int z)) as Hread.
  { intros z. apply DecimalString.NilZero.isi.
    - intros Hz. pose proof (f_equal Z.of_int Hz) as Hz'.
      rewrite DecimalZ.of_to in Hz'. by subst z.
    - intros Hz. pose proof (f_equal Z.of_int Hz) as Hz'.
      rewrite DecimalZ.of_to in Hz'. by subst z. }
  intros Heq. pose proof (Hread a) as Ha. rewrite Heq, Hread in Ha.
  injection Ha as Ha. apply (f_equal Z.of_int) in Ha.
  by rewrite !DecimalZ.of_to in Ha.
Qed.

Lemma suffixed_inj base a b : suffixed base a = suffixed base b → a = b.
Proof.
  unfold suffixed. intros Heq. apply (f_equal chars) in Heq.
  rewrite !chars_app in Heq. do 2 apply app_inv_head in Heq.
  apply py_str_Num_inj. by rewrite <- (text_chars (py_str (Num a))), Heq, text_chars.
Qed.

Lemma first_free_None base seen fuel k :
  first_free base seen fuel k = None →
  ∀ i, (i < fuel)%nat → suffixed base (k + Z.of_nat i) ∈ seen.
Proof.
  revert k. induction fuel as [|fuel IH]; intros k Hnone i Hi; [lia|].
  cbn [first_free] in Hnone. case_bool_decide as Hk; [|done].
  destruct i as [|i].
  - by rewrite Z.add_0_r.
  - replace (k + Z.of_nat (S i))%Z with (k + 1 + Z.of_nat i)%Z by lia.
    apply IH; [done|lia].
Qed.

Lemma first_free_Some base seen fuel k k' :
  first_free base seen fuel k = Some k' →
  (k ≤ k')%Z ∧ suffixed base k' ∉ seen.
Proof.
  revert k. induction fuel as [|fuel IH]; intros k; [done|].
  cbn [first_free]. case_bool_decide as Hk.
  - intros [? ?]%IH. split; [lia|done].
  - intros [= <-]. split; [lia|done].
Qed.

(** The inner loop ends: of the names [base_k], [base_(k+1)], ..., one
    more than [seen] has, one is not in [seen]. *)
Lemma first_free_total base (seen : gset string) k :
  is_Some (first_free base seen (S (size seen)) k).
Proof.
  destruct (first_free base seen (S (size seen)) k) as [k'|] eqn:Hfree;
    [by eexists|].
  exfalso. pose proof (first_free_None _ _ _ _ Hfree) as Hall.
  set (names := (λ i : nat, suffixed base (k + Z.of_nat i))
                  <$> seq 0 (S (size seen))).
  assert (NoDup names) as Hnodup.
  { apply NoDup_fmap_2; [|apply NoDup_seq].
    intros i j Hij%suffixed_inj. lia. }
  assert (list_to_set names ⊆ seen) as Hsub.
  { intros name (i & -> & Hi%elem_of_seq)%elem_of_list_to_set%list_elem_of_fmap.
    apply Hall. lia. }
  apply subseteq_size in Hsub.
  rewrite size_list_to_set in Hsub by done.
  unfold names in Hsub. rewrite length_fmap, length_seq in Hsub. lia.
Qed.

Lemma rename_loop cols new_cols :
  NoDup new_cols →
  ∃ new_cols',
    foldl rename_step (Some (new_cols, list_to_set new_cols)) cols
    = Some (new_cols ++ new_cols', list_to_set (new_cols ++ new_cols')) ∧
    NoDup (new_cols ++ new_cols') ∧
    Forall2 (λ c nc,
               ((_canonical_rename c ∉ new_cols) ∧ nc = _canonical_rename c) ∨
               ∃ k, (2 ≤ k)%Z ∧ nc = suffixed (_canonical_rename c) k)
            cols new_cols'.
Proof.
  revert new_cols. induction cols as [|c cols IH]; intros new_cols Hnodup.
  - exists []. rewrite app_nil_r. by split_and!.
  - cbn [foldl]. unfold rename_step at 2. cbn [mbind option_bind].
    assert (∃ nc,
      (if bool_decide (_canonical_rename c ∈ (list_to_set new_cols : gset string))
       then suffixed (_canonical_rename c)
              <$> first_free (_canonical_rename c) (list_to_set new_cols)
                    (S (size (list_to_set new_cols : gset string))) 2
       else Some (_canonical_rename c)) = Some nc ∧
      (nc ∉ new_cols) ∧
      (((_canonical_rename c ∉ new_cols) ∧ nc = _canonical_rename c) ∨
       ∃ k, (2 ≤ k)%Z ∧ nc = suffixed (_canonical_rename c) k))
      as (nc & -> & Hfresh & Hnc).
    { case_bool_decide as Hseen.
      - destruct (first_free_total (_canonical_rename c)
                    (list_to_set new_cols) 2) as [k Hk].
        rewrite Hk. apply first_free_Some in Hk as [Hle Hfree].
        exists (suffixed (_canonical_rename c) k). split_and!; [done| |by eauto].
        by rewrite elem_of_list_to_set in Hfree.
      - rewrite elem_of_list_to_set in Hseen. eexists. split_and!; [done..|].
        by left. }
    cbn [mbind option_bind].
    assert ({[nc]} ∪ list_to_set new_cols
            = (list_to_set (new_cols ++ [nc]) : gset string)) as ->.
    { rewrite list_to_set_app_L. cbn [list_to_set].
      rewrite (right_id_L ∅ (∪)). apply union_comm_L. }
    destruct (IH (new_cols ++ [nc])) as (new_cols' & -> & Hnodup' & Hall).
    { apply NoDup_app. split_and!; [done| |apply NoDup_singleton].
      by intros x Hx ->%list_elem_of_singleton. }
    exists (nc :: new_cols'). rewrite <- !app_assoc in *. split_and!; [done..|].
    constructor; [done|].
    eapply Forall2_impl; [done|]. intros c' nc' [[Hc' ->]|?]; [|by right].
    left. split; [|done]. intros Hin. apply Hc', elem_of_app. by left.
Qed.

Lemma strip_idemp s : strip (strip s) = strip s.
Proof. apply trimmed_strip, strip_trimmed. Qed.

Lemma canonical_rename_strip c : _canonical_rename (strip c) = _canonical_rename c.
Proof. unfold _canonical_rename. by rewrite strip_idemp. Qed.

Lemma rename_loop_distinct cols new_cols :
  NoDup (_canonical_rename <$> cols) →
  (∀ c, c ∈ cols → _canonical_rename c ∉ new_cols) →
  foldl rename_step (Some (new_cols, list_to_set new_cols)) cols
  = Some (new_cols ++ (_canonical_rename <$> cols),
          list_to_set (new_cols ++ (_canonical_rename <$> cols))).
Proof.
  revert new_cols. induction cols as [|c cols IH]; intros new_cols Hnodup Hfresh.
  - cbn [foldl fmap list_fmap]. by rewrite app_nil_r.
  - rewrite fmap_cons in *. apply NoDup_cons in Hnodup as [Hc Hnodup].
    cbn [foldl]. unfold rename_step at 2. cbn [mbind option_bind].
    rewrite bool_decide_eq_false_2
      by (rewrite elem_of_list_to_set; apply Hfresh; left).
    cbn [mbind option_bind].
    assert ({[_canonical_rename c]} ∪ list_to_set new_cols
            = (list_to_set (new_cols ++ [_canonical_rename c]) : gset string))
      as ->.
    { rewrite list_to_set_app_L. cbn [list_to_set].
      rewrite (right_id_L ∅ (∪)). apply union_comm_L. }
    rewrite IH; [by rewrite <- !app_assoc|done|].
    intros c' Hc' [Hin|Hin%list_elem_of_singleton]%elem_of_app.
    + apply (Hfresh c'); [by right|done].
    + apply Hc. rewrite <- Hin. apply list_elem_of_fmap. by exists c'.
Qed.

(** X20.  The headers the income script sets.  The inner loop that looks
    for a free suffix always ends, within one test more than there are
    names in use.  There is one new header for each header of the file,
    no two are the same, and each is the canonical name of its header,
    or that name with [_k] after it for a [k] from 2 on; when the
    canonical names are all different, they are the new headers. *)
Theorem new_columns_unique (cols : list string) :
  ∃ new_cols,
    new_columns cols = Some new_cols ∧
    length new_cols = length cols ∧
    NoDup new_cols ∧
    Forall2 (λ c nc,
               nc = _canonical_rename c ∨
               ∃ k, (2 ≤ k)%Z ∧ nc = suffixed (_canonical_rename c) k)
            cols new_cols ∧
    (NoDup (_canonical_rename <$> cols) →
     new_cols = _canonical_rename <$> cols).
Proof.
  destruct (rename_loop (strip <$> cols) []) as (new_cols & Hloop & Hnodup & Hall);
    [constructor|].
  exists new_cols. unfold new_columns.
  change (∅ : gset string) with (list_to_set [] : gset string).
  rewrite Hloop. cbn [fmap option_fmap option_map fst app].
  apply Forall2_fmap_l in Hall.
  assert (_canonical_rename <$> (strip <$> cols) = _canonical_rename <$> cols)
    as Hstrip.
  { rewrite <- list_fmap_compose. apply list_fmap_ext.
    intros _ c _. apply canonical_rename_strip. }
  split_and!; [done| |done| |].
  - symmetry. by eapply Forall2_length.
  - eapply Forall2_impl; [done|]. intros c nc. unfold compose.
    rewrite canonical_rename_strip. intros [[_ ?]|?]; [by left|by right].
  - intros Hdistinct.
    rewrite (rename_loop_distinct (strip <$> cols) []) in Hloop.
    + rewrite Hstrip in Hloop. cbn [app] in Hloop. congruence.
    + by rewrite Hstrip.
    + intros c _ Hin. by apply elem_of_nil in Hin.
Qed.

End UniqueHeaders.

(** ** The reference table of the ONS script *)

Section OnsMapping.
Import onspostcoedmapping.
Import PyStr Frame.

Lemma and_then_Ok {A B} (a : A) (f : A → step B) : and_then ([], Ok a) f = f a.
Proof. unfold and_then. by destruct (f a). Qed.

Lemma require_cols_Ok df need :
  need ⊆ columns df → _require_cols df need = ([], Ok tt).
Proof.
  intros Hneed. unfold _require_cols. rewrite filter_none; [done|].
  intros c Hc Hnot. by apply Hnot, Hneed.
Qed.

Lemma require_cols_Raise df need :
  ¬ need ⊆ columns df →
  _require_cols df need
  = ([(ERROR, "%s is missing columns: %s")], Raise ValueError).
Proof.
  intros Hneed. unfold _require_cols.
  destruct (filter (λ c, c ∉ columns df) need) as [|c missing] eqn:Hmissing;
    [|done].
  destruct Hneed. intros c Hc.
  destruct (decide (c ∈ columns df)) as [|Hnot]; [done|].
  assert (c ∈ filter (λ c, c ∉ columns df) need) as Hin
    by (by apply list_elem_of_filter).
  rewrite Hmissing in Hin. by apply elem_of_nil in Hin.
Qed.

Lemma read_lookup_cases file need :
  (∃ df, file = Some df ∧ need ⊆ columns (stripped df) ∧
         read_lookup file need = ([], Ok (stripped df))) ∨
  (¬ usable file need ∧
   ∃ msg e, read_lookup file need = ([(ERROR, msg)], Raise e)).
Proof.
  unfold read_lookup, usable. destruct file as [df|].
  - destruct (decide (need ⊆ columns (stripped df))) as [Hneed|Hneed].
    + left. exists df. split_and!; [done..|].
      cbn [_read_csv]. by rewrite and_then_Ok, require_cols_Ok.
    + right. split; [by intros (? & [= <-] & ?)|].
      cbn [_read_csv]. rewrite and_then_Ok, require_cols_Raise by done.
      by eexists _, _.
  - right. split; [by intros (? & ? & _)|]. by eexists _, _.
Qed.

Lemma select_cols_Ok cs df :
  cs ⊆ columns df → select_cols cs df = ([], Ok (select cs df)).
Proof. intros Hcs. unfold select_cols. by rewrite bool_decide_eq_true_2. Qed.

Lemma lsoa11_key_cases df :
  (lsoa11_key df = None ∧ ("LSOA11" ∉ columns df) ∧ "LSOA11CD" ∉ columns df) ∨
  (lsoa11_key df = Some "LSOA11" ∧ "LSOA11" ∈ columns df) ∨
  (lsoa11_key df = Some "LSOA11CD" ∧ "LSOA11CD" ∈ columns df).
Proof. unfold lsoa11_key. repeat case_bool_decide; eauto. Qed.

Lemma length_bind_ge {A B} (f : A → list B) (l : list A) :
  Forall (λ a, 1 ≤ length (f a)) l → length l ≤ length (l ≫= f).
Proof.
  induction 1 as [|a l Ha _ IH]; [done|].
  rewrite bind_cons, length_app. simpl. lia.
Qed.

Lemma matches_select right cs left_on right_on l :
  right_on ∈ cs →
  length (matches (select cs right) left_on right_on l)
  = length (matches right left_on right_on l).
Proof.
  intros Hin. unfold matches, select. cbn [rows].
  induction (rows right) as [|r rs IH]; [done|].
  rewrite fmap_cons, !filter_cons, get_select_row by done.
  destruct (decide _); simpl; by rewrite IH.
Qed.

(** One merge on distinct key labels, into a frame that has neither
    column of the lookup. *)
Lemma merge_lookup_distinct left left_on right right_on name :
  [right_on; name] ⊆ columns right →
  right_on ∉ columns left → name ∉ columns left → left_on ≠ right_on →
  ∃ m, merge_lookup left left_on right right_on name = ([], Ok m) ∧
       columns m = columns left ++ [right_on; name] ∧
       length (rows left) ≤ length (rows m) ∧
       (NoDup (column right_on right) → length (rows m) = length (rows left)).
Proof.
  intros Hcols Hkey Hname Hne. unfold merge_lookup.
  rewrite select_cols_Ok, and_then_Ok by done.
  rewrite bool_decide_eq_false_2 by done. eexists. split; [done|].
  split_and!.
  - rewrite columns_merge_left. unfold merged_label. cbn [select columns].
    rewrite !fmap_cons, fmap_nil.
    by rewrite !bool_decide_eq_false_2 by done.
  - rewrite rows_merge_left. apply length_bind_ge, Forall_forall.
    intros l _. destruct (matches _ _ _ l); [done|].
    rewrite length_fmap. simpl. lia.
  - intros Hnodup. apply length_rows_merge_left. intros l _.
    rewrite matches_select by left.
    by apply filter_key_NoDup.
Qed.

Lemma columns_merge_on left right on :
  columns (merge_on left right on)
  = columns left ++ filter (λ c, c ≠ on) (columns right).
Proof. done. Qed.

Lemma rows_merge_on left right on :
  rows (merge_on left right on)
  = l ← rows left;
    match matches right on on l with
    | [] => [l ++ ((λ c, (c, NaN)) <$> filter (λ c, c ≠ on) (columns right))]
    | ms => (λ r : row, l ++ filter (λ kv : string * value, kv.1 ≠ on) r) <$> ms
    end.
Proof. done. Qed.

(** One merge on the label both frames have. *)
Lemma merge_lookup_same left on right name :
  [on; name] ⊆ columns right → name ≠ on →
  ∃ m, merge_lookup left on right on name = ([], Ok m) ∧
       columns m = columns left ++ [name] ∧
       length (rows left) ≤ length (rows m) ∧
       (NoDup (column on right) → length (rows m) = length (rows left)).
Proof.
  intros Hcols Hne. unfold merge_lookup.
  rewrite select_cols_Ok, and_then_Ok by done.
  rewrite bool_decide_eq_true_2 by done. eexists. split; [done|].
  split_and!.
  - rewrite columns_merge_on. cbn [select columns].
    by rewrite filter_cons_False, filter_cons_True, filter_nil by (by intros ?).
  - rewrite rows_merge_on. apply length_bind_ge, Forall_forall.
    intros l _. destruct (matches _ _ _ l); [done|].
    rewrite length_fmap. simpl. lia.
  - intros Hnodup. rewrite rows_merge_on.
    apply length_bind_singletons, Forall_forall. intros l _.
    assert (length (matches (select [on; name] right) on on l) ≤ 1) as Hle.
    { rewrite matches_select by left. by apply filter_key_NoDup. }
    destruct (matches _ on on l) as [|r [|r' ms]]; [done|done|].
    simpl in Hle. lia.
Qed.

(** The five merges of lines 156-163, into a slice with the columns kept
    at line 121. *)
Lemma merge_lookups_spec ons region icb msoa lsoa country key :
  columns ons = ONS_KEEP_COLS ++ option_list key →
  key = None ∨ key = Some "LSOA11" ∨ key = Some "LSOA11CD" →
  ["NHSER24CDH"; "NHSER24NM"] ⊆ columns region →
  ["ICB23CDH"; "ICB23NM"] ⊆ columns icb →
  ["MSOA21CD"; "MSOA21NM"] ⊆ columns msoa →
  ["LSOA21CD"; "LSOA21NM"] ⊆ columns lsoa →
  ["CTRY12CD"; "CTRY12NM"] ⊆ columns country →
  ∃ m, merge_lookups ons region icb msoa lsoa country = ([], Ok m) ∧
       columns m = ONS_KEEP_COLS ++ option_list key ++
                   ["NHSER24CDH"; "NHSER24NM"; "ICB23CDH"; "ICB23NM";
                    "MSOA21CD"; "MSOA21NM"; "LSOA21CD"; "LSOA21NM";
                    "CTRY12CD"; "CTRY12NM"] ∧
       length (rows ons) ≤ length (rows m) ∧
       (NoDup (column "NHSER24CDH" region) → NoDup (column "ICB23CDH" icb) →
        NoDup (column "MSOA21CD" msoa) → NoDup (column "LSOA21CD" lsoa) →
        NoDup (column "CTRY12CD" country) →
        length (rows m) = length (rows ons)).
Proof.
  intros Hcols Hkey Hregion Hicb Hmsoa Hlsoa Hcountry. unfold merge_lookups.
  destruct (merge_lookup_distinct ons "NHSER" region "NHSER24CDH" "NHSER24NM")
    as (m1 & Hm1 & Hc1 & Hge1 & Heq1); [done| | |done|];
    [rewrite Hcols; destruct Hkey as [-> | [-> | ->]];
     apply (bool_decide_unpack _); vm_compute; exact I..|].
  rewrite Hcols in Hc1. rewrite Hm1, and_then_Ok.
  destruct (merge_lookup_distinct m1 "ICB" icb "ICB23CDH" "ICB23NM")
    as (m2 & Hm2 & Hc2 & Hge2 & Heq2); [done| | |done|];
    [rewrite Hc1; destruct Hkey as [-> | [-> | ->]];
     apply (bool_decide_unpack _); vm_compute; exact I..|].
  rewrite Hc1 in Hc2. rewrite Hm2, and_then_Ok.
  destruct (merge_lookup_distinct m2 "MSOA21" msoa "MSOA21CD" "MSOA21NM")
    as (m3 & Hm3 & Hc3 & Hge3 & Heq3); [done| | |done|];
    [rewrite Hc2; destruct Hkey as [-> | [-> | ->]];
     apply (bool_decide_unpack _); vm_compute; exact I..|].
  rewrite Hc2 in Hc3. rewrite Hm3, and_then_Ok.
  destruct (merge_lookup_distinct m3 "LSOA21" lsoa "LSOA21CD" "LSOA21NM")
    as (m4 & Hm4 & Hc4 & Hge4 & Heq4); [done| | |done|];
    [rewrite Hc3; destruct Hkey as [-> | [-> | ->]];
     apply (bool_decide_unpack _); vm_compute; exact I..|].
  rewrite Hc3 in Hc4. rewrite Hm4, and_then_Ok.
  destruct (merge_lookup_distinct m4 "CTRY" country "CTRY12CD" "CTRY12NM")
    as (m5 & Hm5 & Hc5 & Hge5 & Heq5); [done| | |done|];
    [rewrite Hc4; destruct Hkey as [-> | [-> | ->]];
     apply (bool_decide_unpack _); vm_compute; exact I..|].
  rewrite Hc4 in Hc5. exists m5. split_and!; [done| |lia|].
  - rewrite Hc5. by rewrite <- !app_assoc.
  - intros H1 H2 H3 H4 H5.
    rewrite Heq5, Heq4, Heq3, Heq2, Heq1 by done. done.
Qed.

Lemma and_then_log {A B} log (a : A) (f : A → step B) :
  and_then (log, Ok a) f = (log ++ (f a).1, (f a).2).
Proof. unfold and_then. by destruct (f a). Qed.

(** [main] up to the last of the required inputs. *)
Lemma build_reads ons region msoa lsoa icb country lsoa11_file :
  ONS_KEEP_COLS ⊆ columns (stripped ons) →
  ["NHSER24CDH"; "NHSER24NM"] ⊆ columns (stripped region) →
  ["MSOA21CD"; "MSOA21NM"] ⊆ columns (stripped msoa) →
  ["LSOA21CD"; "LSOA21NM"] ⊆ columns (stripped lsoa) →
  ["ICB23CDH"; "ICB23NM"] ⊆ columns (stripped icb) →
  ["CTRY12CD"; "CTRY12NM"] ⊆ columns (stripped country) →
  build (Some ons) (Some region) (Some msoa) (Some lsoa) (Some icb)
    (Some country) lsoa11_file
  = and_then (read_lsoa11 lsoa11_file) (λ lsoa11,
    and_then (merge_lookups
                (select (ONS_KEEP_COLS ++ option_list (lsoa11_key (stripped ons)))
                        (stripped ons))
                (stripped region) (stripped icb) (stripped msoa)
                (stripped lsoa) (stripped country)) (λ merged,
    and_then (merge_lsoa11 merged lsoa11 (lsoa11_key (stripped ons))) (λ merged,
    select_cols (final_cols merged) (rename_columns merged)))).
Proof.
  intros Hons Hregion Hmsoa Hlsoa Hicb Hcountry. unfold build.
  cbn [_read_csv]. rewrite and_then_Ok. cbv zeta.
  rewrite require_cols_Ok, and_then_Ok by done.
  rewrite select_cols_Ok, and_then_Ok.
  2:{ intros c [Hc|Hc]%elem_of_app; [by apply Hons|].
      destruct (lsoa11_key_cases (stripped ons))
        as [(Hk & _)|[(Hk & ?)|(Hk & ?)]]; rewrite Hk in Hc;
        [by apply elem_of_nil in Hc|..];
        by apply list_elem_of_singleton in Hc as ->. }
  destruct (read_lookup_cases (Some region) ["NHSER24CDH"; "NHSER24NM"])
    as [(? & [= <-] & _ & ->)|[[] _]]; [|by exists region].
  rewrite and_then_Ok.
  destruct (read_lookup_cases (Some msoa) ["MSOA21CD"; "MSOA21NM"])
    as [(? & [= <-] & _ & ->)|[[] _]]; [|by exists msoa].
  rewrite and_then_Ok.
  destruct (read_lookup_cases (Some lsoa) ["LSOA21CD"; "LSOA21NM"])
    as [(? & [= <-] & _ & ->)|[[] _]]; [|by exists lsoa].
  rewrite and_then_Ok.
  destruct (read_lookup_cases (Some icb) ["ICB23CDH"; "ICB23NM"])
    as [(? & [= <-] & _ & ->)|[[] _]]; [|by exists icb].
  rewrite and_then_Ok.
  destruct (read_lookup_cases (Some country) ["CTRY12CD"; "CTRY12NM"])
    as [(? & [= <-] & _ & ->)|[[] _]]; [|by exists country].
  by rewrite and_then_Ok.
Qed.

Lemma read_lsoa11_cases file :
  (file = None ∧
   read_lsoa11 file
   = ([(ERROR, "Missing file: %s");
       (WARNING, "LSOA 2011 lookup not found. Skipping LSOA2011 merge.")],
      Ok None)) ∨
  (∃ l11, file = Some l11 ∧
     ["LSOA11CD"; "LSOA11NM"] ⊆ columns (stripped l11) ∧
     read_lsoa11 file = ([], Ok (Some (stripped l11)))) ∨
  (∃ l11, file = Some l11 ∧
     ¬ ["LSOA11CD"; "LSOA11NM"] ⊆ columns (stripped l11) ∧
     read_lsoa11 file
     = ([(ERROR, "%s is missing columns: %s");
         (WARNING, "LSOA 2011 lookup missing required columns (%s). Skipping LSOA2011 merge.")],
        Ok (Some (stripped l11)))).
Proof.
  destruct file as [l11|]; [|by left]. right. unfold read_lsoa11.
  cbn [_read_csv].
  destruct (decide (["LSOA11CD"; "LSOA11NM"] ⊆ columns (stripped l11))).
  - left. exists l11. by rewrite require_cols_Ok.
  - right. exists l11. by rewrite require_cols_Raise.
Qed.

(** The merge of the 2011 names, when it is made. *)
Lemma merge_lsoa11_made merged l11 key k :
  columns merged
  = ONS_KEEP_COLS ++ option_list key ++
    ["NHSER24CDH"; "NHSER24NM"; "ICB23CDH"; "ICB23NM"; "MSOA21CD"; "MSOA21NM";
     "LSOA21CD"; "LSOA21NM"; "CTRY12CD"; "CTRY12NM"] →
  key = Some k → k = "LSOA11" ∨ k = "LSOA11CD" →
  ["LSOA11CD"; "LSOA11NM"] ⊆ columns l11 →
  ∃ m, merge_lsoa11 merged (Some l11) key = ([], Ok m) ∧
       "LSOA11CD" ∈ columns m ∧ "LSOA11NM" ∈ columns m ∧
       final_cols m ⊆ columns (rename_columns m) ∧
       length (rows merged) ≤ length (rows m) ∧
       (NoDup (column "LSOA11CD" l11) → length (rows m) = length (rows merged)).
Proof.
  intros Hcols -> [-> | ->] Hneed; cbn [merge_lsoa11].
  - destruct (merge_lookup_distinct merged "LSOA11" l11 "LSOA11CD" "LSOA11NM")
      as (m & Hm & Hc & Hge & Heq); [done| | |done|];
      [rewrite Hcols; apply (bool_decide_unpack _); vm_compute; exact I..|].
    exists m. rewrite Hcols in Hc. unfold final_cols, rename_columns.
    cbn [columns]. rewrite Hc.
    split_and!; [done| | | |done|done];
      apply (bool_decide_unpack _); vm_compute; exact I.
  - destruct (merge_lookup_same merged "LSOA11CD" l11 "LSOA11NM")
      as (m & Hm & Hc & Hge & Heq); [done..|].
    exists m. rewrite Hcols in Hc. unfold final_cols, rename_columns.
    cbn [columns]. rewrite Hc.
    split_and!; [done| | | |done|done];
      apply (bool_decide_unpack _); vm_compute; exact I.
Qed.

(** The columns at the end, when the 2011 names are not merged. *)
Lemma final_cols_plain merged key :
  columns merged
  = ONS_KEEP_COLS ++ option_list key ++
    ["NHSER24CDH"; "NHSER24NM"; "ICB23CDH"; "ICB23NM"; "MSOA21CD"; "MSOA21NM";
     "LSOA21CD"; "LSOA21NM"; "CTRY12CD"; "CTRY12NM"] →
  key = None ∨ key = Some "LSOA11" ∨ key = Some "LSOA11CD" →
  final_cols merged
  = ["PCD2"; "PCDS"; "RegionCode"; "RegionName"; "ICBID"; "ICBName";
     "MSOAID"; "MSOAName"; "LSOAID"; "LSOAName"; "CountryName"] ∧
  final_cols merged ⊆ columns (rename_columns merged).
Proof.
  intros Hcols Hkey. unfold final_cols, rename_columns. cbn [columns].
  rewrite Hcols.
  destruct Hkey as [-> | [-> | ->]]; split;
    first [by vm_compute | apply (bool_decide_unpack _); vm_compute; exact I].
Qed.

Lemma length_rows_final cs merged :
  length (rows (select cs (rename_columns merged))) = length (rows merged).
Proof. unfold select, rename_columns. cbn [rows]. by rewrite !length_fmap. Qed.

(** X21.  The reference table the ONS script builds, from files with
    distinct trimmed headers, when the six required files are there with
    their columns, and the 2011 lookup, if the slice has a key for it,
    has its two columns.  The script ends
    with status 0 and writes a table with the ten fixed columns, the two
    2011 columns exactly when there is a 2011 lookup and the slice has a
    key for it, and [CountryName] last.  No row of the slice is lost: the
    table has at least as many rows, and exactly as many when no code
    comes twice in a lookup.  Nothing is logged above the informational
    level when the 2011 names are merged, and a warning is logged when
    they are not. *)
Theorem ons_mapping_output ons region msoa lsoa icb country lsoa11_file :
  Forall well_headed [Some ons; Some region; Some msoa; Some lsoa; Some icb;
                      Some country; lsoa11_file] →
  ONS_KEEP_COLS ⊆ columns (stripped ons) →
  ["NHSER24CDH"; "NHSER24NM"] ⊆ columns (stripped region) →
  ["MSOA21CD"; "MSOA21NM"] ⊆ columns (stripped msoa) →
  ["LSOA21CD"; "LSOA21NM"] ⊆ columns (stripped lsoa) →
  ["ICB23CDH"; "ICB23NM"] ⊆ columns (stripped icb) →
  ["CTRY12CD"; "CTRY12NM"] ⊆ columns (stripped country) →
  (∀ l11, lsoa11_file = Some l11 → is_Some (lsoa11_key (stripped ons)) →
          ["LSOA11CD"; "LSOA11NM"] ⊆ columns (stripped l11)) →
  let p := main (Some ons) (Some region) (Some msoa) (Some lsoa) (Some icb)
             (Some country) lsoa11_file in
  let with_2011 :=
    bool_decide (is_Some lsoa11_file ∧ is_Some (lsoa11_key (stripped ons))) in
  exit_code p = 0%Z ∧
  ∃ final,
    written p = Some final ∧
    columns final
    = ["PCD2"; "PCDS"; "RegionCode"; "RegionName"; "ICBID"; "ICBName";
       "MSOAID"; "MSOAName"; "LSOAID"; "LSOAName"]
      ++ (if with_2011 then ["LSOA11ID"; "LSOA11Name"] else [])
      ++ ["CountryName"] ∧
    length (rows ons) ≤ length (rows final) ∧
    (NoDup (column "NHSER24CDH" (stripped region)) →
     NoDup (column "ICB23CDH" (stripped icb)) →
     NoDup (column "MSOA21CD" (stripped msoa)) →
     NoDup (column "LSOA21CD" (stripped lsoa)) →
     NoDup (column "CTRY12CD" (stripped country)) →
     (∀ l11, lsoa11_file = Some l11 →
             NoDup (column "LSOA11CD" (stripped l11))) →
     length (rows final) = length (rows ons)) ∧
    (if with_2011 then log p = [] else ∃ msg, (WARNING, msg) ∈ log p).
Proof.
  intros _ Hons Hregion Hmsoa Hlsoa Hicb Hcountry H2011. cbv zeta.
  unfold main. rewrite build_reads by done.
  assert (lsoa11_key (stripped ons) = None ∨
          lsoa11_key (stripped ons) = Some "LSOA11" ∨
          lsoa11_key (stripped ons) = Some "LSOA11CD") as Hkey.
  { destruct (lsoa11_key_cases (stripped ons)) as [(? & _)|[(? & _)|(? & _)]];
      eauto. }
  revert H2011 Hkey. generalize (lsoa11_key (stripped ons)). intros key H2011 Hkey.
  assert (length (rows (select (ONS_KEEP_COLS ++ option_list key) (stripped ons)))
          = length (rows ons)) as Hlen.
  { unfold select, stripped. cbn [rows]. by rewrite !length_fmap. }
  destruct (merge_lookups_spec
              (select (ONS_KEEP_COLS ++ option_list key) (stripped ons))
              (stripped region) (stripped icb) (stripped msoa)
              (stripped lsoa) (stripped country) key)
    as (m5 & Hm5 & Hc5 & Hge5 & Heq5); [done..|].
  rewrite Hlen in Hge5, Heq5.
  assert (∀ lsoa11,
    (lsoa11 = None ∨ key = None) →
    ∃ skipped,
      (∃ msg, (WARNING, msg) ∈ skipped) ∧
      ∀ log, and_then (log, Ok lsoa11) (λ lsoa11,
        and_then (merge_lookups
                    (select (ONS_KEEP_COLS ++ option_list key) (stripped ons))
                    (stripped region) (stripped icb) (stripped msoa)
                    (stripped lsoa) (stripped country)) (λ merged,
        and_then (merge_lsoa11 merged lsoa11 key) (λ merged,
        select_cols (final_cols merged) (rename_columns merged))))
      = (log ++ skipped, Ok (select (final_cols m5) (rename_columns m5))))
    as Hplain.
  { intros lsoa11 Hskip.
    destruct (final_cols_plain m5 key Hc5 Hkey) as [_ Hsub].
    assert (∃ skipped, merge_lsoa11 m5 lsoa11 key = (skipped, Ok m5) ∧
                       ∃ msg, (WARNING, msg) ∈ skipped)
      as (skipped & Hskipped & Hwarn).
    { destruct Hskip as [-> | ->]; [|destruct lsoa11]; cbn;
        eexists; (split; [done|]); eexists; by left. }
    exists skipped. split; [done|]. intros log.
    rewrite and_then_log. cbv beta. rewrite Hm5, and_then_Ok.
    rewrite Hskipped, and_then_log. cbv beta.
    rewrite (select_cols_Ok _ _ Hsub). cbn [fst snd]. by rewrite app_nil_r. }
  destruct (final_cols_plain m5 key Hc5 Hkey) as [Hfinal _].
  destruct (read_lsoa11_cases lsoa11_file)
    as [[-> ->]|[(l11 & -> & Hneed & ->)|(l11 & -> & Hneed & ->)]].
  - (* no 2011 lookup *)
    destruct (Hplain None) as (skipped & [msg Hmsg] & Heq); [by left|].
    rewrite Heq.
    rewrite bool_decide_eq_false_2 by (by intros [[? ?] _]).
    split; [done|]. eexists. split_and!; [done| |..].
    + cbn [select columns]. by rewrite Hfinal.
    + by rewrite length_rows_final.
    + intros. rewrite length_rows_final. by apply Heq5.
    + exists msg. cbn [log]. apply elem_of_app. by right.
  - (* a 2011 lookup with its columns *)
    destruct key as [k|].
    + destruct (merge_lsoa11_made m5 (stripped l11) (Some k) k)
        as (m6 & Hm6 & Hcd & Hnm & Hsub & Hge6 & Heq6); [done|done| |done|].
      { destruct Hkey as [?|[[= <-]|[= <-]]]; [done|by left|by right]. }
      rewrite and_then_Ok, Hm5, and_then_Ok, Hm6, and_then_Ok.
      rewrite select_cols_Ok by done.
      rewrite bool_decide_eq_true_2 by (split; by eexists).
      split; [done|]. eexists. split_and!; [done| |..].
      * cbn [select columns]. unfold final_cols.
        by rewrite bool_decide_eq_true_2.
      * rewrite length_rows_final. lia.
      * intros ? ? ? ? ? H11. rewrite length_rows_final, Heq6, Heq5; eauto.
      * done.
    + destruct (Hplain (Some (stripped l11)))
        as (skipped & [msg Hmsg] & Heq); [by right|].
      rewrite Heq.
      rewrite bool_decide_eq_false_2 by (by intros [_ [? ?]]).
      split; [done|]. eexists. split_and!; [done| |..].
      * cbn [select columns]. by rewrite Hfinal.
      * by rewrite length_rows_final.
      * intros. rewrite length_rows_final. by apply Heq5.
      * by exists msg.
  - (* a 2011 lookup without its columns: the slice has no key for it *)
    destruct key as [k|]; [destruct Hneed; apply H2011; by eexists|].
    destruct (Hplain (Some (stripped l11)))
      as (skipped & [msg Hmsg] & Heq); [by right|].
    rewrite Heq.
    rewrite bool_decide_eq_false_2 by (by intros [_ [? ?]]).
    split; [done|]. eexists. split_and!; [done| |..].
    + cbn [select columns]. by rewrite Hfinal.
    + by rewrite length_rows_final.
    + intros. rewrite length_rows_final. by apply Heq5.
    + exists msg. cbn [log]. apply elem_of_app. by right.
Qed.

(** X22.  The script says it skips the 2011 merge and then fails on it:
    when the 2011 lookup is there without one of its two columns and the
    slice has a key for it, the variable keeps the frame that failed the
    check, the merge is tried, and the selection of the two columns
    raises.  The script ends with status 1 and writes nothing; its log is
    the error of the check and the warning that the merge is skipped. *)
Theorem ons_lsoa11_skip_then_fail ons region msoa lsoa icb country l11 :
  Forall well_headed [Some ons; Some region; Some msoa; Some lsoa; Some icb;
                      Some country; Some l11] →
  ONS_KEEP_COLS ⊆ columns (stripped ons) →
  ["NHSER24CDH"; "NHSER24NM"] ⊆ columns (stripped region) →
  ["MSOA21CD"; "MSOA21NM"] ⊆ columns (stripped msoa) →
  ["LSOA21CD"; "LSOA21NM"] ⊆ columns (stripped lsoa) →
  ["ICB23CDH"; "ICB23NM"] ⊆ columns (stripped icb) →
  ["CTRY12CD"; "CTRY12NM"] ⊆ columns (stripped country) →
  ¬ ["LSOA11CD"; "LSOA11NM"] ⊆ columns (stripped l11) →
  is_Some (lsoa11_key (stripped ons)) →
  let p := main (Some ons) (Some region) (Some msoa) (Some lsoa) (Some icb)
             (Some country) (Some l11) in
  exit_code p = 1%Z ∧ written p = None ∧
  log p = [(ERROR, "%s is missing columns: %s");
           (WARNING, "LSOA 2011 lookup missing required columns (%s). Skipping LSOA2011 merge.")].
Proof.
  intros _ Hons Hregion Hmsoa Hlsoa Hicb Hcountry Hneed [k Hk]. cbv zeta.
  unfold main. rewrite build_reads by done.
  assert (lsoa11_key (stripped ons) = None ∨
          lsoa11_key (stripped ons) = Some "LSOA11" ∨
          lsoa11_key (stripped ons) = Some "LSOA11CD") as Hkey.
  { destruct (lsoa11_key_cases (stripped ons)) as [(? & _)|[(? & _)|(? & _)]];
      eauto. }
  destruct (merge_lookups_spec
              (select (ONS_KEEP_COLS ++ option_list (lsoa11_key (stripped ons)))
                      (stripped ons))
              (stripped region) (stripped icb) (stripped msoa)
              (stripped lsoa) (stripped country) (lsoa11_key (stripped ons)))
    as (m5 & Hm5 & _); [done..|].
  destruct (read_lsoa11_cases (Some l11))
    as [[[=] _]|[(? & [= <-] & ? & _)|(? & [= <-] & _ & ->)]]; [done|].
  rewrite and_then_log. cbv beta. rewrite Hm5, and_then_Ok, Hk.
  cbn [merge_lsoa11]. unfold merge_lookup, select_cols.
  rewrite bool_decide_eq_false_2 by done. done.
Qed.

(** X23.  A required input that is missing, or lacks one of its columns,
    stops the script: it ends with status 1, writes nothing, and its log
    is one error record. *)
Theorem ons_required_inputs ons_file region_file msoa_file lsoa_file icb_file
  country_file lsoa11_file :
  Forall well_headed [ons_file; region_file; msoa_file; lsoa_file; icb_file;
                      country_file; lsoa11_file] →
  ¬ (usable ons_file ONS_KEEP_COLS ∧
     usable region_file ["NHSER24CDH"; "NHSER24NM"] ∧
     usable msoa_file ["MSOA21CD"; "MSOA21NM"] ∧
     usable lsoa_file ["LSOA21CD"; "LSOA21NM"] ∧
     usable icb_file ["ICB23CDH"; "ICB23NM"] ∧
     usable country_file ["CTRY12CD"; "CTRY12NM"]) →
  let p := main ons_file region_file msoa_file lsoa_file icb_file country_file
             lsoa11_file in
  exit_code p = 1%Z ∧ written p = None ∧ ∃ msg, log p = [(ERROR, msg)].
Proof.
  intros _ Hnot. cbv zeta. unfold main, build.
  destruct ons_file as [ons|]; [|by eauto]. cbn [_read_csv].
  rewrite and_then_Ok. cbv zeta.
  destruct (decide (ONS_KEEP_COLS ⊆ columns (stripped ons))) as [Hons|Hons];
    [|rewrite require_cols_Raise by done; by eauto].
  rewrite require_cols_Ok, and_then_Ok by done.
  rewrite select_cols_Ok, and_then_Ok.
  2:{ intros c [Hc|Hc]%elem_of_app; [by apply Hons|].
      destruct (lsoa11_key_cases (stripped ons))
        as [(Hk & _)|[(Hk & ?)|(Hk & ?)]]; rewrite Hk in Hc;
        [by apply elem_of_nil in Hc|..];
        by apply list_elem_of_singleton in Hc as ->. }
  destruct (read_lookup_cases region_file ["NHSER24CDH"; "NHSER24NM"])
    as [(region & -> & Hregion & ->)|[_ (msg & e & ->)]]; [|by eauto].
  rewrite and_then_Ok.
  destruct (read_lookup_cases msoa_file ["MSOA21CD"; "MSOA21NM"])
    as [(msoa & -> & Hmsoa & ->)|[_ (msg & e & ->)]]; [|by eauto].
  rewrite and_then_Ok.
  destruct (read_lookup_cases lsoa_file ["LSOA21CD"; "LSOA21NM"])
    as [(lsoa & -> & Hlsoa & ->)|[_ (msg & e & ->)]]; [|by eauto].
  rewrite and_then_Ok.
  destruct (read_lookup_cases icb_file ["ICB23CDH"; "ICB23NM"])
    as [(icb & -> & Hicb & ->)|[_ (msg & e & ->)]]; [|by eauto].
  rewrite and_then_Ok.
  destruct (read_lookup_cases country_file ["CTRY12CD"; "CTRY12NM"])
    as [(country & -> & Hcountry & ->)|[_ (msg & e & ->)]]; [|by eauto].
  destruct Hnot. unfold usable. split_and!; by eexists.
Qed.

Lemma ons_mapping_output_witness :
  let p := main (Some example_ons) (Some example_region) (Some example_msoa)
             (Some example_lsoa) (Some example_icb) (Some example_country)
             (Some example_lsoa11) in
  exit_code p = 0%Z ∧
  ∃ final,
    written p = Some final ∧
    columns final
    = ["PCD2"; "PCDS"; "RegionCode"; "RegionName"; "ICBID"; "ICBName";
       "MSOAID"; "MSOAName"; "LSOAID"; "LSOAName"; "LSOA11ID"; "LSOA11Name";
       "CountryName"] ∧
    length (rows example_ons) ≤ length (rows final).
Proof.
  cbv zeta.
  destruct (ons_mapping_output example_ons example_region example_msoa
              example_lsoa example_icb example_country (Some example_lsoa11))
    as (Hexit & final & Hwritten & Hcols & Hge & _).
  1: repeat constructor; intros df [= <-];
     apply (bool_decide_unpack _); vm_compute; exact I.
  1-6: apply (bool_decide_unpack _); vm_compute; exact I.
  - intros l11 [= <-] _. apply (bool_decide_unpack _). vm_compute. exact I.
  - split; [exact Hexit|]. exists final. split_and!; [exact Hwritten| |exact Hge].
    rewrite Hcols. vm_compute. reflexivity.
Defined.

Lemma ons_lsoa11_skip_then_fail_witness :
  let p := main (Some example_ons) (Some example_region) (Some example_msoa)
             (Some example_lsoa) (Some example_icb) (Some example_country)
             (Some example_lsoa11_short) in
  exit_code p = 1%Z ∧ written p = None ∧
  log p = [(ERROR, "%s is missing columns: %s");
           (WARNING, "LSOA 2011 lookup missing required columns (%s). Skipping LSOA2011 merge.")].
Proof.
  cbv zeta.
  apply (ons_lsoa11_skip_then_fail example_ons example_region example_msoa
           example_lsoa example_icb example_country example_lsoa11_short).
  1: repeat constructor; intros df [= <-];
     apply (bool_decide_unpack _); vm_compute; exact I.
  1-6: apply (bool_decide_unpack _); vm_compute; exact I.
  - apply (bool_decide_unpack _). vm_compute. exact I.
  - vm_compute. by eexists.
Defined.

Lemma ons_required_inputs_witness :
  let p := main (Some example_ons) (Some example_region) None
             (Some example_lsoa) (Some example_icb) (Some example_country)
             (Some example_lsoa11) in
  exit_code p = 1%Z ∧ written p = None ∧ ∃ msg, log p = [(ERROR, msg)].
Proof.
  cbv zeta.
  apply (ons_required_inputs (Some example_ons) (Some example_region) None
           (Some example_lsoa) (Some example_icb) (Some example_country)
           (Some example_lsoa11)).
  - repeat constructor; intros df [= <-];
      apply (bool_decide_unpack _); vm_compute; exact I.
  - by intros (_ & _ & (df & [=] & _) & _).
Defined.

End OnsMapping.

(** ** The table of the QOF script *)

Section QofOutput.
Import qof.
Import PyStr Frame.

Lemma drop_duplicate_rows_go_spec seen rs :
  NoDup (drop_duplicate_rows_go seen rs) ∧
  ∀ r, r ∈ drop_duplicate_rows_go seen rs → r ∈ rs ∧ r ∉ seen.
Proof.
  revert seen. induction rs as [|r rs IH]; intros seen.
  - split; [constructor|]. by intros r ?%elem_of_nil.
  - cbn [drop_duplicate_rows_go]. case_bool_decide as Hseen.
    + destruct (IH seen) as [Hnodup Hin]. split; [done|].
      intros r' [? ?]%Hin. split; [by right|done].
    + destruct (IH (r :: seen)) as [Hnodup Hin]. split.
      * constructor; [|done]. intros [_ Hr]%Hin. apply Hr. left.
      * intros r' [->|[? Hr']%Hin]%elem_of_cons.
        -- split; [left|done].
        -- split; [by right|]. intros ?. apply Hr'. by right.
Qed.

(** The rows of the table of descriptions: a code and a description of
    one row of the mapping, and no row twice. *)
Lemma categories_rows mapping cats :
  categories mapping = Some cats →
  columns cats = ["GROUP_CODE"; "DiseaseCategory"] ∧
  NoDup (rows cats) ∧
  ∀ c, c ∈ rows cats →
    ∃ m, m ∈ rows (HealthDepriviation_2019.strip_headers mapping) ∧
         c = [("GROUP_CODE", get "GROUP_CODE" m);
              ("DiseaseCategory", get "GROUP_DESCRIPTION" m)].
Proof.
  unfold categories. cbv zeta. case_bool_decide; [|done]. intros [= <-].
  destruct (drop_duplicate_rows_go_spec []
              (rows (select ["GROUP_CODE"; "GROUP_DESCRIPTION"]
                       (HealthDepriviation_2019.strip_headers mapping))))
    as [Hnodup Hin].
  assert (∀ d, d ∈ drop_duplicate_rows_go []
                 (rows (select ["GROUP_CODE"; "GROUP_DESCRIPTION"]
                          (HealthDepriviation_2019.strip_headers mapping))) →
    ∃ m, m ∈ rows (HealthDepriviation_2019.strip_headers mapping) ∧
         d = [("GROUP_CODE", get "GROUP_CODE" m);
              ("GROUP_DESCRIPTION", get "GROUP_DESCRIPTION" m)]) as Hshape.
  { intros d [Hd _]%Hin. unfold select in Hd. cbn [rows] in Hd.
    apply list_elem_of_fmap in Hd as (m & -> & Hm). by exists m. }
  unfold rename_column, drop_duplicate_rows. cbn [columns rows select].
  split_and!.
  - done.
  - apply NoDup_fmap_2_strong; [|done].
    intros d1 d2 (m1 & _ & ->)%Hshape (m2 & _ & ->)%Hshape. cbn.
    by intros [= -> ->].
  - intros c (d & -> & (m & Hm & ->)%Hshape)%list_elem_of_fmap.
    by exists m.
Qed.

Lemma prevalence_rows input df :
  prevalence input = Some df →
  columns df = ["PRACTICE_CODE"; "GROUP_CODE"; "IndicativePatients23_24"] ∧
  rows df
  = (λ r, [("PRACTICE_CODE", get "PRACTICE_CODE" r);
           ("GROUP_CODE", get "GROUP_CODE" r);
           ("IndicativePatients23_24", get "REGISTER" r)])
      <$> filter (λ r, is_total r = true)
            (rows (HealthDepriviation_2019.strip_headers input)).
Proof.
  unfold prevalence. cbv zeta. case_bool_decide; [|done].
  case_bool_decide; [|done]. intros [= <-].
  unfold rename_column, select, where_. cbn [columns rows]. split; [done|].
  rewrite <- list_fmap_compose.
  assert (∀ rs : list row, List.filter is_total rs
                           = filter (λ r, is_total r = true) rs) as ->.
  { induction rs as [|r rs IH]; [done|]. cbn [List.filter].
    rewrite filter_cons, IH. destruct (is_total r); [by rewrite decide_True|].
    by rewrite decide_False. }
  done.
Qed.

(** X24.  What the QOF script writes, for files whose trimmed headers are
    distinct.  The table has the four columns, in their order.  Every
    row comes from a row of the total list, with its practice code, its
    group code and its register, and no row of the total list is lost:
    there are at least as many rows in the table, and exactly as many
    when the mapping gives every group code one description. *)
Theorem qof_output (input mapping : frame) :
  NoDup (strip <$> columns input) → NoDup (strip <$> columns mapping) →
  ∀ out, written (main (Some input) (Some mapping)) = Some out →
    let totals := filter (λ r, is_total r = true)
                    (rows (HealthDepriviation_2019.strip_headers input)) in
    columns out = ["PRACTICE_CODE"; "GROUP_CODE"; "IndicativePatients23_24";
                   "DiseaseCategory"] ∧
    (∀ r, r ∈ rows out →
       ∃ r0, r0 ∈ totals ∧
         get "PRACTICE_CODE" r = get "PRACTICE_CODE" r0 ∧
         get "GROUP_CODE" r = get "GROUP_CODE" r0 ∧
         get "IndicativePatients23_24" r = get "REGISTER" r0) ∧
    length totals ≤ length (rows out) ∧
    ((∀ m1 m2,
        m1 ∈ rows (HealthDepriviation_2019.strip_headers mapping) →
        m2 ∈ rows (HealthDepriviation_2019.strip_headers mapping) →
        get "GROUP_CODE" m1 = get "GROUP_CODE" m2 →
        get "GROUP_DESCRIPTION" m1 = get "GROUP_DESCRIPTION" m2) →
     length (rows out) = length totals).
Proof.
  intros _ _ out. unfold main. cbn [mbind option_bind].
  destruct (prevalence input) as [df|] eqn:Hdf; [|done]. cbn [mbind option_bind].
  destruct (categories mapping) as [cats|] eqn:Hcats; [|done].
  cbn [mbind option_bind written]. intros [= <-]. cbv zeta.
  apply prevalence_rows in Hdf as [Hcols Hrows].
  apply categories_rows in Hcats as (Hcols' & Hnodup & Hshape).
  assert (length (rows df) = length
            (filter (λ r, is_total r = true)
               (rows (HealthDepriviation_2019.strip_headers input)))) as Hlen
    by (by rewrite Hrows, length_fmap).
  split_and!.
  - rewrite columns_merge_on, Hcols, Hcols'.
    by rewrite filter_cons_False, filter_cons_True, filter_nil by (by intros ?).
  - intros r. rewrite rows_merge_on. intros (l & Hr & Hl)%list_elem_of_bind.
    rewrite Hrows in Hl. apply list_elem_of_fmap in Hl as (r0 & -> & Hr0).
    exists r0. split; [done|].
    assert (∃ tail, r = [("PRACTICE_CODE", get "PRACTICE_CODE" r0);
                         ("GROUP_CODE", get "GROUP_CODE" r0);
                         ("IndicativePatients23_24", get "REGISTER" r0)]
                        ++ tail) as [tail ->].
    { destruct (matches _ _ _ _).
      - apply list_elem_of_singleton in Hr as ->. by eexists.
      - apply list_elem_of_fmap in Hr as (? & -> & _). by eexists. }
    done.
  - rewrite <- Hlen, rows_merge_on. apply length_bind_ge, Forall_forall.
    intros l _. destruct (matches _ _ _ l); [done|].
    rewrite length_fmap. simpl. lia.
  - intros Hfun. rewrite <- Hlen, rows_merge_on.
    apply length_bind_singletons, Forall_forall. intros l _.
    assert (length (matches cats "GROUP_CODE" "GROUP_CODE" l) ≤ 1) as Hle.
    { apply filter_key_NoDup. apply NoDup_fmap_2_strong; [|done].
      intros c1 c2 (m1 & Hm1 & ->)%Hshape (m2 & Hm2 & ->)%Hshape Hcode.
      change (get "GROUP_CODE" m1 = get "GROUP_CODE" m2) in Hcode.
      by rewrite Hcode, (Hfun m1 m2 Hm1 Hm2 Hcode). }
    destruct (matches _ _ _ l) as [|c [|c' ms]]; [done|done|].
    simpl in Hle. lia.
Qed.

Lemma qof_output_witness :
  ∃ out,
    written (main (Some example_prevalence) (Some example_indicators)) = Some out ∧
    columns out = ["PRACTICE_CODE"; "GROUP_CODE"; "IndicativePatients23_24";
                   "DiseaseCategory"] ∧
    length (rows out) = 2.
Proof.
  assert (∃ out, written (main (Some example_prevalence)
                            (Some example_indicators)) = Some out)
    as [out Hout] by (eexists; vm_compute; reflexivity).
  exists out. split; [exact Hout|].
  assert (NoDup (strip <$> columns example_prevalence)) as H1
    by (apply (bool_decide_unpack _); vm_compute; exact I).
  assert (NoDup (strip <$> columns example_indicators)) as H2
    by (apply (bool_decide_unpack _); vm_compute; exact I).
  destruct (qof_output example_prevalence example_indicators H1 H2 out Hout)
    as (Hcols & _ & _ & Heq).
  split; [exact Hcols|]. rewrite Heq; [vm_compute; reflexivity|].
  intros m1 m2 Hm1 Hm2 _.
  assert (∀ m, m ∈ rows (HealthDepriviation_2019.strip_headers example_indicators) →
               get "GROUP_DESCRIPTION" m = Str "Atrial fibrillation") as Hdesc.
  { apply Forall_forall. vm_compute. repeat constructor. }
  by rewrite (Hdesc m1), (Hdesc m2).
Defined.

End QofOutput.

(* ===================================================================== *)
(** * Part IV: how the scripts end *)
(* ===================================================================== *)

(** ** Exit statuses *)

Section ExitBehaviour.
Import PyStr Frame.




Lemma logs_error_app_l log log' : logs_error log → logs_error (log ++ log').
Proof. intros [msg Hin]. exists msg. apply elem_of_app. by left. Qed.













End ExitBehaviour.
